(** * signals-poc: the dashboard's route handlers over the relational store

    A shallow embedding of the TypeScript route handlers under
    [signals-fe/src/app] and of the constraints declared by the SQL
    migrations, with the properties of the specification stated over them.

    Conventions.
    - A JavaScript string is a [string]: a sequence of code units, the
      model keeping the code units below 256 (ISO 8859-1).
    - A value that may be [undefined] or [null] is an [option].
    - A handler that awaits the database client threads the store through
      a small state-and-exception monad ([Client.M]). *)

From Stdlib Require Import List Bool Arith ZArith Lia Ascii String.
From Stdlib Require Import Decimal DecimalString.
Import ListNotations.

Local Open Scope list_scope.
Local Open Scope string_scope.

(* ================================================================== *)
(** ** JavaScript string primitives used by the handlers *)
(* ================================================================== *)

Module Js.

(** [s.length] *)
Definition length (s : string) : nat := String.length s.

(** [s.includes(sub)] *)
Fixpoint includes (s sub : string) : bool :=
  String.prefix sub s ||
  match s with
  | EmptyString => false
  | String _ s' => includes s' sub
  end.

(** [s.substring(0, n)] *)
Fixpoint take (n : nat) (s : string) : string :=
  match n, s with
  | S n', String c s' => String c (take n' s')
  | _, _ => EmptyString
  end.

Fixpoint map_chars (f : ascii -> ascii) (s : string) : string :=
  match s with
  | EmptyString => EmptyString
  | String c s' => String (f c) (map_chars f s')
  end.

(** Lower-casing of one ISO 8859-1 code unit: A-Z, and the accented
    capitals U+00C0..U+00DE except the multiplication sign U+00D7. *)
Definition lower_char (c : ascii) : ascii :=
  let n := nat_of_ascii c in
  if (((65 <=? n) && (n <=? 90)) ||
      ((192 <=? n) && (n <=? 222) && negb (n =? 215)))%nat
  then ascii_of_nat (n + 32) else c.

(** [s.toLowerCase()] *)
Definition toLowerCase (s : string) : string := map_chars lower_char s.

(** White space in the sense of [String.prototype.trim]. *)
Definition is_space (c : ascii) : bool :=
  let n := nat_of_ascii c in
  (((9 <=? n) && (n <=? 13)) || (n =? 32) || (n =? 160))%nat.

Fixpoint trimStart (s : string) : string :=
  match s with
  | EmptyString => EmptyString
  | String c s' => if is_space c then trimStart s' else s
  end.

Fixpoint trimEnd (s : string) : string :=
  match s with
  | EmptyString => EmptyString
  | String c s' =>
      match trimEnd s' with
      | EmptyString => if is_space c then EmptyString else String c EmptyString
      | t => String c t
      end
  end.

(** [s.trim()] *)
Definition trim (s : string) : string := trimEnd (trimStart s).

(** [s.split(re)] for a regular expression [re] of the form [[...]+]:
    the pieces between maximal runs of separator characters.  [cur] is
    the piece being read, [in_sep] tells that the previous character was
    a separator. *)
Fixpoint split_runs (sep : ascii -> bool) (s : string)
         (cur : string) (in_sep : bool) : list string :=
  match s with
  | EmptyString => [cur]
  | String c s' =>
      if sep c
      then if in_sep then split_runs sep s' EmptyString true
           else cur :: split_runs sep s' EmptyString true
      else split_runs sep s' (cur ++ String c EmptyString) false
  end.

(** [s.split(/[.!?]+/)] *)
Definition is_sentence_end (c : ascii) : bool :=
  let n := nat_of_ascii c in ((n =? 46) || (n =? 33) || (n =? 63))%nat.

Definition split_sentences (s : string) : list string :=
  split_runs is_sentence_end s EmptyString false.

(** [s.split(c)] for a one-character separator. *)
Fixpoint split_char (sep : ascii) (s : string) (cur : string) : list string :=
  match s with
  | EmptyString => [cur]
  | String c s' =>
      if Ascii.eqb c sep then cur :: split_char sep s' EmptyString
      else split_char sep s' (cur ++ String c EmptyString)
  end.

(** [parts.join(sep)] *)
Fixpoint join (sep : string) (parts : list string) : string :=
  match parts with
  | [] => EmptyString
  | [p] => p
  | p :: rest => p ++ sep ++ join sep rest
  end.

(** Truthiness of a possibly absent string: [!!v]. *)
Definition truthy (v : option string) : bool :=
  match v with
  | Some s => negb (String.eqb s EmptyString)
  | None => false
  end.

(** [v || d] for a possibly absent string. *)
Definition or_else (v : option string) (d : string) : string :=
  match v with
  | Some s => if String.eqb s EmptyString then d else s
  | None => d
  end.

End Js.

(* ================================================================== *)
(** ** Single-session ingestion: the fallback path
       ([api/ingest/route.ts], the [catch (pipelineError)] block) *)
(* ================================================================== *)

Module Ingest.

Record chunk := mkChunk {
  chunk_session_id : string;
  chunk_text : string;
  start_sec : Z;
  end_sec : option Z
}.

Record candidate := mkCandidate {
  cand_session_id : string;
  topic_id_suggested : option string;
  label : string;
  evidence : string;
  why_new : string;
  status : string
}.

Definition chunkSize : nat := 2.

(** [raw.split(/[.!?]+/).filter(s => s.trim().length > 10)] *)
Definition sentences_of (raw : string) : list string :=
  filter (fun s => (10 <? Js.length (Js.trim s))%nat) (Js.split_sentences raw).

(** One iteration of the window loop at index [i], over
    [window = sentences.slice(i, i + chunkSize)]. *)
Definition window_chunk (sid : string) (i : nat) (window : list string)
  : list chunk :=
  let chunkText := Js.trim (Js.join ". " window) in
  if (20 <? Js.length chunkText)%nat
  then [mkChunk sid chunkText (Z.of_nat i * 10)%Z
                (Some ((Z.of_nat i + Z.of_nat chunkSize) * 10)%Z)]
  else [].

(** [for (let i = 0; i < sentences.length; i += chunkSize)]: [rest] is
    [sentences.slice(i)], so the window is its first two elements. *)
Fixpoint window_loop (sid : string) (i : nat) (rest : list string)
  : list chunk :=
  match rest with
  | [] => []
  | [a] => window_chunk sid i [a]
  | a :: b :: rest' =>
      (window_chunk sid i [a; b] ++ window_loop sid (i + chunkSize) rest')%list
  end.

(** The chunk rows handed to [sb.from('chunks').insert]. *)
Definition basicChunks (sid raw : string) : list chunk :=
  let windowed := window_loop sid 0 (sentences_of raw) in
  if Nat.eqb (List.length windowed) 0
  then (windowed ++ [mkChunk sid (Js.take 2000 raw) 0%Z None])%list
  else windowed.

Definition group_product (text : string) : bool :=
  Js.includes text "product" || Js.includes text "development"
  || Js.includes text "feature".

Definition group_user (text : string) : bool :=
  Js.includes text "user" || Js.includes text "feedback"
  || Js.includes text "customer".

Definition group_planning (text : string) : bool :=
  Js.includes text "timeline" || Js.includes text "priority"
  || Js.includes text "plan".

Definition cand_product (sid raw : string) : candidate :=
  mkCandidate sid None "Product Development" (Js.take 150 raw)
              "Contains product development discussion" "pending".

Definition cand_user (sid raw : string) : candidate :=
  mkCandidate sid None "User Feedback" (Js.take 150 raw)
              "Contains user feedback discussion" "pending".

Definition cand_planning (sid raw : string) : candidate :=
  mkCandidate sid None "Planning & Timeline" (Js.take 150 raw)
              "Contains planning and timeline discussion" "pending".

Definition cand_general (sid raw : string) : candidate :=
  mkCandidate sid None "General Discussion" (Js.take 100 raw)
              "Basic topic detection (pipeline failed)" "pending".

(** The candidates pushed by the three keyword tests, in order. *)
Definition matched (sid raw : string) : list candidate :=
  let text := Js.toLowerCase raw in
  ((if group_product text then [cand_product sid raw] else [])
   ++ (if group_user text then [cand_user sid raw] else [])
   ++ (if group_planning text then [cand_planning sid raw] else []))%list.

(** The candidate rows handed to [sb.from('topic_candidates').insert]. *)
Definition basicCandidates (sid raw : string) : list candidate :=
  let cs := matched sid raw in
  if Nat.eqb (List.length cs) 0 then (cs ++ [cand_general sid raw])%list else cs.

Definition labels (cs : list candidate) : list string := map label cs.

End Ingest.

(* ================================================================== *)
(** ** Dates: [Date.parse] and [Date.prototype.toISOString] *)
(* ================================================================== *)

Module JsDate.

Local Open Scope Z_scope.

Definition digit_val (c : ascii) : option Z :=
  let n := nat_of_ascii c in
  if ((48 <=? n) && (n <=? 57))%nat then Some (Z.of_nat n - 48) else None.

(** [\d] *)
Definition is_digit (c : ascii) : bool :=
  match digit_val c with Some _ => true | None => false end.

(** Reads exactly [n] decimal digits at the head of [s]. *)
Fixpoint read_digits (n : nat) (acc : Z) (s : string) : option (Z * string) :=
  match n with
  | O => Some (acc, s)
  | S n' =>
      match s with
      | String c s' =>
          match digit_val c with
          | Some d => read_digits n' (acc * 10 + d) s'
          | None => None
          end
      | EmptyString => None
      end
  end.

(** Reads the one character [c]. *)
Definition read_lit (c : ascii) (s : string) : option string :=
  match s with
  | String c' s' => if Ascii.eqb c c' then Some s' else None
  | EmptyString => None
  end.

Definition is_leap (y : Z) : bool :=
  ((y mod 4 =? 0) && negb (y mod 100 =? 0)) || (y mod 400 =? 0).

Definition days_in_month (y m : Z) : Z :=
  if m =? 2 then (if is_leap y then 29 else 28)
  else if (m =? 4) || (m =? 6) || (m =? 9) || (m =? 11) then 30
  else 31.

(** Day number of a proleptic Gregorian date, day 0 being 1970-01-01
    ([MakeDay]). *)
Definition days_from_civil (y m d : Z) : Z :=
  let y' := if m <=? 2 then y - 1 else y in
  let era := y' / 400 in
  let yoe := y' - era * 400 in
  let mp := if 2 <? m then m - 3 else m + 9 in
  let doy := (153 * mp + 2) / 5 + d - 1 in
  let doe := yoe * 365 + yoe / 4 - yoe / 100 + doy in
  era * 146097 + doe - 719468.

Definition msPerDay : Z := 86400000.

(** The time value of a UTC date and time ([MakeDate (MakeDay ..) (MakeTime ..)]). *)
Definition make_date (y mo d h mi s ms : Z) : Z :=
  days_from_civil y mo d * msPerDay
  + h * 3600000 + mi * 60000 + s * 1000 + ms.

(** Optional fraction [.sss] followed by the final [Z]. *)
Definition read_tail (s : string) : option Z :=
  match read_lit "Z" s with
  | Some EmptyString => Some 0
  | Some _ => None
  | None =>
      match read_lit "." s with
      | Some s1 =>
          match read_digits 3 0 s1 with
          | Some (ms, s2) =>
              match read_lit "Z" s2 with
              | Some EmptyString => Some ms
              | _ => None
              end
          | None => None
          end
      | None => None
      end
  end.

(** The fields of a string of the form [YYYY-MM-DDTHH:mm:ss(.sss)?Z]. *)
Definition read_utc_fields (s : string) : option (Z * Z * Z * Z * Z * Z * Z) :=
  match read_digits 4 0 s with
  | Some (y, s1) =>
  match read_lit "-" s1 with
  | Some s2 =>
  match read_digits 2 0 s2 with
  | Some (mo, s3) =>
  match read_lit "-" s3 with
  | Some s4 =>
  match read_digits 2 0 s4 with
  | Some (d, s5) =>
  match read_lit "T" s5 with
  | Some s6 =>
  match read_digits 2 0 s6 with
  | Some (h, s7) =>
  match read_lit ":" s7 with
  | Some s8 =>
  match read_digits 2 0 s8 with
  | Some (mi, s9) =>
  match read_lit ":" s9 with
  | Some s10 =>
  match read_digits 2 0 s10 with
  | Some (sec, s11) =>
  match read_tail s11 with
  | Some ms => Some (y, mo, d, h, mi, sec, ms)
  | None => None
  end | None => None end | None => None end | None => None end
      | None => None end | None => None end | None => None end
      | None => None end | None => None end | None => None end
      | None => None end | None => None end.

Section Engine.

(** What the engine does with a string that the model does not
    interpret: the other forms of the date-time string format (no
    time, no zone, an offset) and the engine's own heuristics.
    [None] is the invalid date ([NaN]). *)
Variable engine_parse : string -> option Z.

(** [new Date(s).getTime()].  A string of the UTC date-time form with
    an out-of-bounds month, day, hour, minute or second is not a date;
    a day within 1..31 but past the end of its month is left to the
    engine. *)
Definition parse (s : string) : option Z :=
  match read_utc_fields s with
  | Some (y, mo, d, h, mi, sec, ms) =>
      if negb ((1 <=? mo) && (mo <=? 12) && (1 <=? d) && (d <=? 31)
               && (mi <=? 59) && (sec <=? 59)
               && ((h <=? 23)
                   || ((h =? 24) && (mi =? 0) && (sec =? 0) && (ms =? 0))))
      then None
      else if d <=? days_in_month y mo
      then Some (make_date y mo d h mi sec ms)
      else engine_parse s
  | None => engine_parse s
  end.

End Engine.

(** The [width] low decimal digits of [n], most significant first. *)
Fixpoint pad_num (width : nat) (n : Z) : string :=
  match width with
  | O => EmptyString
  | S w =>
      (pad_num w (n / 10)
       ++ String (ascii_of_nat (48 + Z.to_nat (n mod 10))) EmptyString)%string
  end.

(** Year, month and day of a day number. *)
Definition civil_from_days (z : Z) : Z * Z * Z :=
  let z' := z + 719468 in
  let era := z' / 146097 in
  let doe := z' - era * 146097 in
  let yoe := (doe - doe / 1460 + doe / 36524 - doe / 146096) / 365 in
  let doy := doe - (365 * yoe + yoe / 4 - yoe / 100) in
  let mp := (5 * doy + 2) / 153 in
  let d := doy - (153 * mp + 2) / 5 + 1 in
  let m := if mp <? 10 then mp + 3 else mp - 9 in
  let y := yoe + era * 400 + (if m <=? 2 then 1 else 0) in
  (y, m, d).

(** [new Date(t).toISOString()] for a valid time value [t]. *)
Definition toISOString (t : Z) : string :=
  let day := t / msPerDay in
  let ms := t mod msPerDay in
  let '(y, m, d) := civil_from_days day in
  let year : string :=
    if (0 <=? y) && (y <=? 9999) then pad_num 4 y
    else if y <? 0 then ("-" ++ pad_num 6 (- y))%string
    else ("+" ++ pad_num 6 y)%string in
  (year ++ "-" ++ pad_num 2 m ++ "-" ++ pad_num 2 d
   ++ "T" ++ pad_num 2 (ms / 3600000)
   ++ ":" ++ pad_num 2 ((ms / 60000) mod 60)
   ++ ":" ++ pad_num 2 ((ms / 1000) mod 60)
   ++ "." ++ pad_num 3 (ms mod 1000) ++ "Z")%string.

End JsDate.

(* ================================================================== *)
(** ** CSV batch ingestion: the date column
       ([api/ingest/batch/route.ts], lines 57-103) *)
(* ================================================================== *)

Module Batch.

(** A piece of one of the two anchored patterns of the handler: a
    literal character, or [\d{lo,hi}]. *)
Inductive item :=
| Lit (c : ascii)
| Digits (lo hi : nat).

Fixpoint all_digits (s : string) : bool :=
  match s with
  | EmptyString => true
  | String c s' => JsDate.is_digit c && all_digits s'
  end.

Fixpoint drop (n : nat) (s : string) : string :=
  match n, s with
  | S n', String _ s' => drop n' s'
  | _, _ => s
  end.

(** [^p$] matches [s]: a [\d{lo,hi}] item may take any number of digits
    from [lo] to [hi]. *)
Fixpoint matches (p : list item) (s : string) : bool :=
  match p with
  | [] => String.eqb s EmptyString
  | Lit c :: p' =>
      match s with
      | String c' s' => Ascii.eqb c c' && matches p' s'
      | EmptyString => false
      end
  | Digits lo hi :: p' =>
      existsb (fun k => Nat.eqb (Js.length (Js.take k s)) k
                        && all_digits (Js.take k s)
                        && matches p' (drop k s))
              (seq lo (hi - lo + 1))
  end.

(** [/^\d{4}-\d{2}-\d{2}$/] *)
Definition re_date_only : list item :=
  [Digits 4 4; Lit "-"; Digits 2 2; Lit "-"; Digits 2 2].

(** [/^\d{1,2}\/\d{1,2}\/\d{4}$/], written twice in the handler. *)
Definition re_slashes : list item :=
  [Digits 1 2; Lit "/"; Digits 1 2; Lit "/"; Digits 4 4].

(** [s.padStart(2, '0')] *)
Definition padStart2 (s : string) : string :=
  match Js.length s with
  | 0 => "00"
  | 1 => "0" ++ s
  | _ => s
  end.

(** The branch of the format cascade that builds [parsedDate]. *)
Inductive branch := BrISO | BrDateOnly | BrUS | BrUK | BrGeneric.

(** [`${year}-${month.padStart(2, '0')}-${day.padStart(2, '0')}T00:00:00Z`] *)
Definition ymd_string (year month day : string) : string :=
  year ++ "-" ++ padStart2 month ++ "-" ++ padStart2 day ++ "T00:00:00Z".

(** The cascade of lines 70-91: the branch taken and the string given
    to [new Date]. *)
Definition date_argument (dateValue : string) : branch * string :=
  if Js.includes dateValue "T" || Js.includes dateValue "Z"
  then (BrISO, dateValue)
  else if matches re_date_only dateValue
  then (BrDateOnly, dateValue ++ "T00:00:00Z")
  else if matches re_slashes dateValue
  then match Js.split_char "/" dateValue EmptyString with
       | month :: day :: year :: _ => (BrUS, ymd_string year month day)
       | _ => (BrUS, dateValue)
       end
  else if matches re_slashes dateValue
  then match Js.split_char "/" dateValue EmptyString with
       | day :: month :: year :: _ => (BrUK, ymd_string year month day)
       | _ => (BrUK, dateValue)
       end
  else (BrGeneric, dateValue).

Inductive warning :=
| LooksLikeContent   (* "value looks like content, not a date" *)
| InvalidDateFormat. (* "Invalid date format ..." *)

Record parsed := mkParsed {
  startedAt : string;
  took : option branch;       (* the branch that built [parsedDate] *)
  time_value : option Z;      (* [parsedDate.getTime()], when valid *)
  warned : option warning
}.

Section Row.

Variable engine_parse : string -> option Z.

(** [now] is the value of [new Date().toISOString()] at line 58. *)
Variable now : string.

(** Lines 61-99, for a non-empty [dateValue]. *)
Definition parse_date_value (dateValue : string) : parsed :=
  if (50 <? Js.length dateValue)%nat
     || Js.includes dateValue "<" || Js.includes dateValue ">"
  then mkParsed now None None (Some LooksLikeContent)
  else
    let '(br, arg) := date_argument dateValue in
    match JsDate.parse engine_parse arg with
    | Some t => mkParsed (JsDate.toISOString t) (Some br) (Some t) None
    | None => mkParsed now (Some br) None (Some InvalidDateFormat)
    end.

(** [values[dateIndex]], [dateIndex] being [headers.indexOf('date')]. *)
Definition cell (values : list string) (dateIndex : Z) : option string :=
  if (dateIndex <? 0)%Z then None else nth_error values (Z.to_nat dateIndex).

(** Lines 58-103: the [startedAt] of one data row. *)
Definition row_startedAt (dateIndex : Z) (values : list string) : parsed :=
  if (0 <=? dateIndex)%Z && Js.truthy (cell values dateIndex)
  then match cell values dateIndex with
       | Some dateValue => parse_date_value dateValue
       | None => mkParsed now None None None
       end
  else mkParsed now None None None.

End Row.

End Batch.

(* ================================================================== *)
(** ** The relational store
       ([supabase/migrations/0001_init.sql] and the constraints added by
        the quick-wins migration) *)
(* ================================================================== *)

Module Db.

(** Table [topics]. *)
Record topic := mkTopic {
  id : string;                    (* text primary key *)
  label : string;                 (* text not null *)
  description : option string;
  status : string;                (* not null default 'active' *)
  created_by : option string
}.

(** Table [topic_aliases]; the generated [alias_id] is left out. *)
Record topic_alias := mkAlias {
  alias : string;                 (* text unique not null *)
  topic_id : string               (* references topics(id) *)
}.

(** Table [topic_relations].  The only weight the handlers write is
    [1.0], kept here as the integer 1. *)
Record topic_relation := mkRelation {
  parent_id : string;             (* references topics(id) *)
  child_id : string;              (* references topics(id) *)
  relation_type : string;
  rollup_weight : option Z
}.

(** Table [topic_candidates]. *)
Record topic_candidate := mkCandidate {
  candidate_id : string;
  cand_session_id : string;
  topic_id_suggested : option string;
  cand_label : string;
  evidence : string;
  cand_status : string;
  approver_id : option string;
  decided_at : option string
}.

(** [payload_json] of the events the approval handler writes. *)
Inductive payload :=
| StatusChanged (to action targetCoreId : option string)
| Applied (count : nat)
| AutoTriggered.

(** Table [events]; [event_id] and [occurred_at] are generated. *)
Record event := mkEvent {
  actor : string;
  event_type : string;
  ev_candidate_id : option string;
  ev_session_id : option string;
  payload_json : payload
}.

(** The row of [scoring_config] with [id = 1], when there is one. *)
Record config := mkConfig {
  auto_chunk_tag_after_approval : option bool
}.

Record db := mkDb {
  topics : list topic;
  topic_aliases : list topic_alias;
  topic_relations : list topic_relation;
  topic_candidates : list topic_candidate;
  events : list event;
  scoring_config : option config
}.

(** SQL [lower(text)]. *)
Definition lower (s : string) : string := Js.toLowerCase s.

Definition has_topic (tid : string) (ts : list topic) : bool :=
  existsb (fun t => String.eqb (id t) tid) ts.

(** Unique index [uq_topics_label on topics (lower(label))]: does a row
    other than the one with key [tid] carry the label, ignoring case? *)
Definition label_taken (tid lbl : string) (ts : list topic) : bool :=
  existsb (fun t => negb (String.eqb (id t) tid)
                    && String.eqb (lower (label t)) (lower lbl)) ts.

(** The [do update] of the upsert on the row with key [tid]: the
    columns of the request are set, the others kept. *)
Definition put (tid lbl cby : string) (t : topic) : topic :=
  if String.eqb (id t) tid
  then mkTopic tid lbl (description t) (status t) (Some cby) else t.

(** [upsert({ id, label, created_by })] on [topics]:
    [insert ... on conflict (id) do update].  [None] is the error of a
    violated constraint; the statement then changes nothing. *)
Definition upsert_topic (tid lbl cby : string) (ts : list topic)
  : option (list topic) :=
  if label_taken tid lbl ts then None
  else if has_topic tid ts
  then Some (map (put tid lbl cby) ts)
  else Some (ts ++ [mkTopic tid lbl None "active" (Some cby)])%list.

(** [alias text unique]. *)
Definition alias_taken (a : string) (als : list topic_alias) : bool :=
  existsb (fun x => String.eqb (alias x) a) als.

(** Unique index [uq_topic_aliases on topic_aliases (topic_id, lower(alias))]. *)
Definition alias_taken_nocase (tid a : string) (als : list topic_alias) : bool :=
  existsb (fun x => String.eqb (topic_id x) tid
                    && String.eqb (lower (alias x)) (lower a)) als.

(** [upsert({ topic_id, alias })] on [topic_aliases].  The conflict
    target is the generated primary key, which a new row never hits: the
    statement inserts, or fails on the foreign key or a unique index. *)
Definition upsert_alias (tid a : string) (ts : list topic)
           (als : list topic_alias) : option (list topic_alias) :=
  if negb (has_topic tid ts) then None
  else if alias_taken a als || alias_taken_nocase tid a als then None
  else Some (als ++ [mkAlias a tid])%list.

Definition same_edge (p c ty : string) (r : topic_relation) : bool :=
  String.eqb (parent_id r) p && String.eqb (child_id r) c
  && String.eqb (relation_type r) ty.

(** [upsert({ parent_id, child_id, relation_type, rollup_weight })] on
    [topic_relations], primary key [(parent_id, child_id, relation_type)]. *)
Definition upsert_relation (p c ty : string) (w : Z) (ts : list topic)
           (rs : list topic_relation) : option (list topic_relation) :=
  if existsb (same_edge p c ty) rs
  then Some (map (fun r => if same_edge p c ty r
                           then mkRelation p c ty (Some w) else r) rs)
  else if has_topic p ts && has_topic c ts
  then Some (rs ++ [mkRelation p c ty (Some w)])%list
  else None.

(** [update({ status, decided_at, approver_id }).eq('candidate_id', cid)].
    An [undefined] status is dropped from the request body and the
    column keeps its value. *)
Definition update_candidate (cid : string) (st : option string)
           (at_ : string) (cs : list topic_candidate) : list topic_candidate :=
  map (fun c => if String.eqb (candidate_id c) cid
                then mkCandidate (candidate_id c) (cand_session_id c)
                       (topic_id_suggested c) (cand_label c) (evidence c)
                       (match st with Some s => s | None => cand_status c end)
                       (Some "ui") (Some at_)
                else c) cs.

(** [select(..).eq('candidate_id', cid).single()]: the row, if exactly
    one matches. *)
Definition select_candidate (cid : string) (cs : list topic_candidate)
  : option topic_candidate :=
  match filter (fun c => String.eqb (candidate_id c) cid) cs with
  | [c] => Some c
  | _ => None
  end.

(** A request of the client, as the handlers issue them. *)
Inductive request :=
| SelectConfig
| SelectTopics
| SelectAliases
| SelectRelations
| UpdateCandidate (cid : option string) (st : option string) (at_ : string)
| SelectCandidate (cid : option string)
| UpsertAlias (tid a : string)
| UpsertRelation (p c ty : string) (w : Z)
| UpsertTopic (tid lbl cby : string)
| InsertEvent (e : event).

(** The event row a request asks to insert, if it is such a request. *)
Definition event_of (r : request) : list event :=
  match r with InsertEvent e => [e] | _ => [] end.

(** A write to [topics], [topic_aliases] or [topic_relations]. *)
Definition is_taxonomy_write (r : request) : bool :=
  match r with
  | UpsertAlias _ _ | UpsertRelation _ _ _ _ | UpsertTopic _ _ _ => true
  | _ => false
  end.

(** Case-insensitive uniqueness, the invariant of the two indexes. *)
Definition labels_unique (d : db) : Prop :=
  NoDup (map (fun t => lower (label t)) (topics d)).

Definition aliases_unique (d : db) : Prop :=
  NoDup (map (fun a => (topic_id a, lower (alias a))) (topic_aliases d)).

Definition case_unique (d : db) : Prop :=
  labels_unique d /\ aliases_unique d.

(** Primary key of [topics]. *)
Definition keys_unique (d : db) : Prop := NoDup (map id (topics d)).

(** What the key and the two indexes maintain together. *)
Definition consistent (d : db) : Prop := keys_unique d /\ case_unique d.

End Db.

(* ================================================================== *)
(** ** The database client: awaited requests over the store *)
(* ================================================================== *)

Module Client.

(** What may go wrong with a request besides the constraints the store
    model decides: [Rejects] is a failure reported in the [error] field
    of the resolved value (a malformed identifier, a refused
    connection); [Throws] is a rejected promise. *)
Inductive fault := NoFault | Rejects | Throws.

Record world := mkWorld {
  store : Db.db;
  log : list Db.request     (* the requests issued so far, oldest first *)
}.

Inductive outcome (A : Type) :=
| Returned (a : A)
| Thrown.
Arguments Returned {A} a.
Arguments Thrown {A}.

(** An awaited computation: it returns or throws, and leaves a world. *)
Definition M (A : Type) : Type := world -> outcome A * world.

Definition ret {A} (a : A) : M A := fun w => (Returned a, w).

Definition bind {A B} (m : M A) (k : A -> M B) : M B :=
  fun w =>
    match m w with
    | (Returned a, w') => k a w'
    | (Thrown, w') => (Thrown, w')
    end.

(** [try { m } catch { h }] *)
Definition try_catch {A} (m : M A) (h : M A) : M A :=
  fun w =>
    match m w with
    | (Returned a, w') => (Returned a, w')
    | (Thrown, w') => h w'
    end.

(** [for (const x of xs) { body }] *)
Fixpoint for_each {A} (body : A -> M unit) (xs : list A) : M unit :=
  match xs with
  | [] => ret tt
  | x :: xs' => bind (body x) (fun _ => for_each body xs')
  end.

Section Requests.

(** The fault, if any, that hits the request number [k] of the run. *)
Variable plan : nat -> fault.

(** [await sb.from(..)...]: the request [r] is issued; [run] is what the
    store does with it.  The resolved value is [Some data], or [None]
    when [error] is set, in which case the store is unchanged. *)
Definition perform {A} (r : Db.request) (run : Db.db -> option (Db.db * A))
  : M (option A) :=
  fun w =>
    let issued := (log w ++ [r])%list in
    match plan (List.length (log w)) with
    | Throws => (Thrown, mkWorld (store w) issued)
    | Rejects => (Returned None, mkWorld (store w) issued)
    | NoFault =>
        match run (store w) with
        | Some (d', a) => (Returned (Some a), mkWorld d' issued)
        | None => (Returned None, mkWorld (store w) issued)
        end
    end.

End Requests.

(** The run in which nothing but the constraints of the store makes a
    request fail. *)
Definition no_fault : nat -> fault := fun _ => NoFault.

(** [m] keeps the property [P] of the store, however it ends. *)
Definition keeps (P : Db.db -> Prop) {A} (m : M A) : Prop :=
  forall w, P (store w) -> P (store (snd (m w))).

(** [m] never throws. *)
Definition returns {A} (m : M A) : Prop :=
  forall w, exists a w', m w = (Returned a, w').

(** The requests a computation issues from the world [w]. *)
Definition issued_by {A} (m : M A) (w : world) : list Db.request :=
  skipn (List.length (log w)) (log (snd (m w))).

Definition set_topics (d : Db.db) ts :=
  Db.mkDb ts (Db.topic_aliases d) (Db.topic_relations d)
          (Db.topic_candidates d) (Db.events d) (Db.scoring_config d).
Definition set_aliases (d : Db.db) als :=
  Db.mkDb (Db.topics d) als (Db.topic_relations d)
          (Db.topic_candidates d) (Db.events d) (Db.scoring_config d).
Definition set_relations (d : Db.db) rs :=
  Db.mkDb (Db.topics d) (Db.topic_aliases d) rs
          (Db.topic_candidates d) (Db.events d) (Db.scoring_config d).
Definition set_candidates (d : Db.db) cs :=
  Db.mkDb (Db.topics d) (Db.topic_aliases d) (Db.topic_relations d)
          cs (Db.events d) (Db.scoring_config d).
Definition add_event (d : Db.db) e :=
  Db.mkDb (Db.topics d) (Db.topic_aliases d) (Db.topic_relations d)
          (Db.topic_candidates d) (Db.events d ++ [e])%list (Db.scoring_config d).

(** What the store does with each request.  [None]: the request fails
    and changes nothing. *)
Definition run_write (r : Db.request) (d : Db.db) : option (Db.db * unit) :=
  match r with
  | Db.UpdateCandidate (Some cid) st at_ =>
      Some (set_candidates d (Db.update_candidate cid st at_ (Db.topic_candidates d)), tt)
  | Db.UpdateCandidate None _ _ => None
  | Db.UpsertAlias tid a =>
      option_map (fun als => (set_aliases d als, tt))
                 (Db.upsert_alias tid a (Db.topics d) (Db.topic_aliases d))
  | Db.UpsertRelation p c ty w =>
      option_map (fun rs => (set_relations d rs, tt))
                 (Db.upsert_relation p c ty w (Db.topics d) (Db.topic_relations d))
  | Db.UpsertTopic tid lbl cby =>
      option_map (fun ts => (set_topics d ts, tt))
                 (Db.upsert_topic tid lbl cby (Db.topics d))
  | Db.InsertEvent e => Some (add_event d e, tt)
  | _ => Some (d, tt)
  end.

Definition run_select_candidate (cid : option string) (d : Db.db)
  : option (Db.db * Db.topic_candidate) :=
  match cid with
  | Some c => option_map (fun row => (d, row))
                         (Db.select_candidate c (Db.topic_candidates d))
  | None => None
  end.

Definition run_select_config (d : Db.db) : option (Db.db * Db.config) :=
  option_map (fun row => (d, row)) (Db.scoring_config d).

End Client.

(* ================================================================== *)
(** ** Candidate approval: [POST /api/approvals/commit] *)
(* ================================================================== *)

Module Commit.

Import Client.

(** One element of [decisions] in the request body. *)
Record decision := mkDecision {
  id : option string;
  status : option string;
  action : option string;
  targetCoreId : option string;
  sessionId : option string
}.

Inductive response :=
| Success                           (* 200 [{ success: true }] *)
| Failed (status : nat) (error : string).

(** [v === s] *)
Definition equals (v : option string) (s : string) : bool :=
  match v with Some x => String.eqb x s | None => false end.

Section Handler.

Variable plan : nat -> fault.

(** [new Date().toISOString()] at the moment the request number [k] is
    built. *)
Variable clock : nat -> string.

Definition write (r : Db.request) : M (option unit) :=
  perform plan r (run_write r).

(** The write chosen for an approved decision (lines 39-60).  Under
    the test [&& targetCoreId] the target is a non-empty string. *)
Definition approved_write (d : decision) (candidate : option Db.topic_candidate)
  : Db.request :=
  let label := Js.or_else (option_map Db.cand_label candidate) "unknown" in
  let suggested :=
    Js.or_else (match candidate with
                | Some c => Db.topic_id_suggested c
                | None => None
                end) "unknown" in
  if equals (action d) "alias" && Js.truthy (targetCoreId d)
  then Db.UpsertAlias (Js.or_else (targetCoreId d) "") label
  else if equals (action d) "subtopic" && Js.truthy (targetCoreId d)
  then Db.UpsertRelation (Js.or_else (targetCoreId d) "") suggested
                         "parent_child" 1
  else Db.UpsertTopic suggested label "ui".

Definition status_event (d : decision) : Db.event :=
  Db.mkEvent "ui" "candidate_status_changed" (id d) (sessionId d)
             (Db.StatusChanged (status d) (action d) (targetCoreId d)).

(** The body of the loop over [decisions] (lines 19-70). *)
Definition process (d : decision) : M unit :=
  bind (fun w => write (Db.UpdateCandidate (id d) (status d)
                                           (clock (List.length (log w)))) w)
  (fun _ =>
  bind (if equals (status d) "approved"
        then bind (perform plan (Db.SelectCandidate (id d))
                           (run_select_candidate (id d)))
                  (fun candidate =>
                     bind (write (approved_write d candidate))
                          (fun _ => ret tt))
        else ret tt)
  (fun _ =>
  bind (write (Db.InsertEvent (status_event d)))
  (fun _ => ret tt))).

Definition first_session (ds : list decision) : option string :=
  match ds with
  | d :: _ => sessionId d
  | [] => None
  end.

Definition applied_event (ds : list decision) : Db.event :=
  Db.mkEvent "ui" "taxonomy_applied" None (first_session ds)
             (Db.Applied (List.length ds)).

Definition requested_event (ds : list decision) : Db.event :=
  Db.mkEvent "ui" "chunk_tag_requested" None (first_session ds)
             Db.AutoTriggered.

(** The [try] block of the handler (lines 6-98). *)
Definition commit (decisions : list decision) : M response :=
  bind (perform plan Db.SelectConfig run_select_config)
  (fun config =>
  let autoChunkTag :=
    match config with
    | Some c => match Db.auto_chunk_tag_after_approval c with
                | Some b => b
                | None => false
                end
    | None => false
    end in
  bind (for_each process decisions)
  (fun _ =>
  bind (if (0 <? List.length decisions)%nat
        then bind (write (Db.InsertEvent (applied_event decisions)))
                  (fun _ => ret tt)
        else ret tt)
  (fun _ =>
  bind (if autoChunkTag && (0 <? List.length decisions)%nat
        then try_catch
               (bind (write (Db.InsertEvent (requested_event decisions)))
                     (fun _ => ret tt))
               (ret tt)
        else ret tt)
  (fun _ => ret Success)))).

(** [POST]: the [try] block, and the [catch] that answers 500. *)
Definition POST (decisions : list decision) : M response :=
  try_catch (commit decisions)
            (ret (Failed 500 "Failed to commit approvals")).

End Handler.

(** A world before the request. *)
Definition fresh (d : Db.db) : world := mkWorld d [].

(** The candidate row a decision names, if the store has it. *)
Definition candidate_of (d : decision) (s : Db.db) : option Db.topic_candidate :=
  match id d with
  | Some cid => Db.select_candidate cid (Db.topic_candidates s)
  | None => None
  end.

(** The candidate row as the handler reads it back after its update. *)
Definition read_back (clock : nat -> string) (d : decision) (w : world)
  : option Db.topic_candidate :=
  match id d with
  | Some c =>
      Db.select_candidate c
        (Db.update_candidate c (status d) (clock (List.length (log w)))
                             (Db.topic_candidates (store w)))
  | None => None
  end.

(** The writes to the taxonomy tables among the requests of a decision. *)
Definition taxonomy_writes (plan : nat -> fault) (clock : nat -> string)
           (d : decision) (w : world) : list Db.request :=
  filter Db.is_taxonomy_write (issued_by (process plan clock d) w).

(** The auto-trigger flag as the handler reads it (line 16). *)
Definition auto_flag (s : Db.db) : bool :=
  match Db.scoring_config s with
  | Some c => match Db.auto_chunk_tag_after_approval c with
              | Some b => b
              | None => false
              end
  | None => false
  end.

(** The event rows a run has added to the store. *)
Definition events_added (before after : Db.db) : nat :=
  List.length (Db.events after) - List.length (Db.events before).

End Commit.

(* ================================================================== *)
(** ** Taxonomy page: [load] ([(dashboard)/taxonomy/page.tsx]) *)
(* ================================================================== *)

Module Taxonomy.

Import Client.

(** [type Topic]: the row of [topics] spread, and the three lists. *)
Record Topic := mkTopic {
  row : Db.topic;
  aliases : list string;
  children : list string;
  parents : list string
}.

(** [(data ?? [])] *)
Definition or_empty {A} (data : option (list A)) : list A :=
  match data with Some l => l | None => [] end.

(** Lines 36-55: the graph built from the three query results. *)
Definition build (topicsData : option (list Db.topic))
           (aliasesData : option (list Db.topic_alias))
           (relationsData : option (list Db.topic_relation)) : list Topic :=
  map (fun topic =>
         mkTopic topic
           (map Db.alias
                (filter (fun a => String.eqb (Db.topic_id a) (Db.id topic))
                        (or_empty aliasesData)))
           (map Db.child_id
                (filter (fun r => String.eqb (Db.parent_id r) (Db.id topic))
                        (or_empty relationsData)))
           (map Db.parent_id
                (filter (fun r => String.eqb (Db.child_id r) (Db.id topic))
                        (or_empty relationsData))))
      (or_empty topicsData).

Section Load.

Variable plan : nat -> fault.

(** The collation of [order('label')]. *)
Variable label_le : string -> string -> bool.

Fixpoint insert_by_label (t : Db.topic) (l : list Db.topic) : list Db.topic :=
  match l with
  | [] => [t]
  | u :: l' => if label_le (Db.label t) (Db.label u) then t :: l
               else u :: insert_by_label t l'
  end.

Definition order_by_label (l : list Db.topic) : list Db.topic :=
  fold_right insert_by_label [] l.

Definition select_topics : M (option (list Db.topic)) :=
  perform plan Db.SelectTopics
          (fun d => Some (d, order_by_label (Db.topics d))).

Definition select_aliases : M (option (list Db.topic_alias)) :=
  perform plan Db.SelectAliases (fun d => Some (d, Db.topic_aliases d)).

Definition select_relations : M (option (list Db.topic_relation)) :=
  perform plan Db.SelectRelations (fun d => Some (d, Db.topic_relations d)).

(** [load]: the value of the [topics] state after the call, [prev]
    being its value before; a thrown request leaves it as it was. *)
Definition load (prev : list Topic) : M (list Topic) :=
  try_catch
    (bind select_topics (fun topicsData =>
     bind select_aliases (fun aliasesData =>
     bind select_relations (fun relationsData =>
     ret (build topicsData aliasesData relationsData)))))
    (ret prev).

End Load.

(** The graph of a store: what [load] computes when its reads succeed. *)
Definition graph_of (label_le : string -> string -> bool) (d : Db.db)
  : list Topic :=
  build (Some (order_by_label label_le (Db.topics d)))
        (Some (Db.topic_aliases d)) (Some (Db.topic_relations d)).

(** The lists of the topic with key [tid] in a graph. *)
Definition lists_of (tid : string) (g : list Topic)
  : list (list string * list string * list string) :=
  map (fun t => (aliases t, children t, parents t))
      (filter (fun t => String.eqb (Db.id (row t)) tid) g).

End Taxonomy.

(* ================================================================== *)
(** ** Environment probe: [GET /api/env] *)
(* ================================================================== *)

Module Env.

(** [process.env] *)
Definition environment := string -> option string.

(** The JSON body of the response. *)
Record body := mkBody {
  url : option string;      (* the value, or [null] *)
  anon : bool;
  service : bool
}.

Definition GET (env : environment) : body :=
  mkBody (env "NEXT_PUBLIC_SUPABASE_URL")
         (Js.truthy (env "NEXT_PUBLIC_SUPABASE_PUBLISHABLE_KEY"))
         (Js.truthy (env "SUPABASE_SECRET_KEY")).

(** The two secrets the probe reports on. *)
Definition secrets : list string :=
  ["NEXT_PUBLIC_SUPABASE_PUBLISHABLE_KEY"; "SUPABASE_SECRET_KEY"].

(** Two environments that an observer of presence alone cannot tell
    apart: the same public URL, and each secret set in both or in
    neither. *)
Definition same_presence (e1 e2 : environment) : Prop :=
  e1 "NEXT_PUBLIC_SUPABASE_URL" = e2 "NEXT_PUBLIC_SUPABASE_URL"
  /\ forall k, In k secrets -> Js.truthy (e1 k) = Js.truthy (e2 k).

End Env.

(* ================================================================== *)
(** ** A small store and a few decisions, for the worked examples *)
(* ================================================================== *)

Module Sample.

Definition pricing : Db.topic :=
  Db.mkTopic "pricing" "Pricing" None "active" (Some "seed").

Definition c1 : Db.topic_candidate :=
  Db.mkCandidate "c1" "s1" (Some "pricing-model") "Pricing Model"
                 "we went over the pricing model" "pending" None None.

Definition c2 : Db.topic_candidate :=
  Db.mkCandidate "c2" "s1" (Some "onboarding") "Onboarding"
                 "onboarding takes too long" "pending" None None.

(** One topic, one alias of it, two pending candidates; the auto-trigger
    flag as given. *)
Definition store (auto : bool) : Db.db :=
  Db.mkDb [pricing] [Db.mkAlias "pricing model" "pricing"] []
          [c1; c2] [] (Some (Db.mkConfig (Some auto))).

Definition clock : nat -> string := fun _ => "2025-06-01T08:00:00.000Z".

(** Approve [c1] as an alias of the topic [pricing]. *)
Definition alias_c1 : Commit.decision :=
  Commit.mkDecision (Some "c1") (Some "approved") (Some "alias")
                    (Some "pricing") (Some "s1").

(** Approve [c2] as a topic of its own. *)
Definition approve_c2 : Commit.decision :=
  Commit.mkDecision (Some "c2") (Some "approved") None None (Some "s1").

(** Approve [c2] as a subtopic, with no target given. *)
Definition subtopic_c2 : Commit.decision :=
  Commit.mkDecision (Some "c2") (Some "approved") (Some "subtopic")
                    None (Some "s1").

Definition reject_c1 : Commit.decision :=
  Commit.mkDecision (Some "c1") (Some "rejected") None None (Some "s1").

(** The run in which the request number [k] throws. *)
Definition throws_at (k : nat) : nat -> Client.fault :=
  fun i => if Nat.eqb i k then Client.Throws else Client.NoFault.

End Sample.

(* ================================================================== *)
(** ** Foreign keys, and what the approval handler leaves alone *)
(* ================================================================== *)

Module Integrity.

(** [topic_relations.parent_id] and [child_id] reference [topics(id)]. *)
Definition edges_closed (d : Db.db) : Prop :=
  forall r, In r (Db.topic_relations d) ->
            Db.has_topic (Db.parent_id r) (Db.topics d) = true
            /\ Db.has_topic (Db.child_id r) (Db.topics d) = true.

(** [topic_aliases.topic_id] references [topics(id)]. *)
Definition aliases_closed (d : Db.db) : Prop :=
  forall a, In a (Db.topic_aliases d) ->
            Db.has_topic (Db.topic_id a) (Db.topics d) = true.

Definition referential (d : Db.db) : Prop := edges_closed d /\ aliases_closed d.

(** [alias text unique]: the column constraint of the first migration. *)
Definition alias_text_unique (d : Db.db) : Prop :=
  NoDup (map Db.alias (Db.topic_aliases d)).

(** The columns of a candidate row that no request of the handler sets. *)
Definition frame (c : Db.topic_candidate)
  : string * string * option string * string * string :=
  (Db.candidate_id c, Db.cand_session_id c, Db.topic_id_suggested c,
   Db.cand_label c, Db.evidence c).

(** The store [d] has the candidates of [d0], up to the decision columns. *)
Definition same_candidates (d0 d : Db.db) : Prop :=
  map frame (Db.topic_candidates d) = map frame (Db.topic_candidates d0).

(** The event log of [d] extends that of [d0]. *)
Definition log_extends (d0 d : Db.db) : Prop :=
  exists added, Db.events d = (Db.events d0 ++ added)%list.

(** The three taxonomy tables of [d] are those of [d0]. *)
Definition same_taxonomy (d0 d : Db.db) : Prop :=
  Db.topics d = Db.topics d0
  /\ Db.topic_aliases d = Db.topic_aliases d0
  /\ Db.topic_relations d = Db.topic_relations d0.

(** The row of [topics] with key [tid]. *)
Definition find_topic (tid : string) (ts : list Db.topic) : option Db.topic :=
  find (fun t => String.eqb (Db.id t) tid) ts.

End Integrity.

(* ================================================================== *)
(** ** Taxonomy page: the search box
       ([(dashboard)/taxonomy/page.tsx], lines 67-70) *)
(* ================================================================== *)

Module TaxonomyView.

(** The predicate of [topics.filter]. *)
Definition shown (searchTerm : string) (t : Taxonomy.Topic) : bool :=
  Js.includes (Js.toLowerCase (Db.label (Taxonomy.row t)))
              (Js.toLowerCase searchTerm)
  || existsb (fun alias => Js.includes (Js.toLowerCase alias)
                                       (Js.toLowerCase searchTerm))
             (Taxonomy.aliases t).

Definition filteredTopics (topics : list Taxonomy.Topic) (searchTerm : string)
  : list Taxonomy.Topic :=
  filter (shown searchTerm) topics.

End TaxonomyView.

(* ================================================================== *)
(** ** The shape of the fallback chunks *)
(* ================================================================== *)

Module FallbackShape.

(** What a chunk of the window loop started at index [i] looks like: it
    belongs to a window at an index [j] reached from [i] in steps of two. *)
Definition window_shape (sid : string) (i : nat) (c : Ingest.chunk) : Prop :=
  Ingest.chunk_session_id c = sid
  /\ (20 < Js.length (Ingest.chunk_text c))%nat
  /\ exists j, (i <= j)%nat /\ Nat.even (j - i) = true
               /\ Ingest.start_sec c = (10 * Z.of_nat j)%Z
               /\ Ingest.end_sec c = Some (10 * Z.of_nat j + 20)%Z.

End FallbackShape.

(* ================================================================== *)
(** ** CSV batch ingestion: from the upload to the sessions
       ([api/ingest/batch/route.ts], lines 13-112) *)
(* ================================================================== *)

Module Csv.

(** The uploaded [File]: its name and its text. *)
Record file := mkFile {
  name : string;
  text : string
}.

(** The answers with status 400. *)
Inductive rejection :=
| NoFile                                   (* "No file provided" *)
| NotCsv                                   (* "File must be a CSV" *)
| TooShort                                 (* "CSV must have at least a header and one data row" *)
| MissingColumns (missing : list string)   (* "Missing required columns: ..." *)
| NoValidSessions.                         (* "No valid sessions found in CSV" *)

Record session := mkSession {
  title : string;
  content : string;
  startedAt : string
}.

(** [s.endsWith(suffix)] *)
Definition endsWith (s suffix : string) : bool :=
  String.eqb (Batch.drop (Js.length s - Js.length suffix) s) suffix.

(** [csvText.split('\n').filter(line => line.trim())] *)
Definition lines_of (csvText : string) : list string :=
  filter (fun line => negb (String.eqb (Js.trim line) ""))
         (Js.split_char "010" csvText "").

(** [line.split(',').map(v => v.trim())] *)
Definition values_of (line : string) : list string :=
  map Js.trim (Js.split_char "," line "").

(** [lines[0].split(',').map(h => h.trim().toLowerCase())] *)
Definition headers_of (line : string) : list string :=
  map (fun h => Js.toLowerCase (Js.trim h)) (Js.split_char "," line "").

Definition requiredColumns : list string := ["title"; "content"].

(** [arr.includes(x)] *)
Definition array_includes (x : string) (arr : list string) : bool :=
  existsb (String.eqb x) arr.

(** [arr.indexOf(x)], counted from [from]. *)
Fixpoint indexOf_from (from : Z) (x : string) (arr : list string) : Z :=
  match arr with
  | [] => (-1)%Z
  | y :: arr' => if String.eqb y x then from
                 else indexOf_from (from + 1)%Z x arr'
  end.

Definition indexOf (x : string) (arr : list string) : Z := indexOf_from 0 x arr.

(** The decimal numeral of [i], as a template literal prints it. *)
Definition numeral (i : nat) : string := NilEmpty.string_of_uint (Nat.to_uint i).

Section Rows.

Variable engine_parse : string -> option Z.
Variable now : string.
Variables titleIndex contentIndex dateIndex : Z.

(** The body of the loop over the data rows (lines 49-107) for the line
    number [i]: the session pushed, if any. *)
Definition row (i : nat) (line : string) : list session :=
  let values := values_of line in
  if (Z.max titleIndex contentIndex + 1 <=? Z.of_nat (List.length values))%Z
  then
    let title := Js.or_else (Batch.cell values titleIndex)
                            ("Session " ++ numeral i) in
    let content := Js.or_else (Batch.cell values contentIndex) "" in
    if negb (String.eqb (Js.trim content) "")
    then [mkSession title content
                    (Batch.startedAt
                       (Batch.row_startedAt engine_parse now dateIndex values))]
    else []
  else [].

(** [for (let i = 1; i < lines.length; i++)], [rest] being [lines.slice(i)]. *)
Fixpoint rows (i : nat) (rest : list string) : list session :=
  match rest with
  | [] => []
  | line :: rest' => (row i line ++ rows (S i) rest')%list
  end.

End Rows.

(** Lines 13-112: the sessions of an upload, or the rejection. *)
Definition sessions_of (engine_parse : string -> option Z) (now : string)
           (upload : option file) : rejection + list session :=
  match upload with
  | None => inl NoFile
  | Some f =>
      if negb (endsWith (name f) ".csv") then inl NotCsv
      else
        match lines_of (text f) with
        | [] | [_] => inl TooShort
        | header :: data =>
            let headers := headers_of header in
            let missingColumns :=
              filter (fun col => negb (array_includes col headers))
                     requiredColumns in
            if (0 <? List.length missingColumns)%nat
            then inl (MissingColumns missingColumns)
            else
              let sessions :=
                rows engine_parse now (indexOf "title" headers)
                     (indexOf "content" headers) (indexOf "date" headers)
                     1 data in
              if Nat.eqb (List.length sessions) 0 then inl NoValidSessions
              else inr sessions
        end
  end.

End Csv.

(* ================================================================== *)
(** ** Topic id hygiene: [slugify] and the trigger on [topic_candidates]
       (the quick-wins migration, sections 7 and 8) *)
(* ================================================================== *)

Module Sql.

Definition is_alnum (c : ascii) : bool :=
  let n := nat_of_ascii c in
  (((48 <=? n) && (n <=? 57)) || ((65 <=? n) && (n <=? 90))
   || ((97 <=? n) && (n <=? 122)))%nat.

(** [\s] of the regular expressions, that is [[[:space:]]]: over the code
    units of the model, the white space of the C locale. *)
Definition is_space (c : ascii) : bool :=
  let n := nat_of_ascii c in
  (((9 <=? n) && (n <=? 13)) || (n =? 32))%nat.

Definition is_hyphen (c : ascii) : bool := Ascii.eqb c "-".

(** [regexp_replace(s, '[^a-zA-Z0-9\s-]', '', 'g')] *)
Fixpoint strip (s : string) : string :=
  match s with
  | EmptyString => EmptyString
  | String c s' =>
      if is_alnum c || is_space c || is_hyphen c then String c (strip s')
      else strip s'
  end.

(** [regexp_replace(s, '\s+', '-', 'g')]; [in_run] tells that the previous
    character was white space. *)
Fixpoint squeeze (s : string) (in_run : bool) : string :=
  match s with
  | EmptyString => EmptyString
  | String c s' =>
      if is_space c
      then if in_run then squeeze s' true else String "-" (squeeze s' true)
      else String c (squeeze s' false)
  end.

(** [slugify(text)] *)
Definition slugify (s : string) : string :=
  Db.lower (squeeze (strip s) false).

(** [auto_slugify_topic()], run before each insert on [topic_candidates]. *)
Definition auto_slugify_topic (new : Db.topic_candidate) : Db.topic_candidate :=
  match Db.topic_id_suggested new with
  | Some (String _ _) => new
  | _ =>
      Db.mkCandidate (Db.candidate_id new) (Db.cand_session_id new)
                     (Some (slugify (Db.cand_label new))) (Db.cand_label new)
                     (Db.evidence new) (Db.cand_status new)
                     (Db.approver_id new) (Db.decided_at new)
  end.

(** The characters of a slug: [a-z], [0-9] and the hyphen. *)
Definition slug_char (c : ascii) : bool :=
  let n := nat_of_ascii c in
  (((48 <=? n) && (n <=? 57)) || ((97 <=? n) && (n <=? 122)) || (n =? 45))%nat.

Fixpoint all_chars (p : ascii -> bool) (s : string) : bool :=
  match s with
  | EmptyString => true
  | String c s' => p c && all_chars p s'
  end.

End Sql.

(* ================================================================== *)
(** ** Date cells as they are written *)
(* ================================================================== *)

Module DateText.

(** [YYYY-MM-DD] *)
Definition iso_date (y m d : Z) : string :=
  JsDate.pad_num 4 y ++ "-" ++ JsDate.pad_num 2 m ++ "-" ++ JsDate.pad_num 2 d.

(** [M/D/YYYY], the month written with [mw] digits and the day with [dw]. *)
Definition slash_date (mw dw : nat) (a b y : Z) : string :=
  JsDate.pad_num mw a ++ "/" ++ JsDate.pad_num dw b ++ "/" ++ JsDate.pad_num 4 y.

(** A day of the proleptic Gregorian calendar with a four-digit year. *)
Definition valid_day (y m d : Z) : Prop :=
  (0 <= y <= 9999 /\ 1 <= m <= 12 /\ 1 <= d <= JsDate.days_in_month y m)%Z.

(** A character of a date cell: a digit, a hyphen or a slash. *)
Definition date_char (c : ascii) : bool :=
  JsDate.is_digit c || Ascii.eqb c "-" || Ascii.eqb c "/".

(** [HH:mm:ss] *)
Definition clock_text (h mi s : Z) : string :=
  JsDate.pad_num 2 h ++ ":" ++ JsDate.pad_num 2 mi ++ ":" ++ JsDate.pad_num 2 s.

(** [YYYY-MM-DDTHH:mm:ssZ] *)
Definition iso_instant (y m d h mi s : Z) : string :=
  iso_date y m d ++ "T" ++ clock_text h mi s ++ "Z".

(** [YYYY-MM-DDTHH:mm:ss.000Z], the form [toISOString] prints. *)
Definition iso_canonical (y m d h mi s : Z) : string :=
  iso_date y m d ++ "T" ++ clock_text h mi s ++ ".000Z".

(** A character of a date-time cell. *)
Definition instant_char (c : ascii) : bool :=
  date_char c || Ascii.eqb c ":" || Ascii.eqb c "T" || Ascii.eqb c "Z".

(** A time of day to the second. *)
Definition valid_clock (h mi s : Z) : Prop :=
  (0 <= h <= 23 /\ 0 <= mi <= 59 /\ 0 <= s <= 59)%Z.

(** The integers [a], [a+1], ..., [a+n-1]. *)
Definition zrange (a : Z) (n : nat) : list Z :=
  map (fun i => (a + Z.of_nat i)%Z) (seq 0 n).

(** Over the 400 years of one cycle of the calendar: the day number of
    each day gives the day back. *)
Definition cycle_day_ok (y m d : Z) : bool :=
  if (d <=? JsDate.days_in_month y m)%Z
  then match JsDate.civil_from_days (JsDate.days_from_civil y m d) with
       | (y', m', d') => (y' =? y)%Z && (m' =? m)%Z && (d' =? d)%Z
       end
  else true.

End DateText.

(* ================================================================== *)
(** ** Ingestion: the chunk rows built from the pipeline output
       ([api/ingest/route.ts], lines 140-161; the same code in
        [api/ingest/batch/route.ts], lines 214-235) *)
(* ================================================================== *)

Module Pipeline.

(** An element of [chunks.json], as far as the handler reads it. *)
Record chunk := mkChunk {
  start_time : option string;
  speaker : option string;
  text : option string;
  content : option string
}.




(** [chunk.text || chunk.content || ''] *)
Definition body (c : chunk) : string :=
  Js.or_else (text c) (Js.or_else (content c) "").



End Pipeline.

(* ================================================================== *)
(** ** Reads that fail without throwing *)
(* ================================================================== *)

Module Faults.

(** The run in which the request number [k] resolves with an error. *)
Definition rejects_at (k : nat) : nat -> Client.fault :=
  fun i => if Nat.eqb i k then Client.Rejects else Client.NoFault.

(** The [data] field of a resolved read: the rows, or [null] when the
    read failed. *)
Definition resolved {A} (f : Client.fault) (rows : A) : option A :=
  match f with
  | Client.NoFault => Some rows
  | _ => None
  end.

End Faults.

(* ================================================================== *)
(** ** Candidate approval: the request body as it arrives
       ([api/approvals/commit/route.ts], lines 4-103) *)
(* ================================================================== *)

Module Request.

Import Client.

(** An element of [decisions]: [null], whose destructuring (line 19)
    throws, or a value with the five fields read from it, each a string
    or absent. *)
Inductive element :=
| Null
| Object (d : Commit.decision).

(** The body of the request.  [Unparsable]: [request.json()] rejects, or
    its value is [null] and the destructuring of line 6 throws.
    [NotIterable]: the value has no [decisions], or one that [for ... of]
    cannot iterate.  A string is iterated like an array of elements
    without fields. *)
Inductive body :=
| Unparsable
| NotIterable
| Decisions (elements : list element).

Definition throw {A} : M A := fun w => (Thrown, w).

Definition is_object (e : element) : bool :=
  match e with Object _ => true | Null => false end.

(** A body the loop gets through: an array with no [null] in it. *)
Definition well_formed (b : body) : bool :=
  match b with
  | Decisions elements => forallb is_object elements
  | _ => false
  end.

(** [decisions[0].sessionId], read after the loop. *)
Definition first_session (elements : list element) : option string :=
  match elements with
  | Object d :: _ => Commit.sessionId d
  | _ => None
  end.

Definition applied_event (elements : list element) : Db.event :=
  Db.mkEvent "ui" "taxonomy_applied" None (first_session elements)
             (Db.Applied (List.length elements)).

Definition requested_event (elements : list element) : Db.event :=
  Db.mkEvent "ui" "chunk_tag_requested" None (first_session elements)
             Db.AutoTriggered.

Section Handler.

Variable plan : nat -> fault.
Variable clock : nat -> string.

(** The loop of lines 18-71. *)
Fixpoint each (elements : list element) : M unit :=
  match elements with
  | [] => ret tt
  | Null :: _ => throw
  | Object d :: rest =>
      bind (Commit.process plan clock d) (fun _ => each rest)
  end.

(** The [try] block (lines 6-98). *)
Definition commit (b : body) : M Commit.response :=
  match b with
  | Unparsable => throw
  | NotIterable =>
      bind (perform plan Db.SelectConfig run_select_config)
           (fun _ => throw)
  | Decisions decisions =>
      bind (perform plan Db.SelectConfig run_select_config)
      (fun config =>
      let autoChunkTag :=
        match config with
        | Some c => match Db.auto_chunk_tag_after_approval c with
                    | Some b => b
                    | None => false
                    end
        | None => false
        end in
      bind (each decisions)
      (fun _ =>
      bind (if (0 <? List.length decisions)%nat
            then bind (Commit.write plan (Db.InsertEvent (applied_event decisions)))
                      (fun _ => ret tt)
            else ret tt)
      (fun _ =>
      bind (if autoChunkTag && (0 <? List.length decisions)%nat
            then try_catch
                   (bind (Commit.write plan
                            (Db.InsertEvent (requested_event decisions)))
                         (fun _ => ret tt))
                   (ret tt)
            else ret tt)
      (fun _ => ret Commit.Success))))
  end.

(** [POST]: the [try] block, and the [catch] that answers 500. *)
Definition POST (b : body) : M Commit.response :=
  try_catch (commit b)
            (ret (Commit.Failed 500 "Failed to commit approvals")).

End Handler.

End Request.

(* ================================================================== *)
(** * Properties *)
(* ================================================================== *)

(** ** Keyword fallback of the single-session ingestion *)

Section IngestFacts.

Import Ingest.

Lemma includes_feature_group (text : string) :
  Js.includes text "feature" = true -> group_product text = true.
Proof.
  unfold group_product. intros ->. now rewrite !orb_true_r.
Qed.

Lemma includes_timeline_group (text : string) :
  Js.includes text "timeline" = true -> group_planning text = true.
Proof.
  unfold group_planning. now intros ->.
Qed.

Lemma matched_none (sid raw : string) :
  let text := Js.toLowerCase raw in
  matched sid raw = [] <->
  group_product text = false /\ group_user text = false
  /\ group_planning text = false.
Proof.
  unfold matched.
  destruct (group_product _), (group_user _), (group_planning _);
    simpl; split; intros H; try discriminate; auto;
    destruct H as (? & ? & ?); discriminate.
Qed.

End IngestFacts.

(** C6, as stated, fails: a text with "feature", "timeline" and
    "feedback" has no "user" in it, and still gets the "User Feedback"
    candidate, the second keyword group being user / feedback / customer. *)
Lemma fallback_candidates_feedback_counterexample :
  ~ (forall sid raw : string,
        let text := Js.toLowerCase raw in
        Js.includes text "feature" = true ->
        Js.includes text "timeline" = true ->
        Js.includes text "user" = false ->
        Ingest.labels (Ingest.basicCandidates sid raw)
        = ["Product Development"; "Planning & Timeline"]).
Proof.
  intros H.
  specialize (H "s1" "feature timeline feedback" eq_refl eq_refl eq_refl).
  vm_compute in H. discriminate H.
Qed.

(** C6, amended: a text whose lower-casing contains "feature" and
    "timeline" and none of "user", "feedback", "customer" gets exactly the
    candidates "Product Development" and "Planning & Timeline", in that
    order; in general the candidates are one per matched keyword group, in
    the order product, user, planning, and the single "General Discussion"
    candidate when no group matches. *)
Theorem fallback_candidates_by_group (sid raw : string) :
  let text := Js.toLowerCase raw in
  (Js.includes text "feature" = true ->
   Js.includes text "timeline" = true ->
   Ingest.group_user text = false ->
   Ingest.basicCandidates sid raw
   = [Ingest.cand_product sid raw; Ingest.cand_planning sid raw]
   /\ Ingest.labels (Ingest.basicCandidates sid raw)
      = ["Product Development"; "Planning & Timeline"]
   /\ ~ In "User Feedback" (Ingest.labels (Ingest.basicCandidates sid raw)))
  /\ Ingest.labels (Ingest.basicCandidates sid raw)
     = (if Ingest.group_product text || Ingest.group_user text
           || Ingest.group_planning text
        then ((if Ingest.group_product text then ["Product Development"] else [])
              ++ (if Ingest.group_user text then ["User Feedback"] else [])
              ++ (if Ingest.group_planning text then ["Planning & Timeline"] else []))%list
        else ["General Discussion"]).
Proof.
  intros text. split.
  - intros Hf Ht Hu.
    apply includes_feature_group in Hf. apply includes_timeline_group in Ht.
    unfold Ingest.basicCandidates, Ingest.matched. fold text.
    rewrite Hf, Hu, Ht. simpl. repeat split.
    intros [E | [E | []]]; discriminate E.
  - unfold Ingest.basicCandidates, Ingest.matched. fold text.
    destruct (Ingest.group_product text), (Ingest.group_user text),
      (Ingest.group_planning text); reflexivity.
Qed.

Lemma fallback_candidates_by_group_witness :
  Ingest.labels (Ingest.basicCandidates "s1" "New FEATURE, tight timeline")
  = ["Product Development"; "Planning & Timeline"].
Proof.
  apply (proj1 (fallback_candidates_by_group "s1" "New FEATURE, tight timeline"));
    reflexivity.
Defined.

(** C10: on the fallback path the chunk rows and the candidate rows handed
    to the two inserts are never empty, whatever the text; every candidate
    is pending; when the sentence windows give no chunk the rows are the
    one chunk with the first 2000 characters of the raw text, and when no
    keyword group matches the rows are the one "General Discussion"
    candidate. *)
Theorem fallback_rows_never_empty (sid raw : string) :
  Ingest.basicChunks sid raw <> []
  /\ Ingest.basicCandidates sid raw <> []
  /\ Forall (fun c => Ingest.status c = "pending") (Ingest.basicCandidates sid raw)
  /\ (Ingest.window_loop sid 0 (Ingest.sentences_of raw) = [] ->
      Ingest.basicChunks sid raw
      = [Ingest.mkChunk sid (Js.take 2000 raw) 0%Z None])
  /\ (Ingest.matched sid raw = [] ->
      Ingest.basicCandidates sid raw = [Ingest.cand_general sid raw]
      /\ Ingest.labels (Ingest.basicCandidates sid raw) = ["General Discussion"]).
Proof.
  unfold Ingest.basicChunks, Ingest.basicCandidates.
  repeat split.
  - destruct (Ingest.window_loop sid 0 (Ingest.sentences_of raw)); simpl; discriminate.
  - destruct (Ingest.matched sid raw); simpl; discriminate.
  - unfold Ingest.matched.
    destruct (Ingest.group_product _), (Ingest.group_user _),
      (Ingest.group_planning _); simpl; repeat constructor.
  - intros ->. reflexivity.
  - rewrite H. reflexivity.
  - rewrite H. reflexivity.
Qed.

Lemma fallback_rows_never_empty_witness :
  Ingest.basicChunks "s1" "" = [Ingest.mkChunk "s1" "" 0%Z None]
  /\ Ingest.labels (Ingest.basicCandidates "s1" "") = ["General Discussion"].
Proof.
  destruct (fallback_rows_never_empty "s1" "") as (_ & _ & _ & Hc & Hk).
  split.
  - apply Hc. reflexivity.
  - apply Hk. reflexivity.
Defined.

(** ** The date column of the CSV batch ingestion *)

Section BatchFacts.

Variable engine_parse : string -> option Z.
Variable now : string.

Lemma cell_index (values : list string) (dateIndex : Z) (v : string) :
  Batch.cell values dateIndex = Some v -> (0 <=? dateIndex)%Z = true.
Proof.
  unfold Batch.cell. destruct (dateIndex <? 0)%Z eqn:E; [discriminate|].
  intros _. apply Z.leb_le. apply Z.ltb_ge in E. exact E.
Qed.

(** A row whose date cell holds [v] is handled by [parse_date_value v],
    unless [v] is empty. *)
Lemma row_of_cell (values : list string) (dateIndex : Z) (v : string) :
  Batch.cell values dateIndex = Some v ->
  Batch.row_startedAt engine_parse now dateIndex values
  = if String.eqb v "" then Batch.mkParsed now None None None
    else Batch.parse_date_value engine_parse now v.
Proof.
  intros H. unfold Batch.row_startedAt.
  rewrite (cell_index _ _ _ H), H. simpl.
  destruct (String.eqb v ""); reflexivity.
Qed.

Lemma includes_nonempty (v sub : string) :
  sub <> "" -> Js.includes v sub = true -> String.eqb v "" = false.
Proof.
  intros Hs. destruct v; [|reflexivity].
  destruct sub; [congruence|]. simpl. discriminate.
Qed.

Lemma guarded_value (v : string) :
  Js.includes v "<" = true \/ (50 < Js.length v)%nat ->
  Batch.parse_date_value engine_parse now v
  = Batch.mkParsed now None None (Some Batch.LooksLikeContent).
Proof.
  intros H. unfold Batch.parse_date_value.
  destruct H as [H | H].
  - rewrite H, orb_true_r. reflexivity.
  - apply Nat.ltb_lt in H. rewrite H. reflexivity.
Qed.

(** No value reaches the branch written for the day-first format: its
    test is the test of the month-first branch before it. *)
Lemma never_day_first (v : string) : fst (Batch.date_argument v) <> Batch.BrUK.
Proof.
  unfold Batch.date_argument.
  destruct (Js.includes v "T" || Js.includes v "Z"); [discriminate|].
  destruct (Batch.matches Batch.re_date_only v); [discriminate|].
  destruct (Batch.matches Batch.re_slashes v).
  - destruct (Js.split_char "/" v "") as [|a [|b [|c l]]]; discriminate.
  - discriminate.
Qed.

End BatchFacts.

(** C4: a row whose date cell is "2024-01-15T10:30:00Z" starts at that
    instant; "2024-01-15" gives midnight UTC of that day; "01/15/2024"
    gives 15 January 2024 (midnight UTC); and a cell containing "<" or
    longer than 50 characters is not parsed: no branch of the cascade runs
    and the start time is the current time. *)
Theorem csv_date_examples (engine_parse : string -> option Z) (now : string)
        (dateIndex : Z) (values : list string) (v : string) :
  Batch.cell values dateIndex = Some v ->
  let r := Batch.row_startedAt engine_parse now dateIndex values in
  (v = "2024-01-15T10:30:00Z" ->
   Batch.time_value r = Some (JsDate.make_date 2024 1 15 10 30 0 0)
   /\ Batch.startedAt r = "2024-01-15T10:30:00.000Z")
  /\ (v = "2024-01-15" ->
      Batch.time_value r = Some (JsDate.make_date 2024 1 15 0 0 0 0)
      /\ Batch.startedAt r = "2024-01-15T00:00:00.000Z")
  /\ (v = "01/15/2024" ->
      Batch.time_value r = Some (JsDate.make_date 2024 1 15 0 0 0 0)
      /\ Batch.startedAt r = "2024-01-15T00:00:00.000Z")
  /\ (Js.includes v "<" = true \/ (50 < Js.length v)%nat ->
      Batch.took r = None /\ Batch.time_value r = None
      /\ Batch.startedAt r = now).
Proof.
  intros H r. subst r. rewrite (row_of_cell engine_parse now _ _ _ H).
  repeat split; try (subst v; vm_compute; reflexivity).
  - destruct H0 as [Hi | Hl].
    + rewrite (includes_nonempty v "<" ltac:(discriminate) Hi).
      rewrite guarded_value by now left. reflexivity.
    + destruct v; [simpl in Hl; lia|]. simpl String.eqb.
      rewrite guarded_value by now right. reflexivity.
  - destruct (String.eqb v ""); [reflexivity|].
    rewrite guarded_value by assumption. reflexivity.
  - destruct (String.eqb v ""); [reflexivity|].
    rewrite guarded_value by assumption. reflexivity.
Qed.

Lemma csv_date_examples_witness :
  Batch.startedAt
    (Batch.row_startedAt (fun _ => None) "2025-06-01T08:00:00.000Z" 2
                         ["Weekly sync"; "Roadmap review"; "01/15/2024"])
  = "2024-01-15T00:00:00.000Z"
  /\ Batch.startedAt
       (Batch.row_startedAt (fun _ => None) "2025-06-01T08:00:00.000Z" 2
                            ["Weekly sync"; "Roadmap review"; "<b>2024</b>"])
     = "2025-06-01T08:00:00.000Z".
Proof.
  split.
  - apply (csv_date_examples (fun _ => None) "2025-06-01T08:00:00.000Z" 2
             ["Weekly sync"; "Roadmap review"; "01/15/2024"] "01/15/2024");
      reflexivity.
  - apply (csv_date_examples (fun _ => None) "2025-06-01T08:00:00.000Z" 2
             ["Weekly sync"; "Roadmap review"; "<b>2024</b>"] "<b>2024</b>");
      [reflexivity | left; reflexivity].
Defined.

(** C5 (the code at the input of the claim): "15/01/2024" is taken by the
    month-first branch, which asks for month 15 of 2024; that is no date,
    so the row starts at the current time with the invalid-format warning.
    The day-first branch is reached by no value at all. *)
Theorem day_first_date_not_parsed (engine_parse : string -> option Z) (now : string) :
  Batch.date_argument "15/01/2024" = (Batch.BrUS, "2024-15-01T00:00:00Z")
  /\ Batch.row_startedAt engine_parse now 2 ["Weekly sync"; "Roadmap review"; "15/01/2024"]
     = Batch.mkParsed now (Some Batch.BrUS) None (Some Batch.InvalidDateFormat)
  /\ forall v, fst (Batch.date_argument v) <> Batch.BrUK.
Proof.
  split; [reflexivity|]. split; [vm_compute; reflexivity|].
  apply never_day_first.
Qed.

(** ** The environment probe *)

(** C9: the probe answers, for each of the two keys, the boolean telling
    whether it is set (to a non-empty value), and nothing else of the
    environment but the public project URL: two environments with the same
    URL and the same keys present get the same response, whatever the
    values of the keys and of every other variable. *)
Theorem probe_shows_presence_only (e1 e2 : Env.environment) :
  Env.same_presence e1 e2 ->
  Env.GET e1 = Env.GET e2
  /\ Env.anon (Env.GET e1) = Js.truthy (e1 "NEXT_PUBLIC_SUPABASE_PUBLISHABLE_KEY")
  /\ Env.service (Env.GET e1) = Js.truthy (e1 "SUPABASE_SECRET_KEY").
Proof.
  intros [Hu Hs]. unfold Env.GET. rewrite Hu.
  rewrite (Hs "NEXT_PUBLIC_SUPABASE_PUBLISHABLE_KEY") by (simpl; auto).
  rewrite (Hs "SUPABASE_SECRET_KEY") by (simpl; auto).
  simpl. auto.
Qed.

Lemma probe_shows_presence_only_witness :
  let e1 : Env.environment := fun k =>
    if String.eqb k "NEXT_PUBLIC_SUPABASE_URL" then Some "https://a.supabase.co"
    else if String.eqb k "SUPABASE_SECRET_KEY" then Some "sb_secret_one"
    else if String.eqb k "OPENAI_API_KEY" then Some "sk-one"
    else None in
  let e2 : Env.environment := fun k =>
    if String.eqb k "NEXT_PUBLIC_SUPABASE_URL" then Some "https://a.supabase.co"
    else if String.eqb k "SUPABASE_SECRET_KEY" then Some "sb_secret_two"
    else None in
  Env.GET e1 = Env.GET e2.
Proof.
  intros e1 e2. apply (probe_shows_presence_only e1 e2).
  split; [reflexivity|].
  intros k [<- | [<- | []]]; reflexivity.
Defined.

(** ** The taxonomy graph *)

Section TaxonomyFacts.

Import Client.

Variable plan : nat -> fault.
Variable label_le : string -> string -> bool.

Lemma perform_read_store {A} (r : Db.request) (f : Db.db -> A) (w : world) :
  store (snd (perform plan r (fun d => Some (d, f d)) w)) = store w.
Proof.
  unfold perform. destruct (plan _); reflexivity.
Qed.

Lemma load_reads_only (prev : list Taxonomy.Topic) (w : world) :
  store (snd (Taxonomy.load plan label_le prev w)) = store w.
Proof.
  unfold Taxonomy.load, try_catch, bind, ret,
    Taxonomy.select_topics, Taxonomy.select_aliases,
    Taxonomy.select_relations, perform.
  destruct w as [d l]. simpl.
  destruct (plan (List.length l)); simpl; try reflexivity;
    destruct (plan (List.length (l ++ [Db.SelectTopics]))); simpl;
      try reflexivity;
      destruct (plan (List.length ((l ++ [Db.SelectTopics]) ++ [Db.SelectAliases])));
      reflexivity.
Qed.

End TaxonomyFacts.

Lemma load_no_fault (label_le : string -> string -> bool)
      (prev : list Taxonomy.Topic) (w : Client.world) :
  fst (Taxonomy.load Client.no_fault label_le prev w)
  = Client.Returned (Taxonomy.graph_of label_le (Client.store w)).
Proof.
  destruct w as [d l]. reflexivity.
Qed.

Lemma length_snoc {A} (l : list A) (x : A) :
  List.length (l ++ [x]) = S (List.length l).
Proof. rewrite length_app. simpl. lia. Qed.

(** [load] when none of its three reads throws: each read resolves with
    its rows, or with [null] when it failed, and [build] gets the three
    values. *)
Lemma load_resolved (plan : nat -> Client.fault)
      (label_le : string -> string -> bool)
      (prev : list Taxonomy.Topic) (w : Client.world) :
  plan (List.length (Client.log w)) <> Client.Throws ->
  plan (S (List.length (Client.log w))) <> Client.Throws ->
  plan (S (S (List.length (Client.log w)))) <> Client.Throws ->
  Taxonomy.load plan label_le prev w
  = (Client.Returned
       (Taxonomy.build
          (Faults.resolved (plan (List.length (Client.log w)))
             (Taxonomy.order_by_label label_le (Db.topics (Client.store w))))
          (Faults.resolved (plan (S (List.length (Client.log w))))
             (Db.topic_aliases (Client.store w)))
          (Faults.resolved (plan (S (S (List.length (Client.log w)))))
             (Db.topic_relations (Client.store w)))),
     Client.mkWorld (Client.store w)
       (Client.log w
        ++ [Db.SelectTopics; Db.SelectAliases; Db.SelectRelations])%list).
Proof.
  destruct w as [d l]. simpl. intros H0 H1 H2.
  unfold Taxonomy.load, Client.try_catch, Client.bind, Client.ret,
    Taxonomy.select_topics, Taxonomy.select_aliases,
    Taxonomy.select_relations, Client.perform.
  simpl.
  destruct (plan (List.length l)); [| |congruence];
    simpl; rewrite length_snoc;
    (destruct (plan (S (List.length l))); [| |congruence]);
    simpl; rewrite !length_snoc;
    (destruct (plan (S (S (List.length l)))); [| |congruence]);
    simpl; rewrite <- !app_assoc; reflexivity.
Qed.

(** [load] when one of its reads throws: the [catch] leaves the graph on
    display as it was. *)
Lemma load_thrown (plan : nat -> Client.fault)
      (label_le : string -> string -> bool)
      (prev : list Taxonomy.Topic) (w : Client.world) :
  plan (List.length (Client.log w)) = Client.Throws
  \/ plan (S (List.length (Client.log w))) = Client.Throws
  \/ plan (S (S (List.length (Client.log w)))) = Client.Throws ->
  fst (Taxonomy.load plan label_le prev w) = Client.Returned prev.
Proof.
  destruct w as [d l]. simpl. intros H.
  unfold Taxonomy.load, Client.try_catch, Client.bind, Client.ret,
    Taxonomy.select_topics, Taxonomy.select_aliases,
    Taxonomy.select_relations, Client.perform.
  simpl.
  destruct (plan (List.length l)); simpl; try reflexivity;
    rewrite length_snoc;
    (destruct (plan (S (List.length l))); simpl; try reflexivity);
    rewrite !length_snoc;
    (destruct (plan (S (S (List.length l)))); simpl; try reflexivity);
    destruct H as [H | [H | H]]; discriminate H.
Qed.

(** C8, as stated, fails: over tables that do not change, a second call
    whose read of the aliases resolves with an error shows the topic
    without the alias the first call listed. *)
Lemma taxonomy_load_failed_read_counterexample :
  ~ (forall (plan : nat -> Client.fault) (label_le : string -> string -> bool)
            (prev : list Taxonomy.Topic) (w : Client.world),
        let first := Taxonomy.load plan label_le prev w in
        let second := Taxonomy.load plan label_le prev (snd first) in
        Client.store (snd first) = Client.store w ->
        Client.store (snd second) = Client.store w ->
        forall tid g1 g2,
          fst first = Client.Returned g1 ->
          fst second = Client.Returned g2 ->
          Taxonomy.lists_of tid g1 = Taxonomy.lists_of tid g2).
Proof.
  intros H.
  specialize (H (Faults.rejects_at 4) String.leb []
                (Commit.fresh (Sample.store false))
                eq_refl eq_refl "pricing"
                [Taxonomy.mkTopic Sample.pricing ["pricing model"] [] []]
                [Taxonomy.mkTopic Sample.pricing [] [] []]
                eq_refl eq_refl).
  vm_compute in H. discriminate H.
Qed.

(** C8, amended: [load] is read-only: it leaves the store as it was,
    whatever happens to its requests.  A call whose three reads succeed
    returns the graph of the three tables: one node per topic row, with
    the aliases of the topic, the children of the relations where it is
    the parent and the parents of the relations where it is the child; so
    repeated calls over unchanged tables whose reads all succeed return
    identical lists for every topic.  A read that resolves with an error
    counts as an empty table, and a read that throws leaves the graph on
    display as it was. *)
Theorem taxonomy_load_reads
        (plan : nat -> Client.fault) (label_le : string -> string -> bool)
        (prev : list Taxonomy.Topic) (w : Client.world) :
  let k := List.length (Client.log w) in
  let d := Client.store w in
  let first := Taxonomy.load plan label_le prev w in
  Client.store (snd first) = d
  /\ (plan k = Client.NoFault -> plan (S k) = Client.NoFault ->
      plan (S (S k)) = Client.NoFault ->
      fst first = Client.Returned (Taxonomy.graph_of label_le d))
  /\ ((forall i, (i < 6)%nat -> plan (k + i)%nat = Client.NoFault) ->
      forall prev',
        let second := Taxonomy.load plan label_le prev' (snd first) in
        Client.store (snd second) = d
        /\ fst second = fst first
        /\ forall tid g1 g2,
            fst first = Client.Returned g1 ->
            fst second = Client.Returned g2 ->
            Taxonomy.lists_of tid g1 = Taxonomy.lists_of tid g2)
  /\ (plan k <> Client.Throws -> plan (S k) <> Client.Throws ->
      plan (S (S k)) <> Client.Throws ->
      fst first
      = Client.Returned
          (Taxonomy.build
             (Faults.resolved (plan k)
                (Taxonomy.order_by_label label_le (Db.topics d)))
             (Faults.resolved (plan (S k)) (Db.topic_aliases d))
             (Faults.resolved (plan (S (S k))) (Db.topic_relations d))))
  /\ (plan k = Client.Throws \/ plan (S k) = Client.Throws
      \/ plan (S (S k)) = Client.Throws ->
      fst first = Client.Returned prev)
  /\ map Taxonomy.row (Taxonomy.graph_of label_le d)
     = Taxonomy.order_by_label label_le (Db.topics d)
  /\ (forall t,
         In t (Taxonomy.graph_of label_le d) ->
         Taxonomy.aliases t
         = map Db.alias
               (filter (fun a => String.eqb (Db.topic_id a) (Db.id (Taxonomy.row t)))
                       (Db.topic_aliases d))
         /\ Taxonomy.children t
            = map Db.child_id
                  (filter (fun r => String.eqb (Db.parent_id r) (Db.id (Taxonomy.row t)))
                          (Db.topic_relations d))
         /\ Taxonomy.parents t
            = map Db.parent_id
                  (filter (fun r => String.eqb (Db.child_id r) (Db.id (Taxonomy.row t)))
                          (Db.topic_relations d))).
Proof.
  intros k d first.
  assert (Hgood : forall prev0 w0,
             plan (List.length (Client.log w0)) = Client.NoFault ->
             plan (S (List.length (Client.log w0))) = Client.NoFault ->
             plan (S (S (List.length (Client.log w0)))) = Client.NoFault ->
             Taxonomy.load plan label_le prev0 w0
             = (Client.Returned (Taxonomy.graph_of label_le (Client.store w0)),
                Client.mkWorld (Client.store w0)
                  (Client.log w0
                   ++ [Db.SelectTopics; Db.SelectAliases; Db.SelectRelations])%list)).
  { intros prev0 w0 H0 H1 H2.
    rewrite load_resolved by congruence. now rewrite H0, H1, H2. }
  split; [apply load_reads_only|].
  split; [intros H0 H1 H2; subst first; now rewrite Hgood|].
  split.
  { intros Hp prev' second. subst second first.
    pose proof (Hp 0%nat ltac:(lia)) as H0. rewrite Nat.add_0_r in H0.
    pose proof (Hp 1%nat ltac:(lia)) as H1. rewrite Nat.add_1_r in H1.
    pose proof (Hp 2%nat ltac:(lia)) as H2.
    replace (k + 2)%nat with (S (S k)) in H2 by lia.
    pose proof (Hp 3%nat ltac:(lia)) as H3.
    pose proof (Hp 4%nat ltac:(lia)) as H4.
    replace (k + 4)%nat with (S (k + 3)) in H4 by lia.
    pose proof (Hp 5%nat ltac:(lia)) as H5.
    replace (k + 5)%nat with (S (S (k + 3))) in H5 by lia.
    rewrite (Hgood prev w H0 H1 H2).
    assert (Hlen : List.length
                     (Client.log w
                      ++ [Db.SelectTopics; Db.SelectAliases; Db.SelectRelations])%list
                   = (k + 3)%nat).
    { rewrite length_app. reflexivity. }
    rewrite Hgood; simpl Client.log; rewrite ?Hlen; auto.
    simpl. split; [reflexivity|]. split; [reflexivity|].
    intros tid g1 g2 [= <-] [= <-]. reflexivity. }
  split.
  { intros H0 H1 H2. subst first. now rewrite load_resolved. }
  split; [apply load_thrown|].
  split.
  { unfold Taxonomy.graph_of, Taxonomy.build. simpl.
    rewrite map_map. simpl. apply map_id. }
  intros t. unfold Taxonomy.graph_of, Taxonomy.build. simpl.
  rewrite in_map_iff. intros (x & <- & _). simpl. auto.
Qed.

(** ** Case-insensitive uniqueness in the store *)

Section DbFacts.

Import Db.

Lemma NoDup_snoc {A} (l : list A) (x : A) :
  NoDup l -> ~ In x l -> NoDup (l ++ [x]).
Proof.
  induction l as [|a l IH]; simpl; intros Hn Hx.
  - constructor; [intros []|constructor].
  - inversion Hn; subst. constructor.
    + rewrite in_app_iff. simpl. intuition congruence.
    + apply IH; intuition.
Qed.

Lemma has_topic_false (tid : string) (ts : list topic) :
  has_topic tid ts = false -> ~ In tid (map id ts).
Proof.
  unfold has_topic. induction ts as [|t ts IH]; simpl; [tauto|].
  intros H. apply orb_false_iff in H as [H1 H2].
  apply String.eqb_neq in H1. intuition.
Qed.

(** A free label, ignoring case, differs from the label of every other row. *)
Lemma label_free (tid lbl : string) (ts : list topic) (t : topic) :
  label_taken tid lbl ts = false -> In t ts -> id t <> tid ->
  lower (label t) <> lower lbl.
Proof.
  unfold label_taken. intros H Hin Hid E.
  assert (X : existsb (fun t => negb (id t =? tid)%string
                                && (lower (label t) =? lower lbl)%string) ts = true).
  { apply existsb_exists. exists t. split; [exact Hin|].
    apply String.eqb_neq in Hid. rewrite Hid. simpl.
    now apply String.eqb_eq. }
  congruence.
Qed.

Lemma label_taken_true (tid lbl : string) (ts : list topic) (t : topic) :
  In t ts -> id t <> tid -> lower lbl = lower (label t) ->
  label_taken tid lbl ts = true.
Proof.
  intros Hin Hid E. destruct (label_taken tid lbl ts) eqn:X; [reflexivity|].
  exfalso. now apply (label_free _ _ _ _ X Hin Hid).
Qed.

Lemma put_id (tid lbl cby : string) (t : topic) : id (put tid lbl cby t) = id t.
Proof.
  unfold put. destruct (id t =? tid)%string eqn:E; [|reflexivity].
  apply String.eqb_eq in E. simpl. congruence.
Qed.

Lemma put_elsewhere (tid lbl cby : string) (ts : list topic) :
  ~ In tid (map id ts) -> map (put tid lbl cby) ts = ts.
Proof.
  induction ts as [|t ts IH]; simpl; [reflexivity|].
  intros H. unfold put at 1.
  destruct (id t =? tid)%string eqn:E.
  - apply String.eqb_eq in E. intuition.
  - f_equal. apply IH. intuition.
Qed.

Lemma put_labels (tid lbl cby : string) (ts : list topic) (x : string) :
  In x (map (fun t => lower (label t)) (map (put tid lbl cby) ts)) ->
  x = lower lbl \/ In x (map (fun t => lower (label t)) ts).
Proof.
  induction ts as [|t ts IH]; simpl; [tauto|].
  intros [H | H]; [|specialize (IH H); tauto].
  unfold put in H. destruct (id t =? tid)%string; simpl in H; auto.
Qed.

Lemma update_keeps_labels_unique (tid lbl cby : string) (ts : list topic) :
  NoDup (map id ts) ->
  NoDup (map (fun t => lower (label t)) ts) ->
  label_taken tid lbl ts = false ->
  NoDup (map (fun t => lower (label t)) (map (put tid lbl cby) ts)).
Proof.
  induction ts as [|t ts IH]; simpl; intros Hk Hl Hfree; [constructor|].
  inversion Hk as [|? ? Hk1 Hk2]; subst. inversion Hl as [|? ? Hl1 Hl2]; subst.
  assert (Hhead : id t <> tid -> lower (label t) <> lower lbl).
  { intros Hne. now apply (label_free tid lbl (t :: ts) t Hfree (or_introl eq_refl)). }
  assert (Hfree' : label_taken tid lbl ts = false).
  { unfold label_taken in *. simpl in Hfree.
    now apply orb_false_iff in Hfree as [_ ?]. }
  unfold put at 1. destruct (id t =? tid)%string eqn:E.
  - apply String.eqb_eq in E. subst tid. simpl.
    rewrite (put_elsewhere _ _ _ _ Hk1). constructor; [|exact Hl2].
    rewrite in_map_iff. intros (u & Hu & Hin).
    apply (label_free (id t) lbl ts u Hfree' Hin); [|exact Hu].
    intros Eu. apply Hk1. rewrite <- Eu. now apply in_map.
  - constructor; [|now apply IH].
    intros Hin. apply put_labels in Hin as [Hin | Hin]; [|tauto].
    apply String.eqb_neq in E. now apply Hhead.
Qed.

Lemma upsert_topic_consistent (tid lbl cby : string) (ts ts' : list topic) :
  NoDup (map id ts) ->
  NoDup (map (fun t => lower (label t)) ts) ->
  upsert_topic tid lbl cby ts = Some ts' ->
  NoDup (map id ts') /\ NoDup (map (fun t => lower (label t)) ts').
Proof.
  unfold upsert_topic. intros Hk Hl.
  destruct (label_taken tid lbl ts) eqn:Hfree; [discriminate|].
  destruct (has_topic tid ts) eqn:Hhas; intros [= <-].
  - split.
    + rewrite map_map.
      rewrite (map_ext _ id (put_id tid lbl cby)). exact Hk.
    + now apply update_keeps_labels_unique.
  - apply has_topic_false in Hhas. rewrite !map_app. simpl. split.
    + now apply NoDup_snoc.
    + apply NoDup_snoc; [exact Hl|].
      rewrite in_map_iff. intros (u & Hu & Hin).
      apply (label_free tid lbl ts u Hfree Hin); [|exact Hu].
      intros Eu. apply Hhas. rewrite <- Eu. now apply in_map.
Qed.

Lemma alias_nocase_free (tid a : string) (als : list topic_alias) :
  alias_taken_nocase tid a als = false ->
  ~ In (tid, lower a) (map (fun x => (topic_id x, lower (alias x))) als).
Proof.
  unfold alias_taken_nocase. intros H. rewrite in_map_iff.
  intros (x & Hx & Hin). injection Hx as H1 H2.
  assert (X : existsb (fun x => (topic_id x =? tid)%string
                                && (lower (alias x) =? lower a)%string) als = true).
  { apply existsb_exists. exists x. split; [exact Hin|].
    apply andb_true_iff. split; now apply String.eqb_eq. }
  congruence.
Qed.

Lemma upsert_alias_consistent (tid a : string) (ts : list topic)
      (als als' : list topic_alias) :
  NoDup (map (fun x => (topic_id x, lower (alias x))) als) ->
  upsert_alias tid a ts als = Some als' ->
  NoDup (map (fun x => (topic_id x, lower (alias x))) als').
Proof.
  unfold upsert_alias. intros Hn.
  destruct (negb (has_topic tid ts)); [discriminate|].
  destruct (alias_taken a als); [discriminate|]. simpl.
  destruct (alias_taken_nocase tid a als) eqn:H; [discriminate|].
  intros [= <-]. rewrite map_app. simpl.
  apply NoDup_snoc; [exact Hn|]. now apply alias_nocase_free.
Qed.

(** Every request the store accepts keeps it consistent. *)
Lemma run_write_consistent (r : request) (d d' : db) :
  consistent d -> Client.run_write r d = Some (d', tt) -> consistent d'.
Proof.
  unfold consistent, keys_unique, case_unique, labels_unique, aliases_unique.
  intros (Hk & Hl & Ha).
  destruct r; simpl; try (intros [= <-]; auto; fail).
  - destruct cid; [|discriminate]. intros [= <-]. simpl. auto.
  - destruct (upsert_alias tid a (topics d) (topic_aliases d)) eqn:E;
      [|discriminate].
    intros [= <-]. simpl. repeat split; auto.
    now apply (upsert_alias_consistent _ _ _ _ _ Ha E).
  - destruct (upsert_relation p c ty w (topics d) (topic_relations d));
      [|discriminate].
    intros [= <-]. simpl. auto.
  - destruct (upsert_topic tid lbl cby (topics d)) eqn:E; [|discriminate].
    intros [= <-]. simpl.
    destruct (upsert_topic_consistent _ _ _ _ _ Hk Hl E). auto.
Qed.

End DbFacts.

(** ** Computations that keep a property of the store *)

Section Preservation.

Import Client.

Variable P : Db.db -> Prop.

Lemma keeps_ret {A} (a : A) : keeps P (ret a).
Proof. intros w H. exact H. Qed.

Lemma keeps_bind {A B} (m : M A) (k : A -> M B) :
  keeps P m -> (forall a, keeps P (k a)) -> keeps P (bind m k).
Proof.
  intros Hm Hk w H. unfold bind. specialize (Hm w H).
  destruct (m w) as [[a|] w']; simpl in *; [now apply Hk|exact Hm].
Qed.

Lemma keeps_try_catch {A} (m h : M A) :
  keeps P m -> keeps P h -> keeps P (try_catch m h).
Proof.
  intros Hm Hh w H. unfold try_catch. specialize (Hm w H).
  destruct (m w) as [[a|] w']; simpl in *; [exact Hm|now apply Hh].
Qed.

Lemma keeps_for_each {A} (body : A -> M unit) (xs : list A) :
  (forall x, keeps P (body x)) -> keeps P (for_each body xs).
Proof.
  intros Hb. induction xs as [|x xs IH]; simpl.
  - apply keeps_ret.
  - apply keeps_bind; [apply Hb|intros _; exact IH].
Qed.

Lemma keeps_perform {A} (plan : nat -> fault) (r : Db.request)
      (run : Db.db -> option (Db.db * A)) :
  (forall d d' a, P d -> run d = Some (d', a) -> P d') ->
  keeps P (perform plan r run).
Proof.
  intros Hrun w H. unfold perform.
  destruct (plan _); simpl; try exact H.
  destruct (run (store w)) as [[d' a]|] eqn:E; simpl; [|exact H].
  now apply (Hrun _ _ _ H E).
Qed.

Lemma keeps_read {A} (plan : nat -> fault) (r : Db.request) (f : Db.db -> option A) :
  keeps P (perform plan r (fun d => option_map (fun a => (d, a)) (f d))).
Proof.
  apply keeps_perform. intros d d' a H E.
  destruct (f d); simpl in E; [|discriminate]. now injection E as <- _.
Qed.

End Preservation.

(** C7: the store refuses a second topic whose label differs from that of
    another topic only in case, and a second alias of a topic that differs
    from one it has only in case; the refused request changes nothing; and
    case-insensitive uniqueness of labels and of the aliases of a topic,
    with the key of [topics], is kept by every request the store serves
    and by the approval handler as a whole, whatever the decisions and
    whatever fails on the way. *)
Theorem case_insensitive_uniqueness_kept :
  (forall ts t tid lbl cby,
      In t ts -> Db.id t <> tid -> Db.lower lbl = Db.lower (Db.label t) ->
      Db.upsert_topic tid lbl cby ts = None)
  /\ (forall ts als x a,
         In x als -> Db.lower a = Db.lower (Db.alias x) ->
         Db.upsert_alias (Db.topic_id x) a ts als = None)
  /\ (forall plan r w,
         Client.run_write r (Client.store w) = None ->
         Client.store (snd (Client.perform plan r (Client.run_write r) w))
         = Client.store w)
  /\ (forall r d d',
         Db.consistent d -> Client.run_write r d = Some (d', tt) -> Db.consistent d')
  /\ (forall plan clock decisions,
         Client.keeps Db.consistent (Commit.POST plan clock decisions)).
Proof.
  split; [|split; [|split; [|split]]].
  - intros ts t tid lbl cby Hin Hid E. unfold Db.upsert_topic.
    now rewrite (label_taken_true tid lbl ts t Hin Hid E).
  - intros ts als x a Hin E. unfold Db.upsert_alias.
    destruct (negb (Db.has_topic (Db.topic_id x) ts)); [reflexivity|].
    assert (X : Db.alias_taken_nocase (Db.topic_id x) a als = true).
    { unfold Db.alias_taken_nocase. apply existsb_exists. exists x.
      split; [exact Hin|]. rewrite String.eqb_refl. simpl.
      apply String.eqb_eq. now symmetry. }
    now rewrite X, orb_true_r.
  - intros plan r w H. unfold Client.perform.
    destruct (plan _); simpl; try reflexivity. now rewrite H.
  - intros r d d'. apply run_write_consistent.
  - intros plan clock decisions. unfold Commit.POST, Commit.commit.
    assert (Hw : forall r, Client.keeps Db.consistent (Commit.write plan r)).
    { intros r. apply keeps_perform. intros d d' [] Hd E.
      now apply (run_write_consistent r d d'). }
    apply keeps_try_catch; [|apply keeps_ret].
    apply keeps_bind; [apply keeps_read|]. intros config.
    apply keeps_bind.
    { apply keeps_for_each. intros d. unfold Commit.process.
      apply keeps_bind; [intros w Hd; now apply Hw|]. intros _.
      apply keeps_bind.
      - destruct (Commit.equals (Commit.status d) "approved"); [|apply keeps_ret].
        apply keeps_bind.
        + apply keeps_perform. intros s s' a Hs E.
          unfold Client.run_select_candidate in E.
          destruct (Commit.id d); [|discriminate].
          destruct (Db.select_candidate _ _); simpl in E; [|discriminate].
          now injection E as <- _.
        + intros c. apply keeps_bind; [apply Hw|intros; apply keeps_ret].
      - intros _. apply keeps_bind; [apply Hw|intros; apply keeps_ret]. }
    intros _. apply keeps_bind.
    { destruct (0 <? _)%nat; [|apply keeps_ret].
      apply keeps_bind; [apply Hw|intros; apply keeps_ret]. }
    intros _. apply keeps_bind; [|intros; apply keeps_ret].
    destruct (_ && _); [|apply keeps_ret].
    apply keeps_try_catch; [|apply keeps_ret].
    apply keeps_bind; [apply Hw|intros; apply keeps_ret].
Qed.

(** ** The approval handler *)

Section CommitFacts.

Import Client.

Variable clock : nat -> string.

Lemma skipn_own_length {A} (l l' : list A) : skipn (List.length l) (l ++ l') = l'.
Proof. induction l; simpl; auto. Qed.

(** What an accepted request does to the event log and to the settings. *)
Lemma run_write_events (r : Db.request) (d d' : Db.db) :
  run_write r d = Some (d', tt) ->
  Db.events d' = (Db.events d ++ Db.event_of r)%list
  /\ Db.scoring_config d' = Db.scoring_config d.
Proof.
  destruct r; simpl; try (intros [= <-]; now rewrite app_nil_r).
  - destruct cid; [|discriminate]. intros [= <-]. simpl. now rewrite app_nil_r.
  - destruct (Db.upsert_alias _ _ _ _); [|discriminate].
    intros [= <-]. simpl. now rewrite app_nil_r.
  - destruct (Db.upsert_relation _ _ _ _ _ _); [|discriminate].
    intros [= <-]. simpl. now rewrite app_nil_r.
  - destruct (Db.upsert_topic _ _ _ _); [|discriminate].
    intros [= <-]. simpl. now rewrite app_nil_r.
  - intros [= <-]. simpl. auto.
Qed.

Lemma run_write_refused (r : Db.request) (d : Db.db) :
  run_write r d = None -> Db.event_of r = [].
Proof. destruct r; simpl; try reflexivity. discriminate. Qed.

(** Without faults a write returns, appends its request to the log, and
    adds the event row it carries, if any. *)
Lemma write_no_fault (r : Db.request) (w : world) :
  exists res w',
    Commit.write no_fault r w = (Returned res, w')
    /\ log w' = (log w ++ [r])%list
    /\ Db.events (store w') = (Db.events (store w) ++ Db.event_of r)%list
    /\ Db.scoring_config (store w') = Db.scoring_config (store w).
Proof.
  unfold Commit.write, perform, no_fault.
  destruct (run_write r (store w)) as [[d' []]|] eqn:E.
  - destruct (run_write_events _ _ _ E) as [He Hc].
    eexists _, _. split; [reflexivity|]. simpl. auto.
  - eexists _, _. split; [reflexivity|]. simpl.
    rewrite (run_write_refused _ _ E), app_nil_r. auto.
Qed.

Lemma select_candidate_no_fault (cid : option string) (w : world) :
  perform no_fault (Db.SelectCandidate cid) (run_select_candidate cid) w
  = (Returned (match cid with
               | Some c => Db.select_candidate c (Db.topic_candidates (store w))
               | None => None
               end),
     mkWorld (store w) (log w ++ [Db.SelectCandidate cid])).
Proof.
  unfold perform, no_fault, run_select_candidate.
  destruct cid as [c|]; [|reflexivity].
  destruct (Db.select_candidate c _); reflexivity.
Qed.

(** One decision, when nothing throws: the requests it issues, in
    order, and the one event row it adds. *)
Lemma process_no_fault (d : Commit.decision) (w : world) :
  exists w',
    Commit.process no_fault clock d w = (Returned tt, w')
    /\ log w'
       = (log w
          ++ Db.UpdateCandidate (Commit.id d) (Commit.status d)
                                (clock (List.length (log w)))
          :: (if Commit.equals (Commit.status d) "approved"
              then [Db.SelectCandidate (Commit.id d);
                    Commit.approved_write d (Commit.read_back clock d w)]
              else [])
          ++ [Db.InsertEvent (Commit.status_event d)])%list
    /\ Db.events (store w') = (Db.events (store w) ++ [Commit.status_event d])%list
    /\ Db.scoring_config (store w') = Db.scoring_config (store w).
Proof.
  unfold Commit.process, bind at 1.
  destruct (write_no_fault (Db.UpdateCandidate (Commit.id d) (Commit.status d)
                              (clock (List.length (log w)))) w)
    as (r1 & w1 & E1 & L1 & Ev1 & C1).
  rewrite E1. simpl in Ev1. rewrite app_nil_r in Ev1.
  assert (S1 : Db.topic_candidates (store w1)
               = match Commit.id d with
                 | Some c => Db.update_candidate c (Commit.status d)
                               (clock (List.length (log w)))
                               (Db.topic_candidates (store w))
                 | None => Db.topic_candidates (store w)
                 end).
  { unfold Commit.write, perform, no_fault in E1. simpl in E1.
    destruct (Commit.id d); injection E1 as _ <-; reflexivity. }
  destruct (Commit.equals (Commit.status d) "approved").
  - unfold bind at 1. unfold bind at 1.
    rewrite select_candidate_no_fault.
    assert (Hc : match Commit.id d with
                 | Some c => Db.select_candidate c (Db.topic_candidates (store w1))
                 | None => None
                 end = Commit.read_back clock d w).
    { unfold Commit.read_back. destruct (Commit.id d); [|reflexivity]. now rewrite S1. }
    rewrite Hc. unfold bind at 1.
    destruct (write_no_fault (Commit.approved_write d (Commit.read_back clock d w))
                (mkWorld (store w1) (log w1 ++ [Db.SelectCandidate (Commit.id d)])))
      as (r2 & w2 & E2 & L2 & Ev2 & C2).
    rewrite E2. unfold ret at 1. unfold bind at 1.
    destruct (write_no_fault (Db.InsertEvent (Commit.status_event d)) w2)
      as (r3 & w3 & E3 & L3 & Ev3 & C3).
    rewrite E3. exists w3. split; [reflexivity|].
    simpl in *. split.
    { rewrite L3, L2, L1, <- !app_assoc. reflexivity. }
    split; [|congruence].
    rewrite Ev3, Ev2, Ev1.
    assert (X : Db.event_of (Commit.approved_write d (Commit.read_back clock d w)) = []).
    { unfold Commit.approved_write.
      destruct (_ && _); [reflexivity|]. destruct (_ && _); reflexivity. }
    now rewrite X, app_nil_r.
  - unfold bind at 1. unfold ret at 1. unfold bind at 1.
    destruct (write_no_fault (Db.InsertEvent (Commit.status_event d)) w1)
      as (r3 & w3 & E3 & L3 & Ev3 & C3).
    rewrite E3. exists w3. split; [reflexivity|].
    simpl in *. split.
    { rewrite L3, L1, <- !app_assoc. reflexivity. }
    split; [now rewrite Ev3, Ev1 | congruence].
Qed.

(** The whole loop, when nothing throws. *)
Lemma for_each_no_fault (ds : list Commit.decision) (w : world) :
  exists w',
    for_each (Commit.process no_fault clock) ds w = (Returned tt, w')
    /\ Db.events (store w')
       = (Db.events (store w) ++ map Commit.status_event ds)%list
    /\ Db.scoring_config (store w') = Db.scoring_config (store w).
Proof.
  revert w. induction ds as [|d ds IH]; intros w; simpl.
  - exists w. unfold ret. now rewrite app_nil_r.
  - destruct (process_no_fault d w) as (w1 & E1 & _ & Ev1 & C1).
    destruct (IH w1) as (w2 & E2 & Ev2 & C2).
    exists w2. unfold bind. rewrite E1, E2. split; [reflexivity|].
    split; [|congruence]. rewrite Ev2, Ev1, <- app_assoc. reflexivity.
Qed.

(** The handler, when nothing throws: it answers success, and the event
    rows it adds are one per decision, then the summary, then the
    auto-trigger request when the flag is set. *)
Lemma commit_no_fault (ds : list Commit.decision) (w : world) :
  exists w',
    Commit.POST no_fault clock ds w = (Returned Commit.Success, w')
    /\ Db.events (store w')
       = (Db.events (store w) ++ map Commit.status_event ds
          ++ (if (0 <? List.length ds)%nat then [Commit.applied_event ds] else [])
          ++ (if Commit.auto_flag (store w) && (0 <? List.length ds)%nat
              then [Commit.requested_event ds] else []))%list.
Proof.
  unfold Commit.POST, Commit.commit, try_catch, bind at 1.
  assert (Hcfg : perform no_fault Db.SelectConfig run_select_config w
                 = (Returned (Db.scoring_config (store w)),
                    mkWorld (store w) (log w ++ [Db.SelectConfig]))).
  { unfold perform, no_fault, run_select_config.
    destruct (Db.scoring_config (store w)); reflexivity. }
  rewrite Hcfg. fold (Commit.auto_flag (store w)).
  unfold bind at 1.
  destruct (for_each_no_fault ds (mkWorld (store w) (log w ++ [Db.SelectConfig])))
    as (w1 & E1 & Ev1 & C1).
  rewrite E1. simpl in Ev1, C1. unfold bind at 1.
  destruct (0 <? List.length ds)%nat.
  - unfold bind at 1.
    destruct (write_no_fault (Db.InsertEvent (Commit.applied_event ds)) w1)
      as (r2 & w2 & E2 & L2 & Ev2 & C2).
    rewrite E2. unfold ret at 1. unfold bind at 1.
    destruct (Commit.auto_flag (store w)); simpl.
    + eexists. split; [reflexivity|]. simpl.
      rewrite Ev2, Ev1. simpl. now rewrite <- !app_assoc.
    + eexists. split; [reflexivity|].
      rewrite Ev2, Ev1. simpl. now rewrite <- !app_assoc.
  - rewrite andb_false_r. unfold ret. eexists. split; [reflexivity|].
    rewrite Ev1. simpl. now rewrite !app_nil_r.
Qed.

Lemma update_candidate_filter (cid : string) (st : option string) (at_ : string)
      (cs : list Db.topic_candidate) :
  filter (fun c => String.eqb (Db.candidate_id c) cid)
         (Db.update_candidate cid st at_ cs)
  = Db.update_candidate cid st at_
      (filter (fun c => String.eqb (Db.candidate_id c) cid) cs).
Proof.
  unfold Db.update_candidate. induction cs as [|c cs IH]; simpl; [reflexivity|].
  destruct (String.eqb (Db.candidate_id c) cid) eqn:E; simpl; rewrite E.
  - simpl. now rewrite IH.
  - exact IH.
Qed.

(** The update of a decision touches neither the label nor the
    suggested id of its candidate: the handler reads back the label and
    the suggested id the store had. *)
Lemma approved_write_read_back (d : Commit.decision) (w : world) :
  Commit.approved_write d (Commit.read_back clock d w)
  = Commit.approved_write d (Commit.candidate_of d (store w)).
Proof.
  unfold Commit.read_back, Commit.candidate_of.
  destruct (Commit.id d) as [cid|]; [|reflexivity].
  unfold Db.select_candidate. rewrite update_candidate_filter.
  destruct (filter _ (Db.topic_candidates (store w))) as [|c [|c' l]];
    try reflexivity.
  simpl. destruct (String.eqb (Db.candidate_id c) cid); reflexivity.
Qed.

Lemma approved_write_is_taxonomy (d : Commit.decision) (c : option Db.topic_candidate) :
  Db.is_taxonomy_write (Commit.approved_write d c) = true.
Proof.
  unfold Commit.approved_write.
  destruct (_ && _); [reflexivity|]. destruct (_ && _); reflexivity.
Qed.

(** The taxonomy writes of one decision, when nothing throws. *)
Lemma taxonomy_writes_no_fault (d : Commit.decision) (w : world) :
  Commit.taxonomy_writes no_fault clock d w
  = if Commit.equals (Commit.status d) "approved"
    then [Commit.approved_write d (Commit.candidate_of d (store w))]
    else [].
Proof.
  unfold Commit.taxonomy_writes, issued_by.
  destruct (process_no_fault d w) as (w' & E & L & _).
  rewrite E. simpl. rewrite L, skipn_own_length.
  rewrite approved_write_read_back.
  destruct (Commit.equals (Commit.status d) "approved"); simpl;
    [|reflexivity].
  now rewrite approved_write_is_taxonomy.
Qed.

(** A decision that is not an approval writes nothing to the taxonomy
    tables, whatever fails. *)
Lemma not_approved_no_taxonomy_write (plan : nat -> fault)
      (d : Commit.decision) (w : world) :
  Commit.equals (Commit.status d) "approved" = false ->
  let w' := snd (Commit.process plan clock d w) in
  Commit.taxonomy_writes plan clock d w = []
  /\ Db.topics (store w') = Db.topics (store w)
  /\ Db.topic_aliases (store w') = Db.topic_aliases (store w)
  /\ Db.topic_relations (store w') = Db.topic_relations (store w).
Proof.
  intros H. unfold Commit.taxonomy_writes, issued_by, Commit.process.
  rewrite H. destruct w as [s l].
  unfold bind, ret, Commit.write, perform. simpl.
  destruct (plan (List.length l)); simpl.
  - destruct (Commit.id d); simpl;
      destruct (plan (List.length (l ++ [_]))); simpl;
      rewrite <- ?app_assoc, skipn_own_length; simpl; auto.
  - destruct (plan (List.length (l ++ [_]))); simpl;
      rewrite <- ?app_assoc, skipn_own_length; simpl; auto.
  - rewrite skipn_own_length. simpl. auto.
Qed.

(** The handler answers 500 only when a request throws: a request that
    merely fails, its failure reported in the resolved value, is passed
    over and the answer is success. *)
Lemma perform_returns {A} (plan : nat -> fault) (r : Db.request)
      (run : Db.db -> option (Db.db * A)) :
  (forall k, plan k <> Throws) -> returns (perform plan r run).
Proof.
  intros Hp w. unfold perform. specialize (Hp (List.length (log w))).
  destruct (plan _); [| |congruence].
  - destruct (run (store w)) as [[d a]|]; eexists _, _; reflexivity.
  - eexists _, _; reflexivity.
Qed.

Lemma returns_ret {A} (a : A) : returns (ret a).
Proof. intros w. now exists a, w. Qed.

Lemma returns_bind {A B} (m : M A) (k : A -> M B) :
  returns m -> (forall a, returns (k a)) -> returns (bind m k).
Proof.
  intros Hm Hk w. destruct (Hm w) as (a & w1 & E).
  destruct (Hk a w1) as (b & w2 & E2).
  exists b, w2. unfold bind. now rewrite E.
Qed.

Lemma returns_for_each {A} (body : A -> M unit) (xs : list A) :
  (forall x, returns (body x)) -> returns (for_each body xs).
Proof.
  intros Hb. induction xs as [|x xs IH]; simpl.
  - apply returns_ret.
  - apply returns_bind; [apply Hb|intros _; exact IH].
Qed.

Lemma commit_succeeds_unless_thrown (plan : nat -> fault)
      (ds : list Commit.decision) (w : world) :
  (forall k, plan k <> Throws) ->
  fst (Commit.POST plan clock ds w) = Returned Commit.Success.
Proof.
  intros Hp.
  assert (Hw : forall r, returns (Commit.write plan r)).
  { intros r. now apply perform_returns. }
  assert (Hloop : returns (for_each (Commit.process plan clock) ds)).
  { apply returns_for_each. intros d. unfold Commit.process.
    apply returns_bind; [intros w0; apply Hw|]. intros _.
    apply returns_bind.
    - destruct (Commit.equals _ _); [|apply returns_ret].
      apply returns_bind; [now apply perform_returns|]. intros c.
      apply returns_bind; [apply Hw|intros; apply returns_ret].
    - intros _. apply returns_bind; [apply Hw|intros; apply returns_ret]. }
  unfold Commit.POST, Commit.commit, try_catch, bind at 1.
  destruct (perform_returns plan Db.SelectConfig run_select_config Hp w)
    as (cfg & w1 & E1).
  rewrite E1. unfold bind at 1.
  destruct (Hloop w1) as ([] & w2 & E2). rewrite E2.
  unfold bind at 1.
  assert (Hsum : returns (if (0 <? List.length ds)%nat
                          then bind (Commit.write plan
                                       (Db.InsertEvent (Commit.applied_event ds)))
                                    (fun _ => ret tt)
                          else ret tt)).
  { destruct (0 <? _)%nat; [|apply returns_ret].
    apply returns_bind; [apply Hw|intros; apply returns_ret]. }
  destruct (Hsum w2) as ([] & w3 & E3). rewrite E3.
  unfold bind at 1.
  destruct (_ && _).
  - unfold try_catch, bind at 1.
    destruct (Hw (Db.InsertEvent (Commit.requested_event ds)) w3)
      as (r & w4 & E4).
    rewrite E4. reflexivity.
  - reflexivity.
Qed.

End CommitFacts.

(** C2, as stated, fails: with the auto-trigger flag of the settings on,
    one decision adds three event rows, not two. *)
Lemma commit_events_auto_trigger_counterexample :
  ~ (forall (clock : nat -> string) (ds : list Commit.decision) (d : Db.db),
        ds <> [] ->
        Commit.events_added
          d (Client.store (snd (Commit.POST Client.no_fault clock ds (Commit.fresh d))))
        = List.length ds + 1).
Proof.
  intros H.
  specialize (H Sample.clock [Sample.approve_c2] (Sample.store true)
                ltac:(discriminate)).
  vm_compute in H. discriminate H.
Qed.

(** C2, amended: when no request throws or is refused for a reason outside
    the store, a batch of N > 0 decisions adds one
    "candidate_status_changed" row per decision, in order, then one
    "taxonomy_applied" row carrying N, then one "chunk_tag_requested" row
    if the auto-trigger flag of the settings is on: N + 1 rows with the
    flag off, N + 2 with it on; an empty batch adds none. *)
Theorem commit_event_rows (clock : nat -> string) (ds : list Commit.decision)
        (w : Client.world) :
  let after := Client.store (snd (Commit.POST Client.no_fault clock ds w)) in
  fst (Commit.POST Client.no_fault clock ds w) = Client.Returned Commit.Success
  /\ Db.events after
     = (Db.events (Client.store w)
        ++ map Commit.status_event ds
        ++ (if (0 <? List.length ds)%nat then [Commit.applied_event ds] else [])
        ++ (if Commit.auto_flag (Client.store w) && (0 <? List.length ds)%nat
            then [Commit.requested_event ds] else []))%list
  /\ Commit.events_added (Client.store w) after
     = match ds with
       | [] => 0
       | _ => List.length ds + 1
              + (if Commit.auto_flag (Client.store w) then 1 else 0)
       end
  /\ Forall (fun e => Db.event_type e = "candidate_status_changed")
            (map Commit.status_event ds)
  /\ Db.event_type (Commit.applied_event ds) = "taxonomy_applied"
  /\ Db.payload_json (Commit.applied_event ds) = Db.Applied (List.length ds).
Proof.
  intros after. subst after.
  destruct (commit_no_fault clock ds w) as (w' & E & Ev).
  rewrite E. simpl. split; [reflexivity|]. split; [exact Ev|].
  split.
  - unfold Commit.events_added. rewrite Ev, !length_app, length_map.
    destruct (Commit.auto_flag (Client.store w));
      destruct ds as [|d ds]; simpl; lia.
  - split; [|split; reflexivity].
    apply Forall_forall. intros e He. apply in_map_iff in He as (d & <- & _).
    reflexivity.
Qed.

(** C3, as stated, fails: an approved decision with action "subtopic" and
    no target topic issues no relation upsert; the handler creates a topic
    from the candidate instead. *)
Lemma subtopic_without_target_counterexample :
  ~ (forall (clock : nat -> string) (d : Commit.decision) (w : Client.world),
        Commit.equals (Commit.status d) "approved" = true ->
        Commit.equals (Commit.action d) "subtopic" = true ->
        exists p c ty wt,
          In (Db.UpsertRelation p c ty wt)
             (Commit.taxonomy_writes Client.no_fault clock d w)).
Proof.
  intros H.
  destruct (H Sample.clock Sample.subtopic_c2 (Commit.fresh (Sample.store false))
              eq_refl eq_refl) as (p & c & ty & wt & Hin).
  vm_compute in Hin. destruct Hin as [Hin | []]. discriminate Hin.
Qed.

(** C1 (the code at a failing write): approving the candidate "Pricing
    Model" as an alias of the topic that already has the alias "pricing
    model" makes the alias upsert fail on the unique index; the handler
    does not look at the failure: it goes on to write the two event rows
    and answers success, not 500.  Only a request that throws is answered
    with 500, and then the rows written before it stay. *)
Theorem commit_passes_over_failed_write :
  let before := Sample.store false in
  let run := Commit.POST Client.no_fault Sample.clock [Sample.alias_c1]
                         (Commit.fresh before) in
  Client.run_write (Db.UpsertAlias "pricing" "Pricing Model") before = None
  /\ In (Db.UpsertAlias "pricing" "Pricing Model") (Client.log (snd run))
  /\ Db.topic_aliases (Client.store (snd run)) = Db.topic_aliases before
  /\ fst run = Client.Returned Commit.Success
  /\ map Db.event_type (Db.events (Client.store (snd run)))
     = ["candidate_status_changed"; "taxonomy_applied"]
  /\ (let thrown := Commit.POST (Sample.throws_at 5) Sample.clock
                                [Sample.approve_c2; Sample.reject_c1]
                                (Commit.fresh before) in
      fst thrown = Client.Returned (Commit.Failed 500 "Failed to commit approvals")
      /\ map Db.id (Db.topics (Client.store (snd thrown))) = ["pricing"; "onboarding"]
      /\ List.length (Db.events (Client.store (snd thrown))) = 1).
Proof.
  vm_compute. repeat split; auto.
Qed.

Lemma sample_store_consistent (auto : bool) : Db.consistent (Sample.store auto).
Proof.
  unfold Db.consistent, Db.keys_unique, Db.case_unique, Db.labels_unique,
    Db.aliases_unique. simpl.
  repeat split; repeat constructor; simpl; tauto.
Qed.

Lemma case_insensitive_uniqueness_kept_witness :
  Db.upsert_topic "pricing-2" "PRICING" "ui" (Db.topics (Sample.store false)) = None
  /\ Db.upsert_alias "pricing" "Pricing Model" (Db.topics (Sample.store false))
                     (Db.topic_aliases (Sample.store false)) = None
  /\ Db.consistent
       (Client.store
          (snd (Commit.POST (Sample.throws_at 5) Sample.clock
                            [Sample.approve_c2; Sample.reject_c1]
                            (Commit.fresh (Sample.store false))))).
Proof.
  destruct case_insensitive_uniqueness_kept as (Ht & Ha & _ & _ & Hk).
  split; [|split].
  - apply (Ht _ Sample.pricing); [left; reflexivity | discriminate | reflexivity].
  - apply (Ha (Db.topics (Sample.store false)) _
              (Db.mkAlias "pricing model" "pricing"));
      [left; reflexivity | reflexivity].
  - apply Hk. apply sample_store_consistent.
Defined.

Lemma taxonomy_load_reads_witness :
  let w := Commit.fresh (Sample.store false) in
  let first := Taxonomy.load (Faults.rejects_at 7) String.leb [] w in
  let second := Taxonomy.load (Faults.rejects_at 7) String.leb [] (snd first) in
  fst first
  = Client.Returned [Taxonomy.mkTopic Sample.pricing ["pricing model"] [] []]
  /\ fst second = fst first
  /\ Client.store (snd second) = Sample.store false.
Proof.
  intros w first second.
  destruct (taxonomy_load_reads (Faults.rejects_at 7) String.leb [] w)
    as (_ & Hgraph & Hagain & _).
  split; [apply Hgraph; reflexivity|].
  assert (Hp : forall i, (i < 6)%nat ->
                         Faults.rejects_at 7 (List.length (Client.log w) + i)
                         = Client.NoFault).
  { intros i Hi. simpl. unfold Faults.rejects_at.
    destruct (Nat.eqb_spec i 7) as [E|E]; [lia|reflexivity]. }
  destruct (Hagain Hp []) as (Hst & Hsame & _).
  split; [exact Hsame | exact Hst].
Defined.


(** ** More on the approval handler and the store *)

Section HandlerFrame.

Import Client.

Variable P : Db.db -> Prop.

Hypothesis write_keeps :
  forall r d d', P d -> run_write r d = Some (d', tt) -> P d'.

Lemma write_keeps_P (plan : nat -> fault) (r : Db.request) :
  keeps P (Commit.write plan r).
Proof.
  apply keeps_perform. intros d d' [] Hd E. now apply (write_keeps r d d').
Qed.

Lemma select_candidate_keeps (plan : nat -> fault) (cid : option string) :
  keeps P (perform plan (Db.SelectCandidate cid) (run_select_candidate cid)).
Proof.
  apply keeps_perform. intros s s' a Hs E.
  unfold run_select_candidate in E.
  destruct cid; [|discriminate].
  destruct (Db.select_candidate _ _); simpl in E; [|discriminate].
  now injection E as <- _.
Qed.

Lemma process_keeps (plan : nat -> fault) (clock : nat -> string)
      (d : Commit.decision) :
  keeps P (Commit.process plan clock d).
Proof.
  unfold Commit.process.
  apply keeps_bind; [intros w Hd; now apply write_keeps_P|]. intros _.
  apply keeps_bind.
  - destruct (Commit.equals (Commit.status d) "approved"); [|apply keeps_ret].
    apply keeps_bind; [apply select_candidate_keeps|].
    intros c. apply keeps_bind; [apply write_keeps_P|intros; apply keeps_ret].
  - intros _. apply keeps_bind; [apply write_keeps_P|intros; apply keeps_ret].
Qed.

(** The part of the handler after the loop. *)
Lemma closing_keeps (plan : nat -> fault) (ds : list Commit.decision) (auto : bool) :
  keeps P
    (bind (if (0 <? List.length ds)%nat
           then bind (Commit.write plan (Db.InsertEvent (Commit.applied_event ds)))
                     (fun _ => ret tt)
           else ret tt)
          (fun _ =>
             bind (if auto && (0 <? List.length ds)%nat
                   then try_catch
                          (bind (Commit.write plan
                                   (Db.InsertEvent (Commit.requested_event ds)))
                                (fun _ => ret tt))
                          (ret tt)
                   else ret tt)
                  (fun _ => ret Commit.Success))).
Proof.
  apply keeps_bind.
  { destruct (0 <? _)%nat; [|apply keeps_ret].
    apply keeps_bind; [apply write_keeps_P|intros; apply keeps_ret]. }
  intros _. apply keeps_bind; [|intros; apply keeps_ret].
  destruct (_ && _); [|apply keeps_ret].
  apply keeps_try_catch; [|apply keeps_ret].
  apply keeps_bind; [apply write_keeps_P|intros; apply keeps_ret].
Qed.

(** A property every accepted write keeps is kept by the handler. *)
Lemma post_keeps (plan : nat -> fault) (clock : nat -> string)
      (ds : list Commit.decision) :
  keeps P (Commit.POST plan clock ds).
Proof.
  unfold Commit.POST, Commit.commit.
  apply keeps_try_catch; [|apply keeps_ret].
  apply keeps_bind; [apply keeps_read|]. intros config.
  apply keeps_bind.
  { apply keeps_for_each. intros d. apply process_keeps. }
  intros _. apply closing_keeps.
Qed.

End HandlerFrame.

Section StoreFacts.

Import Db Integrity.

Lemma has_topic_put (x tid lbl cby : string) (ts : list topic) :
  has_topic x (map (put tid lbl cby) ts) = has_topic x ts.
Proof.
  unfold has_topic. induction ts as [|t ts IH]; simpl; [reflexivity|].
  now rewrite put_id, IH.
Qed.

Lemma has_topic_snoc (x : string) (ts : list topic) (t : topic) :
  has_topic x ts = true -> has_topic x (ts ++ [t]) = true.
Proof.
  unfold has_topic. intros H. rewrite existsb_app, H. reflexivity.
Qed.

(** An upsert never removes a topic. *)
Lemma upsert_topic_keeps_topics (x tid lbl cby : string) (ts ts' : list topic) :
  upsert_topic tid lbl cby ts = Some ts' ->
  has_topic x ts = true -> has_topic x ts' = true.
Proof.
  unfold upsert_topic. destruct (label_taken tid lbl ts); [discriminate|].
  destruct (has_topic tid ts); intros [= <-] H.
  - now rewrite has_topic_put.
  - now apply has_topic_snoc.
Qed.

Lemma run_write_referential (r : request) (d d' : db) :
  referential d -> Client.run_write r d = Some (d', tt) -> referential d'.
Proof.
  unfold referential, edges_closed, aliases_closed. intros [He Ha].
  destruct r; simpl; try (intros [= <-]; auto; fail).
  - destruct cid; [|discriminate]. intros [= <-]. simpl. auto.
  - unfold upsert_alias.
    destruct (has_topic tid (topics d)) eqn:Ht; [|discriminate]. simpl.
    destruct (_ || _); [discriminate|]. intros [= <-]. simpl.
    split; [exact He|]. intros x Hx. apply in_app_iff in Hx as [Hx | [<- | []]]; auto.
  - unfold upsert_relation. destruct (existsb _ _) eqn:Hex.
    + intros [= <-]. simpl. split; [|exact Ha].
      intros x Hx. apply in_map_iff in Hx as (y & <- & Hy).
      destruct (same_edge p c ty y) eqn:Hs; [|now apply He].
      unfold same_edge in Hs.
      apply andb_true_iff in Hs as [Hs _]. apply andb_true_iff in Hs as [Hp Hc].
      apply String.eqb_eq in Hp, Hc. subst p c. simpl. now apply He.
    + destruct (has_topic p (topics d) && has_topic c (topics d)) eqn:Hpc;
        [|discriminate].
      apply andb_true_iff in Hpc as [Hp Hc].
      intros [= <-]. simpl. split; [|exact Ha].
      intros x Hx. apply in_app_iff in Hx as [Hx | [<- | []]]; auto.
  - destruct (upsert_topic tid lbl cby (topics d)) eqn:E; [|discriminate].
    intros [= <-]. simpl. split.
    + intros x Hx. destruct (He x Hx).
      split; now apply (upsert_topic_keeps_topics _ _ _ _ _ _ E).
    + intros x Hx. apply (upsert_topic_keeps_topics _ _ _ _ _ _ E). auto.
Qed.

Lemma alias_taken_in (a : string) (als : list topic_alias) :
  alias_taken a als = true <-> In a (map alias als).
Proof.
  unfold alias_taken. rewrite existsb_exists, in_map_iff. split.
  - intros (x & Hx & E). apply String.eqb_eq in E. eauto.
  - intros (x & E & Hx). exists x. split; [exact Hx|]. now apply String.eqb_eq.
Qed.

Lemma run_write_alias_text (r : request) (d d' : db) :
  alias_text_unique d -> Client.run_write r d = Some (d', tt) ->
  alias_text_unique d'.
Proof.
  unfold alias_text_unique. intros Hn.
  destruct r; simpl; try (intros [= <-]; auto; fail).
  - destruct cid; [|discriminate]. intros [= <-]. exact Hn.
  - unfold upsert_alias. destruct (negb _); [discriminate|].
    destruct (alias_taken a (topic_aliases d)) eqn:Ht; [discriminate|].
    simpl. destruct (alias_taken_nocase _ _ _); [discriminate|].
    intros [= <-]. simpl. rewrite map_app. simpl.
    apply NoDup_snoc; [exact Hn|].
    intros Hin. apply alias_taken_in in Hin. congruence.
  - destruct (upsert_relation _ _ _ _ _ _); [|discriminate].
    intros [= <-]. exact Hn.
  - destruct (upsert_topic _ _ _ _); [|discriminate]. intros [= <-]. exact Hn.
Qed.

Lemma frame_update (cid : string) (st : option string) (at_ : string)
      (cs : list topic_candidate) :
  map frame (update_candidate cid st at_ cs) = map frame cs.
Proof.
  unfold update_candidate. rewrite map_map. apply map_ext.
  intros c. destruct (String.eqb (candidate_id c) cid); reflexivity.
Qed.

Lemma run_write_candidates (d0 : db) (r : request) (d d' : db) :
  same_candidates d0 d -> Client.run_write r d = Some (d', tt) ->
  same_candidates d0 d'.
Proof.
  unfold same_candidates. intros H.
  destruct r; simpl; try (intros [= <-]; auto; fail).
  - destruct cid; [|discriminate]. intros [= <-]. simpl.
    now rewrite frame_update.
  - destruct (upsert_alias _ _ _ _); [|discriminate]. intros [= <-]. exact H.
  - destruct (upsert_relation _ _ _ _ _ _); [|discriminate].
    intros [= <-]. exact H.
  - destruct (upsert_topic _ _ _ _); [|discriminate]. intros [= <-]. exact H.
Qed.

Lemma run_write_log (d0 : db) (r : request) (d d' : db) :
  log_extends d0 d -> Client.run_write r d = Some (d', tt) -> log_extends d0 d'.
Proof.
  intros [added H] E. destruct (run_write_events r d d' E) as [He _].
  exists (added ++ event_of r)%list. now rewrite He, H, app_assoc.
Qed.

End StoreFacts.

(** ** The approval handler on the body as it arrives *)

Section RequestFacts.

Import Client.

Variable plan : nat -> fault.
Variable clock : nat -> string.

Lemma bind_ext {A B} (m1 m2 : M A) (k1 k2 : A -> M B) (w : world) :
  (forall w0, m1 w0 = m2 w0) ->
  (forall a w0, k1 a w0 = k2 a w0) ->
  bind m1 k1 w = bind m2 k2 w.
Proof.
  intros Hm Hk. unfold bind. rewrite Hm.
  destruct (m2 w) as [[a|] w']; [apply Hk|reflexivity].
Qed.

(** Over an array of objects the loop is the loop over the decisions. *)
Lemma each_objects (ds : list Commit.decision) (w : world) :
  Request.each plan clock (map Request.Object ds) w
  = for_each (Commit.process plan clock) ds w.
Proof.
  revert w. induction ds as [|d ds IH]; intros w; simpl; [reflexivity|].
  unfold bind. destruct (Commit.process plan clock d w) as [[[]|] w'];
    [apply IH|reflexivity].
Qed.

(** The loop does not get past a [null] element. *)
Lemma each_null (elements : list Request.element) (w : world) :
  forallb Request.is_object elements = false ->
  fst (Request.each plan clock elements w) = Thrown.
Proof.
  revert w. induction elements as [|e es IH]; intros w; simpl; [discriminate|].
  destruct e as [|d]; simpl; [reflexivity|].
  intros H. unfold bind.
  destruct (Commit.process plan clock d w) as [[[]|] w'];
    [now apply IH|reflexivity].
Qed.

Lemma objects_of (elements : list Request.element) :
  forallb Request.is_object elements = true ->
  exists ds, elements = map Request.Object ds.
Proof.
  induction elements as [|e es IH]; simpl.
  - intros _. now exists [].
  - destruct e as [|d]; simpl; [discriminate|].
    intros H. destruct (IH H) as [ds ->]. now exists (d :: ds).
Qed.

(** On an array of decision objects the handler is [Commit.POST]. *)
Lemma post_objects (ds : list Commit.decision) (w : world) :
  Request.POST plan clock (Request.Decisions (map Request.Object ds)) w
  = Commit.POST plan clock ds w.
Proof.
  assert (Ha : Request.applied_event (map Request.Object ds)
               = Commit.applied_event ds).
  { unfold Request.applied_event, Commit.applied_event.
    rewrite length_map. destruct ds; reflexivity. }
  assert (Hr : Request.requested_event (map Request.Object ds)
               = Commit.requested_event ds).
  { unfold Request.requested_event, Commit.requested_event.
    destruct ds; reflexivity. }
  unfold Request.POST, Commit.POST, try_catch.
  replace (Request.commit plan clock (Request.Decisions (map Request.Object ds)) w)
    with (Commit.commit plan clock ds w); [reflexivity|].
  unfold Request.commit, Commit.commit.
  apply bind_ext; [reflexivity|]. intros cfg w1.
  apply bind_ext; [intros w2; symmetry; apply each_objects|].
  intros [] w2. now rewrite length_map, Ha, Hr.
Qed.

(** The [try] block returns success or throws. *)
Lemma commit_body_outcome (b : Request.body) (w : world) :
  fst (Request.commit plan clock b w) = Returned Commit.Success
  \/ fst (Request.commit plan clock b w) = Thrown.
Proof.
  destruct b as [| |elements]; unfold Request.commit, Request.throw, bind.
  - now right.
  - destruct (perform _ _ _ w) as [[?|] ?]; now right.
  - repeat match goal with
           | |- context [match ?m with (_, _) => _ end] =>
               destruct m as [[?|] ?]; simpl; auto
           end.
Qed.

Lemma malformed_body_thrown (b : Request.body) (w : world) :
  Request.well_formed b = false ->
  fst (Request.commit plan clock b w) = Thrown.
Proof.
  destruct b as [| |elements]; unfold Request.commit, Request.throw, bind; simpl.
  - reflexivity.
  - intros _. destruct (perform _ _ _ w) as [[?|] ?]; reflexivity.
  - intros H. destruct (perform _ _ _ w) as [[?|] w1]; [|reflexivity].
    pose proof (each_null elements w1 H) as Hn.
    destruct (Request.each plan clock elements w1) as [[?|] ?];
      [discriminate Hn|reflexivity].
Qed.

End RequestFacts.

(** X1: the approval handler never throws and has two answers only,
    success or the generic 500.  A body that does not parse, whose
    [decisions] cannot be iterated or holds a [null] is answered 500,
    whatever the requests do.  A body that is an array of decision
    objects is answered success whenever no request throws, however many
    of its requests failed; on such a body the handler is the one over
    the list of its decisions. *)
Theorem commit_request_answers
        (plan : nat -> Client.fault) (clock : nat -> string)
        (b : Request.body) (w : Client.world) :
  let answer := fst (Request.POST plan clock b w) in
  (answer = Client.Returned Commit.Success
   \/ answer = Client.Returned (Commit.Failed 500 "Failed to commit approvals"))
  /\ (Request.well_formed b = false ->
      answer = Client.Returned (Commit.Failed 500 "Failed to commit approvals"))
  /\ (Request.well_formed b = true ->
      (forall k, plan k <> Client.Throws) ->
      answer = Client.Returned Commit.Success)
  /\ (forall ds,
         b = Request.Decisions (map Request.Object ds) ->
         Request.POST plan clock b w = Commit.POST plan clock ds w).
Proof.
  intros answer. subst answer. split; [|split; [|split]].
  - unfold Request.POST, Client.try_catch.
    destruct (commit_body_outcome plan clock b w) as [H | H];
      destruct (Request.commit plan clock b w) as [[a|] w']; simpl in *;
      try discriminate; [left; congruence | now right].
  - intros Hb. unfold Request.POST, Client.try_catch.
    pose proof (malformed_body_thrown plan clock b w Hb) as H.
    destruct (Request.commit plan clock b w) as [[a|] w']; simpl in *;
      [discriminate H | reflexivity].
  - intros Hb Hp. destruct b as [| |elements]; try discriminate Hb.
    destruct (objects_of elements Hb) as [ds ->].
    rewrite post_objects. now apply commit_succeeds_unless_thrown.
  - intros ds ->. apply post_objects.
Qed.

Lemma commit_request_answers_witness :
  fst (Request.POST (fun _ => Client.Rejects) Sample.clock
         (Request.Decisions [Request.Object Sample.alias_c1;
                             Request.Object Sample.approve_c2])
         (Commit.fresh (Sample.store true)))
  = Client.Returned Commit.Success
  /\ fst (Request.POST Client.no_fault Sample.clock
            (Request.Decisions [Request.Object Sample.approve_c2; Request.Null])
            (Commit.fresh (Sample.store true)))
     = Client.Returned (Commit.Failed 500 "Failed to commit approvals").
Proof.
  split.
  - apply (proj1 (proj2 (proj2
             (commit_request_answers (fun _ => Client.Rejects) Sample.clock
                (Request.Decisions [Request.Object Sample.alias_c1;
                                    Request.Object Sample.approve_c2])
                (Commit.fresh (Sample.store true)))))).
    + reflexivity.
    + intros k. discriminate.
  - apply (proj1 (proj2
             (commit_request_answers Client.no_fault Sample.clock
                (Request.Decisions [Request.Object Sample.approve_c2; Request.Null])
                (Commit.fresh (Sample.store true))))).
    reflexivity.
Defined.

(** X2: the foreign keys of the relations and of the aliases hold after
    every accepted request, and after the approval handler whatever the
    decisions and the failures: every edge and every alias points at
    existing topics. *)
Theorem references_kept :
  (forall r d d',
      Integrity.referential d -> Client.run_write r d = Some (d', tt) ->
      Integrity.referential d')
  /\ (forall plan clock ds,
         Client.keeps Integrity.referential (Commit.POST plan clock ds))
  /\ (forall p c ty wt ts rs,
         existsb (Db.same_edge p c ty) rs = false ->
         Db.has_topic c ts = false ->
         Db.upsert_relation p c ty wt ts rs = None).
Proof.
  split; [exact run_write_referential|]. split.
  - intros plan clock ds. apply post_keeps. exact run_write_referential.
  - intros p c ty wt ts rs He Hc. unfold Db.upsert_relation.
    now rewrite He, Hc, andb_false_r.
Qed.

Lemma references_kept_witness :
  Integrity.referential
    (Client.store
       (snd (Commit.POST Client.no_fault Sample.clock
                         [Sample.alias_c1; Sample.approve_c2]
                         (Commit.fresh (Sample.store true)))))
  /\ Db.upsert_relation "pricing" "pricing-model" "parent_child" 1
                        (Db.topics (Sample.store true)) [] = None.
Proof.
  destruct references_kept as (_ & Hk & Hr). split.
  - apply Hk. simpl. split.
    + intros r [].
    + intros a [<- | []]. reflexivity.
  - apply Hr; reflexivity.
Defined.

(** X3: whatever the decisions and the failures, the approval handler
    only appends to the event log, and it neither adds nor removes a
    candidate nor touches the session, suggested id, label or evidence of
    one: only the decision columns change. *)
Theorem commit_appends_and_frames (plan : nat -> Client.fault)
        (clock : nat -> string) (ds : list Commit.decision) (w : Client.world) :
  let after := Client.store (snd (Commit.POST plan clock ds w)) in
  Integrity.log_extends (Client.store w) after
  /\ Integrity.same_candidates (Client.store w) after.
Proof.
  split.
  - apply (post_keeps (Integrity.log_extends (Client.store w))
             (run_write_log (Client.store w))).
    exists []. now rewrite app_nil_r.
  - apply (post_keeps (Integrity.same_candidates (Client.store w))
             (run_write_candidates (Client.store w))).
    reflexivity.
Qed.

(** X4: a batch without an approved decision leaves the topics, the
    aliases and the relations as they were, whatever fails. *)
Theorem unapproved_batch_keeps_taxonomy (plan : nat -> Client.fault)
        (clock : nat -> string) (ds : list Commit.decision) (w : Client.world) :
  (forall d, In d ds -> Commit.equals (Commit.status d) "approved" = false) ->
  Integrity.same_taxonomy (Client.store w)
                          (Client.store (snd (Commit.POST plan clock ds w))).
Proof.
  intros Hds.
  set (Q := Integrity.same_taxonomy (Client.store w)).
  assert (Hev : forall e, Client.keeps Q (Commit.write plan (Db.InsertEvent e))).
  { intros e. apply keeps_perform. intros d d' [] Hd E.
    simpl in E. injection E as <-. exact Hd. }
  assert (Hk : Client.keeps Q (Commit.POST plan clock ds)).
  { unfold Commit.POST, Commit.commit.
    apply keeps_try_catch; [|apply keeps_ret].
    apply keeps_bind; [apply keeps_read|]. intros config.
    apply keeps_bind.
    - clear config. induction ds as [|d ds IH]; simpl; [apply keeps_ret|].
      apply keeps_bind.
      + intros w0 H0.
        destruct (not_approved_no_taxonomy_write clock plan d w0
                    (Hds d (or_introl eq_refl))) as (_ & Ht & Ha & Hr).
        destruct H0 as (H1 & H2 & H3). unfold Q, Integrity.same_taxonomy.
        rewrite Ht, Ha, Hr. auto.
      + intros _. apply IH. intros d' Hd'. apply Hds. now right.
    - intros _. apply keeps_bind.
      { destruct (0 <? _)%nat; [|apply keeps_ret].
        apply keeps_bind; [apply Hev|intros; apply keeps_ret]. }
      intros _. apply keeps_bind; [|intros; apply keeps_ret].
      destruct (_ && _); [|apply keeps_ret].
      apply keeps_try_catch; [|apply keeps_ret].
      apply keeps_bind; [apply Hev|intros; apply keeps_ret]. }
  apply Hk. unfold Q, Integrity.same_taxonomy. auto.
Qed.

Lemma unapproved_batch_keeps_taxonomy_witness :
  Integrity.same_taxonomy
    (Sample.store true)
    (Client.store
       (snd (Commit.POST (Sample.throws_at 3) Sample.clock
                         [Sample.reject_c1; Sample.reject_c1]
                         (Commit.fresh (Sample.store true))))).
Proof.
  apply (unapproved_batch_keeps_taxonomy (Sample.throws_at 3) Sample.clock
           [Sample.reject_c1; Sample.reject_c1] (Commit.fresh (Sample.store true))).
  intros d [<- | [<- | []]]; reflexivity.
Defined.

Section UpsertFacts.

Import Db Integrity.

Lemma put_put (tid lbl cby : string) (t : topic) :
  put tid lbl cby (put tid lbl cby t) = put tid lbl cby t.
Proof.
  unfold put. destruct (id t =? tid)%string eqn:E; simpl.
  - now rewrite String.eqb_refl.
  - now rewrite E.
Qed.

Lemma find_topic_put_same (tid lbl cby : string) (ts : list topic) :
  has_topic tid ts = true ->
  exists t, find_topic tid (map (put tid lbl cby) ts) = Some t
            /\ id t = tid /\ label t = lbl /\ created_by t = Some cby.
Proof.
  unfold has_topic, find_topic. induction ts as [|t ts IH]; simpl; [discriminate|].
  rewrite put_id. destruct (id t =? tid)%string eqn:E; simpl.
  - intros _. exists (put tid lbl cby t). unfold put. rewrite E. auto.
  - exact IH.
Qed.

Lemma find_topic_put_other (x tid lbl cby : string) (ts : list topic) :
  x <> tid -> find_topic x (map (put tid lbl cby) ts) = find_topic x ts.
Proof.
  intros Hx. unfold find_topic. induction ts as [|t ts IH]; simpl; [reflexivity|].
  rewrite put_id. destruct (id t =? x)%string eqn:E; [|exact IH].
  unfold put. destruct (id t =? tid)%string eqn:E2; [|reflexivity].
  apply String.eqb_eq in E, E2. congruence.
Qed.

Lemma find_topic_snoc_miss (x : string) (ts : list topic) (t : topic) :
  id t <> x -> find_topic x (ts ++ [t]) = find_topic x ts.
Proof.
  intros Hx. unfold find_topic. induction ts as [|u ts IH]; simpl.
  - apply String.eqb_neq in Hx. now rewrite Hx.
  - destruct (id u =? x)%string; [reflexivity|exact IH].
Qed.

Lemma find_topic_snoc_new (ts : list topic) (t : topic) :
  has_topic (id t) ts = false -> find_topic (id t) (ts ++ [t]) = Some t.
Proof.
  unfold find_topic, has_topic. induction ts as [|u ts IH]; simpl.
  - now rewrite String.eqb_refl.
  - intros H. apply orb_false_iff in H as [H1 H2]. rewrite H1. now apply IH.
Qed.

Lemma label_taken_put (tid lbl cby : string) (ts : list topic) :
  label_taken tid lbl (map (put tid lbl cby) ts) = label_taken tid lbl ts.
Proof.
  unfold label_taken. induction ts as [|t ts IH]; simpl; [reflexivity|].
  rewrite IH, put_id. unfold put.
  destruct (id t =? tid)%string eqn:E; reflexivity.
Qed.

Lemma label_taken_snoc (tid lbl : string) (ts : list topic) (t : topic) :
  id t = tid -> label_taken tid lbl (ts ++ [t]) = label_taken tid lbl ts.
Proof.
  intros <-. unfold label_taken. rewrite existsb_app. simpl.
  rewrite String.eqb_refl. simpl. now rewrite !orb_false_r.
Qed.

Lemma edge_in_after_upsert (p c ty : string) (w : Z) (ts : list topic)
      (rs rs' : list topic_relation) :
  upsert_relation p c ty w ts rs = Some rs' ->
  In (mkRelation p c ty (Some w)) rs'.
Proof.
  unfold upsert_relation. destruct (existsb _ rs) eqn:Hex.
  - intros [= <-]. apply existsb_exists in Hex as (r & Hr & Hs).
    apply in_map_iff. exists r. now rewrite Hs.
  - destruct (_ && _); [|discriminate]. intros [= <-].
    apply in_app_iff. right. now left.
Qed.

Lemma same_edge_eq (p c ty : string) (r : topic_relation) :
  same_edge p c ty r = true ->
  parent_id r = p /\ child_id r = c /\ relation_type r = ty.
Proof.
  unfold same_edge. intros H.
  apply andb_true_iff in H as [H H3]. apply andb_true_iff in H as [H1 H2].
  apply String.eqb_eq in H1, H2, H3. auto.
Qed.

Lemma edge_kept_by_upsert (p c ty : string) (w : Z) (ts : list topic)
      (rs rs' : list topic_relation) (p0 c0 : string) :
  upsert_relation p c ty w ts rs = Some rs' ->
  In (mkRelation p0 c0 ty (Some w)) rs ->
  In (mkRelation p0 c0 ty (Some w)) rs'.
Proof.
  unfold upsert_relation. destruct (existsb _ rs).
  - intros [= <-] Hin. apply in_map_iff.
    exists (mkRelation p0 c0 ty (Some w)). split; [|exact Hin].
    destruct (same_edge p c ty _) eqn:Hs; [|reflexivity].
    apply same_edge_eq in Hs as (H1 & H2 & _). simpl in *. now subst.
  - destruct (_ && _); [|discriminate]. intros [= <-] Hin.
    apply in_app_iff. now left.
Qed.

End UpsertFacts.

(** X5: an accepted topic upsert can be read back: the row with the key
    carries the label and the creator of the request, every other key
    finds the row it found before, and the same upsert again is accepted
    and changes nothing. *)
Theorem upsert_topic_read_back (tid lbl cby : string) (ts ts' : list Db.topic) :
  Db.upsert_topic tid lbl cby ts = Some ts' ->
  (exists t, Integrity.find_topic tid ts' = Some t
             /\ Db.id t = tid /\ Db.label t = lbl /\ Db.created_by t = Some cby)
  /\ (forall x, x <> tid -> Integrity.find_topic x ts' = Integrity.find_topic x ts)
  /\ Db.upsert_topic tid lbl cby ts' = Some ts'.
Proof.
  unfold Db.upsert_topic.
  destruct (Db.label_taken tid lbl ts) eqn:Hfree; [discriminate|].
  destruct (Db.has_topic tid ts) eqn:Hhas; intros [= <-].
  - split; [now apply find_topic_put_same|].
    split; [intros x Hx; now apply find_topic_put_other|].
    rewrite label_taken_put, Hfree, has_topic_put, Hhas.
    rewrite map_map. f_equal. apply map_ext. intros t. apply put_put.
  - split.
    { exists (Db.mkTopic tid lbl None "active" (Some cby)).
      split; [|simpl; auto].
      apply (find_topic_snoc_new ts (Db.mkTopic tid lbl None "active" (Some cby))).
      exact Hhas. }
    split.
    { intros x Hx. apply find_topic_snoc_miss. simpl. congruence. }
    rewrite label_taken_snoc by reflexivity. rewrite Hfree.
    assert (Hin : Db.has_topic tid (ts ++ [Db.mkTopic tid lbl None "active" (Some cby)])
                  = true).
    { unfold Db.has_topic. rewrite existsb_app. simpl.
      rewrite String.eqb_refl. now rewrite orb_true_r. }
    rewrite Hin, map_app. simpl.
    rewrite (put_elsewhere tid lbl cby ts (has_topic_false tid ts Hhas)).
    unfold Db.put. simpl. now rewrite String.eqb_refl.
Qed.

Lemma upsert_topic_read_back_witness :
  Db.upsert_topic "onboarding" "Onboarding" "ui"
    (Db.topics (Sample.store true) ++ [Db.mkTopic "onboarding" "Onboarding" None "active" (Some "ui")])
  = Some (Db.topics (Sample.store true)
          ++ [Db.mkTopic "onboarding" "Onboarding" None "active" (Some "ui")])%list.
Proof.
  apply (upsert_topic_read_back "onboarding" "Onboarding" "ui"
           (Db.topics (Sample.store true))).
  reflexivity.
Defined.

(** X6: the store checks no acyclicity: between two existing topics the
    edge and its reverse are both accepted, one after the other, and so is
    a self-loop; both edges are then in the table. *)
Theorem relation_cycle_accepted (a b ty : string) (wt : Z)
        (ts : list Db.topic) (rs : list Db.topic_relation) :
  Db.has_topic a ts = true -> Db.has_topic b ts = true ->
  exists rs1 rs2,
    Db.upsert_relation a b ty wt ts rs = Some rs1
    /\ Db.upsert_relation b a ty wt ts rs1 = Some rs2
    /\ In (Db.mkRelation a b ty (Some wt)) rs2
    /\ In (Db.mkRelation b a ty (Some wt)) rs2.
Proof.
  intros Ha Hb.
  assert (Hacc : forall p c l, Db.has_topic p ts = true -> Db.has_topic c ts = true ->
                               exists l', Db.upsert_relation p c ty wt ts l = Some l').
  { intros p c l Hp Hc. unfold Db.upsert_relation.
    destruct (existsb _ l); [eauto|]. rewrite Hp, Hc. simpl. eauto. }
  destruct (Hacc a b rs Ha Hb) as [rs1 E1].
  destruct (Hacc b a rs1 Hb Ha) as [rs2 E2].
  exists rs1, rs2. repeat split; auto.
  - apply (edge_kept_by_upsert _ _ _ _ _ _ _ _ _ E2).
    apply (edge_in_after_upsert _ _ _ _ _ _ _ E1).
  - apply (edge_in_after_upsert _ _ _ _ _ _ _ E2).
Qed.

Lemma relation_cycle_accepted_witness :
  exists rs1 rs2,
    Db.upsert_relation "pricing" "pricing" "parent_child" 1
                       (Db.topics (Sample.store true)) [] = Some rs1
    /\ Db.upsert_relation "pricing" "pricing" "parent_child" 1
                          (Db.topics (Sample.store true)) rs1 = Some rs2
    /\ In (Db.mkRelation "pricing" "pricing" "parent_child" (Some 1%Z)) rs2
    /\ In (Db.mkRelation "pricing" "pricing" "parent_child" (Some 1%Z)) rs2.
Proof.
  apply (relation_cycle_accepted "pricing" "pricing" "parent_child" 1
           (Db.topics (Sample.store true)) []); reflexivity.
Defined.

(** ** What an approved decision leaves in the store *)

Section ApprovedRows.

Import Client.

Variable plan : nat -> fault.
Variable clock : nat -> string.

(** The status update of a decision, when it does not throw: it
    returns, and leaves the taxonomy tables and what the handler reads of
    the candidate as they were. *)
Lemma update_step (d : Commit.decision) (w : world) :
  plan (List.length (log w)) <> Throws ->
  exists res s1,
    Commit.write plan
      (Db.UpdateCandidate (Commit.id d) (Commit.status d)
                          (clock (List.length (log w)))) w
    = (Returned res,
       mkWorld s1
         (log w ++ [Db.UpdateCandidate (Commit.id d) (Commit.status d)
                                       (clock (List.length (log w)))])%list)
    /\ Integrity.same_taxonomy (store w) s1
    /\ Commit.approved_write d (Commit.candidate_of d s1)
       = Commit.approved_write d (Commit.candidate_of d (store w)).
Proof.
  intros Hp. unfold Commit.write, perform.
  destruct (plan (List.length (log w))); [| |congruence].
  - simpl. destruct (Commit.id d) as [cid|] eqn:Eid.
    + eexists _, _. split; [reflexivity|]. split; [repeat split|].
      rewrite <- (approved_write_read_back clock d w).
      unfold Commit.candidate_of, Commit.read_back. now rewrite Eid.
    + eexists _, _. split; [reflexivity|]. split; [repeat split|reflexivity].
  - eexists _, _. split; [reflexivity|]. split; [repeat split|reflexivity].
Qed.

Lemma select_step (d : Commit.decision) (s : Db.db) (l : list Db.request) :
  plan (List.length l) = NoFault ->
  perform plan (Db.SelectCandidate (Commit.id d))
          (run_select_candidate (Commit.id d)) (mkWorld s l)
  = (Returned (Commit.candidate_of d s),
     mkWorld s (l ++ [Db.SelectCandidate (Commit.id d)])%list).
Proof.
  intros H. unfold perform, run_select_candidate, Commit.candidate_of.
  simpl. rewrite H. destruct (Commit.id d) as [c|]; [|reflexivity].
  destruct (Db.select_candidate c _); reflexivity.
Qed.

(** The event row of a decision leaves the taxonomy tables alone,
    however its insert ends. *)
Lemma event_step (e : Db.event) (w : world) :
  Integrity.same_taxonomy
    (store w)
    (store (snd (bind (Commit.write plan (Db.InsertEvent e))
                      (fun _ => ret tt) w))).
Proof.
  unfold bind, Commit.write, perform, ret.
  destruct (plan _); simpl; repeat split.
Qed.

(** An approved decision whose update does not throw and whose read and
    write meet no fault: the taxonomy tables afterwards are those the
    store gives for the chosen write, applied to the tables before. *)
Lemma process_approved_effect (d : Commit.decision) (w : world) :
  Commit.equals (Commit.status d) "approved" = true ->
  plan (List.length (log w)) <> Throws ->
  plan (S (List.length (log w))) = NoFault ->
  plan (S (S (List.length (log w)))) = NoFault ->
  exists s1,
    Integrity.same_taxonomy (store w) s1
    /\ Integrity.same_taxonomy
         (match run_write (Commit.approved_write
                             d (Commit.candidate_of d (store w))) s1 with
          | Some (s2, _) => s2
          | None => s1
          end)
         (store (snd (Commit.process plan clock d w))).
Proof.
  intros Hst H0 H1 H2.
  destruct (update_step d w H0) as (res & s1 & E1 & T1 & A1).
  exists s1. split; [exact T1|].
  unfold Commit.process. unfold bind at 1. rewrite E1, Hst.
  unfold bind at 1. unfold bind at 1.
  rewrite select_step by (now rewrite length_snoc).
  rewrite A1. unfold bind at 1.
  unfold Commit.write at 1, perform at 1. simpl log. simpl store.
  rewrite !length_snoc, H2.
  destruct (run_write _ s1) as [[s2 []]|]; unfold ret at 1; apply event_step.
Qed.

End ApprovedRows.

(** C3, amended: an approved decision whose status update does not throw
    and whose candidate read and taxonomy write meet no failure outside
    the store's constraints.  With action "alias" and a target topic id
    present, an alias row mapping the candidate's label to the target is
    upserted: it is in [topic_aliases] afterwards when the target is a
    topic and the alias text is free.  With action "subtopic" and a target
    topic id present, a parent/child relation row from the target to the
    candidate's suggested topic id is upserted when both are topics.  In
    every other case (also "alias" or "subtopic" without a target) a topic
    row with the candidate's suggested id and label is upserted: the row
    with that key carries the label afterwards when no other topic has it,
    ignoring case.  Label and suggested id are those of the stored
    candidate row, "unknown" standing in for a missing row or an empty
    value.  Each case leaves the other two tables as they were.  A
    decision with another status writes no topic, alias or relation row,
    whatever fails. *)
Theorem approved_decision_rows
        (plan : nat -> Client.fault) (clock : nat -> string)
        (d : Commit.decision) (w : Client.world) :
  let k := List.length (Client.log w) in
  let before := Client.store w in
  let after := Client.store (snd (Commit.process plan clock d w)) in
  let cand := Commit.candidate_of d before in
  let label := Js.or_else (option_map Db.cand_label cand) "unknown" in
  let suggested :=
    Js.or_else (match cand with
                | Some c => Db.topic_id_suggested c
                | None => None
                end) "unknown" in
  (Commit.equals (Commit.status d) "approved" = true ->
   plan k <> Client.Throws ->
   plan (S k) = Client.NoFault ->
   plan (S (S k)) = Client.NoFault ->
   (forall t,
       Commit.equals (Commit.action d) "alias" = true ->
       Commit.targetCoreId d = Some t -> t <> "" ->
       Db.topics after = Db.topics before
       /\ Db.topic_relations after = Db.topic_relations before
       /\ (Db.has_topic t (Db.topics before) = true ->
           Db.alias_taken label (Db.topic_aliases before) = false ->
           Db.alias_taken_nocase t label (Db.topic_aliases before) = false ->
           Db.topic_aliases after
           = (Db.topic_aliases before ++ [Db.mkAlias label t])%list))
   /\ (forall t,
          Commit.equals (Commit.action d) "subtopic" = true ->
          Commit.targetCoreId d = Some t -> t <> "" ->
          Db.topics after = Db.topics before
          /\ Db.topic_aliases after = Db.topic_aliases before
          /\ (Db.has_topic t (Db.topics before) = true ->
              Db.has_topic suggested (Db.topics before) = true ->
              In (Db.mkRelation t suggested "parent_child" (Some 1%Z))
                 (Db.topic_relations after)))
   /\ ((Commit.equals (Commit.action d) "alias"
        || Commit.equals (Commit.action d) "subtopic")
       && Js.truthy (Commit.targetCoreId d) = false ->
       Db.topic_aliases after = Db.topic_aliases before
       /\ Db.topic_relations after = Db.topic_relations before
       /\ (Db.label_taken suggested label (Db.topics before) = false ->
           exists row,
             Integrity.find_topic suggested (Db.topics after) = Some row
             /\ Db.id row = suggested
             /\ Db.label row = label
             /\ Db.created_by row = Some "ui")))
  /\ (Commit.equals (Commit.status d) "approved" = false ->
      Commit.taxonomy_writes plan clock d w = []
      /\ Db.topics after = Db.topics before
      /\ Db.topic_aliases after = Db.topic_aliases before
      /\ Db.topic_relations after = Db.topic_relations before).
Proof.
  intros k before after cand label suggested.
  split; [|apply not_approved_no_taxonomy_write].
  intros Hst H0 H1 H2.
  destruct (process_approved_effect plan clock d w Hst H0 H1 H2)
    as (s1 & (T1 & A1 & R1) & Heff).
  fold before in T1, A1, R1, Heff. fold cand in Heff.
  unfold Commit.approved_write in Heff. fold label in Heff. fold suggested in Heff.
  fold after in Heff.
  split; [|split].
  - intros t Ha Ht Hne. rewrite Ha, Ht in Heff. simpl in Heff.
    apply String.eqb_neq in Hne. rewrite Hne in Heff. simpl in Heff.
    rewrite T1, A1 in Heff.
    destruct (Db.upsert_alias t label (Db.topics before) (Db.topic_aliases before))
      as [als|] eqn:Eup; simpl in Heff; destruct Heff as (Ht' & Ha' & Hr').
    + simpl in *. split; [congruence|]. split; [congruence|].
      intros Hhas Hfree Hfree'. unfold Db.upsert_alias in Eup.
      rewrite Hhas, Hfree, Hfree' in Eup. simpl in Eup. congruence.
    + split; [congruence|]. split; [congruence|].
      intros Hhas Hfree Hfree'. unfold Db.upsert_alias in Eup.
      rewrite Hhas, Hfree, Hfree' in Eup. discriminate Eup.
  - intros t Ha Ht Hne.
    assert (Hal : Commit.equals (Commit.action d) "alias" = false).
    { unfold Commit.equals in *. destruct (Commit.action d) as [a|]; [|reflexivity].
      apply String.eqb_eq in Ha. subst a. reflexivity. }
    rewrite Hal, Ha, Ht in Heff. simpl in Heff.
    apply String.eqb_neq in Hne. rewrite Hne in Heff. simpl in Heff.
    rewrite T1, R1 in Heff.
    destruct (Db.upsert_relation t suggested "parent_child" 1 (Db.topics before)
                                 (Db.topic_relations before))
      as [rs|] eqn:Eup; simpl in Heff; destruct Heff as (Ht' & Ha' & Hr').
    + simpl in *. split; [congruence|]. split; [congruence|].
      intros _ _. rewrite Hr'.
      apply (edge_in_after_upsert _ _ _ _ _ _ _ Eup).
    + split; [congruence|]. split; [congruence|].
      intros Hp Hc. unfold Db.upsert_relation in Eup.
      rewrite Hp, Hc in Eup. simpl in Eup.
      destruct (existsb _ _); discriminate Eup.
  - intros Hno.
    assert (Hw : (if Commit.equals (Commit.action d) "alias"
                     && Js.truthy (Commit.targetCoreId d)
                  then Db.UpsertAlias (Js.or_else (Commit.targetCoreId d) "") label
                  else if Commit.equals (Commit.action d) "subtopic"
                          && Js.truthy (Commit.targetCoreId d)
                       then Db.UpsertRelation (Js.or_else (Commit.targetCoreId d) "")
                                              suggested "parent_child" 1
                       else Db.UpsertTopic suggested label "ui")
                 = Db.UpsertTopic suggested label "ui").
    { destruct (Commit.equals (Commit.action d) "alias"),
        (Commit.equals (Commit.action d) "subtopic"),
        (Js.truthy (Commit.targetCoreId d)); simpl in *;
        try discriminate; reflexivity. }
    rewrite Hw in Heff. simpl in Heff. rewrite T1 in Heff.
    destruct (Db.upsert_topic suggested label "ui" (Db.topics before))
      as [ts|] eqn:Eup; simpl in Heff; destruct Heff as (Ht' & Ha' & Hr').
    + simpl in *. split; [congruence|]. split; [congruence|].
      intros Hfree. rewrite Ht'. unfold Db.upsert_topic in Eup.
      rewrite Hfree in Eup.
      destruct (Db.has_topic suggested (Db.topics before)) eqn:Hhas;
        injection Eup as <-.
      * now apply find_topic_put_same.
      * exists (Db.mkTopic suggested label None "active" (Some "ui")).
        split; [|simpl; auto].
        apply (find_topic_snoc_new (Db.topics before)
                 (Db.mkTopic suggested label None "active" (Some "ui"))).
        exact Hhas.
    + split; [congruence|]. split; [congruence|].
      intros Hfree. unfold Db.upsert_topic in Eup. rewrite Hfree in Eup.
      destruct (Db.has_topic _ _); discriminate Eup.
Qed.

Lemma approved_decision_rows_witness :
  let after :=
    Client.store (snd (Commit.process (Faults.rejects_at 3) Sample.clock
                                      Sample.approve_c2
                                      (Commit.fresh (Sample.store false)))) in
  Db.topic_aliases after = Db.topic_aliases (Sample.store false)
  /\ Db.topic_relations after = Db.topic_relations (Sample.store false)
  /\ exists row,
      Integrity.find_topic "onboarding" (Db.topics after) = Some row
      /\ Db.id row = "onboarding"
      /\ Db.label row = "Onboarding"
      /\ Db.created_by row = Some "ui".
Proof.
  intros after.
  destruct (approved_decision_rows (Faults.rejects_at 3) Sample.clock
              Sample.approve_c2 (Commit.fresh (Sample.store false)))
    as [Happroved _].
  destruct (Happroved eq_refl ltac:(discriminate) eq_refl eq_refl)
    as (_ & _ & Htopic).
  destruct (Htopic eq_refl) as (Ha & Hr & Hrow).
  split; [exact Ha|]. split; [exact Hr|].
  exact (Hrow eq_refl).
Defined.

(** X18: approving a candidate as a subtopic of a target adds no
    relation row when the candidate's suggested id is not yet a topic:
    the handler creates no topic for it, the store refuses the edge on
    the foreign key of the child, and the three taxonomy tables are as
    they were. *)
Theorem subtopic_child_not_created
        (plan : nat -> Client.fault) (clock : nat -> string)
        (d : Commit.decision) (w : Client.world) (t : string) :
  let k := List.length (Client.log w) in
  let before := Client.store w in
  let after := Client.store (snd (Commit.process plan clock d w)) in
  let cand := Commit.candidate_of d before in
  let suggested :=
    Js.or_else (match cand with
                | Some c => Db.topic_id_suggested c
                | None => None
                end) "unknown" in
  Commit.equals (Commit.status d) "approved" = true ->
  Commit.equals (Commit.action d) "subtopic" = true ->
  Commit.targetCoreId d = Some t -> t <> "" ->
  plan k <> Client.Throws ->
  plan (S k) = Client.NoFault ->
  plan (S (S k)) = Client.NoFault ->
  Integrity.edges_closed before ->
  Db.has_topic suggested (Db.topics before) = false ->
  Db.upsert_relation t suggested "parent_child" 1
                     (Db.topics before) (Db.topic_relations before) = None
  /\ Integrity.same_taxonomy before after
  /\ Db.has_topic suggested (Db.topics after) = false.
Proof.
  intros k before after cand suggested Hst Ha Ht Hne H0 H1 H2 Hclosed Hmiss.
  assert (Hrefused : Db.upsert_relation t suggested "parent_child" 1
                       (Db.topics before) (Db.topic_relations before) = None).
  { unfold Db.upsert_relation.
    destruct (existsb _ (Db.topic_relations before)) eqn:Hex.
    - apply existsb_exists in Hex as (r & Hr & Hs).
      apply same_edge_eq in Hs as (_ & Hc & _).
      destruct (Hclosed r Hr) as [_ Hchild]. congruence.
    - rewrite Hmiss. now rewrite andb_false_r. }
  destruct (process_approved_effect plan clock d w Hst H0 H1 H2)
    as (s1 & (T1 & A1 & R1) & Heff).
  fold before in T1, A1, R1, Heff. fold cand in Heff. fold after in Heff.
  unfold Commit.approved_write in Heff. fold suggested in Heff.
  assert (Hal : Commit.equals (Commit.action d) "alias" = false).
  { unfold Commit.equals in *. destruct (Commit.action d) as [a|]; [|reflexivity].
    apply String.eqb_eq in Ha. subst a. reflexivity. }
  rewrite Hal, Ha, Ht in Heff. simpl in Heff.
  apply String.eqb_neq in Hne. rewrite Hne in Heff. simpl in Heff.
  rewrite T1, R1, Hrefused in Heff. simpl in Heff.
  destruct Heff as (Ht' & Ha' & Hr').
  split; [exact Hrefused|].
  assert (Hsame : Integrity.same_taxonomy before after).
  { repeat split; congruence. }
  split; [exact Hsame|].
  destruct Hsame as (Hts & _). now rewrite Hts.
Qed.

Lemma subtopic_child_not_created_witness :
  let d := Commit.mkDecision (Some "c2") (Some "approved") (Some "subtopic")
                             (Some "pricing") (Some "s1") in
  let run := Commit.process Client.no_fault Sample.clock d
                            (Commit.fresh (Sample.store false)) in
  In (Db.UpsertRelation "pricing" "onboarding" "parent_child" 1)
     (Client.log (snd run))
  /\ Integrity.same_taxonomy (Sample.store false) (Client.store (snd run)).
Proof.
  intros d run. split; [right; right; left; reflexivity|].
  apply (subtopic_child_not_created Client.no_fault Sample.clock d
           (Commit.fresh (Sample.store false)) "pricing");
    try reflexivity; try discriminate.
  intros r [].
Defined.

(** X7: an alias text is attached to one topic at most: the upsert of a
    text some topic already has as an alias is refused for every target
    topic, and the uniqueness of alias texts is kept by every accepted
    request and by the approval handler. *)
Theorem alias_text_unique_kept :
  (forall tid x ts als,
      In x als -> Db.upsert_alias tid (Db.alias x) ts als = None)
  /\ (forall r d d',
         Integrity.alias_text_unique d -> Client.run_write r d = Some (d', tt) ->
         Integrity.alias_text_unique d')
  /\ (forall plan clock ds,
         Client.keeps Integrity.alias_text_unique (Commit.POST plan clock ds)).
Proof.
  split; [|split].
  - intros tid x ts als Hin. unfold Db.upsert_alias.
    destruct (negb _); [reflexivity|].
    assert (H : Db.alias_taken (Db.alias x) als = true).
    { apply alias_taken_in. now apply in_map. }
    now rewrite H.
  - exact run_write_alias_text.
  - intros plan clock ds. apply post_keeps. exact run_write_alias_text.
Qed.

Lemma alias_text_unique_kept_witness :
  let onboarding := Db.mkTopic "onboarding" "Onboarding" None "active" (Some "ui") in
  let ts := [Sample.pricing; onboarding] in
  let als := Db.topic_aliases (Sample.store true) in
  Db.has_topic "onboarding" ts = true
  /\ Db.upsert_alias "onboarding" "pricing model" ts als = None
  /\ Db.upsert_alias "onboarding" "getting started" ts als
     = Some (als ++ [Db.mkAlias "getting started" "onboarding"])%list.
Proof.
  intros onboarding ts als. split; [reflexivity|]. split; [|reflexivity].
  apply (proj1 alias_text_unique_kept "onboarding"
               (Db.mkAlias "pricing model" "pricing") ts als).
  left. reflexivity.
Defined.

(** ** The taxonomy page: graph and search *)

Section ViewFacts.

Lemma lower_char_idempotent (c : ascii) :
  Js.lower_char (Js.lower_char c) = Js.lower_char c.
Proof.
  destruct c as [[] [] [] [] [] [] [] []]; vm_compute; reflexivity.
Qed.

Lemma toLowerCase_idempotent (s : string) :
  Js.toLowerCase (Js.toLowerCase s) = Js.toLowerCase s.
Proof.
  unfold Js.toLowerCase. induction s as [|c s IH]; simpl; [reflexivity|].
  now rewrite lower_char_idempotent, IH.
Qed.

Lemma prefix_app (b c : string) : String.prefix b (b ++ c) = true.
Proof.
  induction b as [|x b IH]; simpl; [destruct c; reflexivity|].
  destruct (ascii_dec x x) as [_|N]; [exact IH|congruence].
Qed.

Lemma includes_prefix (s b : string) :
  String.prefix b s = true -> Js.includes s b = true.
Proof.
  intros H. destruct s; cbn [Js.includes]; now rewrite H.
Qed.

Lemma includes_middle (a b c : string) : Js.includes (a ++ b ++ c) b = true.
Proof.
  induction a as [|x a IH].
  - apply includes_prefix. exact (prefix_app b c).
  - change (Js.includes (String x (a ++ b ++ c)) b = true).
    simpl. rewrite IH. apply orb_true_r.
Qed.

Lemma string_app_empty (s : string) : s ++ "" = s.
Proof. induction s as [|c s IH]; simpl; [reflexivity|now rewrite IH]. Qed.

Lemma includes_empty (s : string) : Js.includes s "" = true.
Proof. destruct s; reflexivity. Qed.

End ViewFacts.

(** X8: the search box of the taxonomy page: an empty term shows every
    topic; a term and its lower-cased form show the same topics; and a
    topic is shown whenever its lower-cased label, or one of its
    lower-cased aliases, contains the lower-cased term, so in particular
    when the label or an alias is the term up to case. *)
Theorem search_ignores_case (topics : list Taxonomy.Topic) (searchTerm : string) :
  TaxonomyView.filteredTopics topics "" = topics
  /\ TaxonomyView.filteredTopics topics (Js.toLowerCase searchTerm)
     = TaxonomyView.filteredTopics topics searchTerm
  /\ (forall t a c,
         In t topics ->
         Js.toLowerCase (Db.label (Taxonomy.row t))
         = a ++ Js.toLowerCase searchTerm ++ c ->
         In t (TaxonomyView.filteredTopics topics searchTerm))
  /\ (forall t alias a c,
         In t topics -> In alias (Taxonomy.aliases t) ->
         Js.toLowerCase alias = a ++ Js.toLowerCase searchTerm ++ c ->
         In t (TaxonomyView.filteredTopics topics searchTerm))
  /\ (forall t,
         In t topics ->
         Js.toLowerCase (Db.label (Taxonomy.row t)) = Js.toLowerCase searchTerm
         \/ (exists alias, In alias (Taxonomy.aliases t)
                           /\ Js.toLowerCase alias = Js.toLowerCase searchTerm) ->
         In t (TaxonomyView.filteredTopics topics searchTerm)).
Proof.
  unfold TaxonomyView.filteredTopics.
  split.
  { induction topics as [|t ts IH]; simpl; [reflexivity|].
    unfold TaxonomyView.shown at 1. simpl Js.toLowerCase.
    rewrite includes_empty. simpl. now rewrite IH. }
  split.
  { apply filter_ext. intros t. unfold TaxonomyView.shown.
    now rewrite toLowerCase_idempotent. }
  assert (Hlabel : forall t a c,
             In t topics ->
             Js.toLowerCase (Db.label (Taxonomy.row t))
             = a ++ Js.toLowerCase searchTerm ++ c ->
             In t (filter (TaxonomyView.shown searchTerm) topics)).
  { intros t a c Hin Hl. apply filter_In. split; [exact Hin|].
    unfold TaxonomyView.shown. rewrite Hl. now rewrite includes_middle. }
  assert (Halias : forall t alias a c,
             In t topics -> In alias (Taxonomy.aliases t) ->
             Js.toLowerCase alias = a ++ Js.toLowerCase searchTerm ++ c ->
             In t (filter (TaxonomyView.shown searchTerm) topics)).
  { intros t alias a c Hin Ha Hl. apply filter_In. split; [exact Hin|].
    unfold TaxonomyView.shown. apply orb_true_iff. right.
    apply existsb_exists. exists alias. split; [exact Ha|].
    rewrite Hl. apply includes_middle. }
  split; [exact Hlabel|]. split; [exact Halias|].
  intros t Hin [Hl | (alias & Ha & Hl)].
  - apply (Hlabel t "" ""); [exact Hin|].
    rewrite Hl. simpl. now rewrite string_app_empty.
  - apply (Halias t alias "" ""); [exact Hin | exact Ha|].
    rewrite Hl. simpl. now rewrite string_app_empty.
Qed.

Lemma search_ignores_case_witness :
  let t := Taxonomy.mkTopic Sample.pricing ["pricing model"] [] [] in
  In t (TaxonomyView.filteredTopics [t] "RICI")
  /\ In t (TaxonomyView.filteredTopics [t] "Pricing MODEL").
Proof.
  intros t. split.
  - apply (proj1 (proj2 (proj2 (search_ignores_case [t] "RICI"))) t "p" "ng").
    + left. reflexivity.
    + reflexivity.
  - apply (proj2 (proj2 (proj2 (proj2 (search_ignores_case [t] "Pricing MODEL")))) t).
    + left. reflexivity.
    + right. exists "pricing model". split; [left; reflexivity | reflexivity].
Defined.

(** X9: the graph of the taxonomy page has one node per topic row, in the
    order of the query; between two of its nodes "child of" and "parent
    of" mirror each other; and every alias row of a topic is in that
    topic's alias list. *)
Theorem graph_mirrors_relations
        (topicsData : option (list Db.topic))
        (aliasesData : option (list Db.topic_alias))
        (relationsData : option (list Db.topic_relation)) :
  let g := Taxonomy.build topicsData aliasesData relationsData in
  map Taxonomy.row g = Taxonomy.or_empty topicsData
  /\ (forall p c, In p g -> In c g ->
                  (In (Db.id (Taxonomy.row c)) (Taxonomy.children p)
                   <-> In (Db.id (Taxonomy.row p)) (Taxonomy.parents c)))
  /\ (forall t a, In t g -> In a (Taxonomy.or_empty aliasesData) ->
                  Db.topic_id a = Db.id (Taxonomy.row t) ->
                  In (Db.alias a) (Taxonomy.aliases t)).
Proof.
  intros g. subst g. unfold Taxonomy.build. split; [|split].
  - rewrite map_map. simpl. apply map_id.
  - intros p c Hp Hc.
    apply in_map_iff in Hp as (tp & <- & _).
    apply in_map_iff in Hc as (tc & <- & _). simpl.
    rewrite !in_map_iff. split.
    + intros (r & Hr & Hin). apply filter_In in Hin as [Hin Hpar].
      apply String.eqb_eq in Hpar. exists r. split; [exact Hpar|].
      apply filter_In. split; [exact Hin|]. now apply String.eqb_eq.
    + intros (r & Hr & Hin). apply filter_In in Hin as [Hin Hch].
      apply String.eqb_eq in Hch. exists r. split; [exact Hch|].
      apply filter_In. split; [exact Hin|]. now apply String.eqb_eq.
  - intros t a Ht Ha Hid.
    apply in_map_iff in Ht as (tt' & <- & _). simpl in *.
    apply in_map. apply filter_In. split; [exact Ha|]. now apply String.eqb_eq.
Qed.

Lemma graph_mirrors_relations_witness :
  let tiers := Db.mkTopic "tiers" "Tiers" None "active" None in
  let edge := Db.mkRelation "pricing" "tiers" "parent_child" (Some 1%Z) in
  let p := Taxonomy.mkTopic Sample.pricing [] ["tiers"] [] in
  let c := Taxonomy.mkTopic tiers [] [] ["pricing"] in
  Taxonomy.build (Some [Sample.pricing; tiers]) None (Some [edge]) = [p; c]
  /\ (In (Db.id (Taxonomy.row c)) (Taxonomy.children p)
      <-> In (Db.id (Taxonomy.row p)) (Taxonomy.parents c)).
Proof.
  intros tiers edge p c. split; [reflexivity|].
  apply (proj1 (proj2 (graph_mirrors_relations
                         (Some [Sample.pricing; tiers]) None (Some [edge])))).
  - left. reflexivity.
  - right. left. reflexivity.
Defined.

(** ** More on the ingestion fallback *)

Section FallbackFacts.

Import Ingest.

Lemma window_chunk_shape (sid : string) (i : nat) (window : list string) :
  Forall (FallbackShape.window_shape sid i) (window_chunk sid i window).
Proof.
  unfold window_chunk. destruct (20 <? _)%nat eqn:E; constructor; [|constructor].
  apply Nat.ltb_lt in E. unfold FallbackShape.window_shape.
  cbn [chunk_session_id chunk_text start_sec end_sec].
  split; [reflexivity|]. split; [exact E|].
  exists i. rewrite Nat.sub_diag. repeat split; auto.
  - lia.
  - f_equal. change (Z.of_nat chunkSize) with 2%Z. lia.
Qed.

Lemma window_shape_later (sid : string) (i : nat) (c : chunk) :
  FallbackShape.window_shape sid (i + chunkSize) c -> FallbackShape.window_shape sid i c.
Proof.
  unfold FallbackShape.window_shape, chunkSize. intros (H1 & H2 & j & Hj & Hev & Hs & He).
  split; [exact H1|]. split; [exact H2|].
  exists j. split; [lia|]. split; [|auto].
  replace (j - i)%nat with (S (S (j - (i + 2)))) by lia. exact Hev.
Qed.

Lemma window_loop_shape (sid : string) (l : list string) :
  forall i,
    Forall (FallbackShape.window_shape sid i) (window_loop sid i l)
    /\ forall x, Forall (FallbackShape.window_shape sid i) (window_loop sid i (x :: l)).
Proof.
  induction l as [|a l IH]; intros i.
  - split; [constructor|]. intros x. apply window_chunk_shape.
  - split; [apply IH|]. intros x.
    change (Forall (FallbackShape.window_shape sid i)
                   (window_chunk sid i [x; a]
                    ++ window_loop sid (i + chunkSize) l)%list).
    apply Forall_app. split; [apply window_chunk_shape|].
    eapply Forall_impl; [|apply IH]. intros c. apply window_shape_later.
Qed.

Lemma window_chunk_count (sid : string) (i : nat) (window : list string) :
  (List.length (window_chunk sid i window) <= 1)%nat.
Proof.
  unfold window_chunk. destruct (20 <? _)%nat; simpl; lia.
Qed.

Lemma window_loop_count (sid : string) (l : list string) :
  forall i,
    (2 * List.length (window_loop sid i l) <= List.length l + 1)%nat
    /\ forall x, (2 * List.length (window_loop sid i (x :: l))
                  <= List.length (x :: l) + 1)%nat.
Proof.
  induction l as [|a l IH]; intros i.
  - split; [simpl; lia|]. intros x. pose proof (window_chunk_count sid i [x]).
    simpl in *. lia.
  - split; [apply IH|]. intros x.
    change (2 * List.length (window_chunk sid i [x; a]
                             ++ window_loop sid (i + chunkSize) l)%list
            <= List.length (x :: a :: l) + 1)%nat.
    rewrite length_app. pose proof (window_chunk_count sid i [x; a]).
    destruct (IH (i + chunkSize)%nat) as [H1 _]. simpl. lia.
Qed.

Lemma take_length (n : nat) (s : string) : (Js.length (Js.take n s) <= n)%nat.
Proof.
  unfold Js.length. revert s. induction n as [|n IH]; intros s; simpl; [lia|].
  destruct s; simpl; [lia|]. specialize (IH s). lia.
Qed.

Lemma take_prefix (n : nat) (s : string) : String.prefix (Js.take n s) s = true.
Proof.
  revert s. induction n as [|n IH]; intros s.
  - destruct s; reflexivity.
  - destruct s as [|c s]; [reflexivity|]. simpl.
    destruct (ascii_dec c c) as [_|N]; [apply IH|congruence].
Qed.

End FallbackFacts.

(** X10: every chunk the sentence windows of the fallback give carries
    the session id and more than 20 characters of text, starts at a
    multiple of 20 seconds (10 seconds per sentence, windows of two) and
    ends 20 seconds later; there is at most one chunk per window of two
    sentences; and the rows handed to the insert are these chunks, or the
    one chunk of at most 2000 characters that starts at 0 and has no end. *)
Theorem fallback_chunks_shape (sid raw : string) :
  let windowed := Ingest.window_loop sid 0 (Ingest.sentences_of raw) in
  Forall (fun c => Ingest.chunk_session_id c = sid
                   /\ (20 < Js.length (Ingest.chunk_text c))%nat
                   /\ exists k, Ingest.start_sec c = (20 * k)%Z /\ (0 <= k)%Z
                                /\ Ingest.end_sec c = Some (20 * k + 20)%Z)
         windowed
  /\ (2 * List.length windowed <= List.length (Ingest.sentences_of raw) + 1)%nat
  /\ (Ingest.basicChunks sid raw = windowed
      \/ (windowed = []
          /\ exists text, Ingest.basicChunks sid raw = [Ingest.mkChunk sid text 0%Z None]
                          /\ (Js.length text <= 2000)%nat
                          /\ String.prefix text raw = true)).
Proof.
  intros windowed. split; [|split].
  - eapply Forall_impl; [|apply (window_loop_shape sid (Ingest.sentences_of raw) 0)].
    intros c (H1 & H2 & j & _ & Hev & Hs & He). split; [exact H1|].
    split; [exact H2|]. rewrite Nat.sub_0_r in Hev.
    apply Nat.even_spec in Hev as [m Hm]. exists (Z.of_nat m).
    rewrite Hs, He. subst j. repeat split; try lia. f_equal. lia.
  - apply (window_loop_count sid (Ingest.sentences_of raw) 0).
  - unfold Ingest.basicChunks. fold windowed.
    destruct windowed as [|c l]; [right|left; reflexivity].
    split; [reflexivity|]. exists (Js.take 2000 raw).
    split; [reflexivity|]. split; [apply take_length|apply take_prefix].
Qed.

(** X11: the fallback gives between one and three candidates, with
    distinct labels among the four fixed ones; each is pending, carries
    the session id and no suggested topic id, and has as evidence a prefix
    of the raw text of at most 150 characters. *)
Theorem fallback_candidates_shape (sid raw : string) :
  let cs := Ingest.basicCandidates sid raw in
  (1 <= List.length cs <= 3)%nat
  /\ NoDup (Ingest.labels cs)
  /\ Forall (fun c =>
               In (Ingest.label c)
                  ["Product Development"; "User Feedback";
                   "Planning & Timeline"; "General Discussion"]
               /\ Ingest.status c = "pending"
               /\ Ingest.cand_session_id c = sid
               /\ Ingest.topic_id_suggested c = None
               /\ (Js.length (Ingest.evidence c) <= 150)%nat
               /\ String.prefix (Ingest.evidence c) raw = true) cs.
Proof.
  intros cs. subst cs.
  unfold Ingest.basicCandidates, Ingest.matched, Ingest.cand_product,
    Ingest.cand_user, Ingest.cand_planning, Ingest.cand_general.
  assert (L100 : (Js.length (Js.take 100 raw) <= 150)%nat).
  { pose proof (take_length 100 raw). lia. }
  pose proof (take_length 150 raw) as L150.
  pose proof (take_prefix 150 raw) as P150.
  pose proof (take_prefix 100 raw) as P100.
  generalize dependent (Js.take 150 raw). intros e150 L150 P150.
  generalize dependent (Js.take 100 raw). intros e100 L100 P100.
  assert (Hrow : forall lbl why e,
             In lbl ["Product Development"; "User Feedback";
                     "Planning & Timeline"; "General Discussion"] ->
             (Js.length e <= 150)%nat -> String.prefix e raw = true ->
             (fun c =>
                In (Ingest.label c)
                   ["Product Development"; "User Feedback";
                    "Planning & Timeline"; "General Discussion"]
                /\ Ingest.status c = "pending"
                /\ Ingest.cand_session_id c = sid
                /\ Ingest.topic_id_suggested c = None
                /\ (Js.length (Ingest.evidence c) <= 150)%nat
                /\ String.prefix (Ingest.evidence c) raw = true)
               (Ingest.mkCandidate sid None lbl e why "pending")).
  { intros lbl why e Hl He Hp. cbn. auto 7. }
  assert (D1 : "Product Development" <> "User Feedback") by discriminate.
  assert (D2 : "Product Development" <> "Planning & Timeline") by discriminate.
  assert (D3 : "User Feedback" <> "Planning & Timeline") by discriminate.
  destruct (Ingest.group_product _), (Ingest.group_user _),
    (Ingest.group_planning _);
    cbn [Datatypes.app List.length Nat.eqb Ingest.labels map Ingest.label];
    (split; [lia|]);
    (split; [repeat (apply NoDup_cons; [cbn [In]; intuition congruence|]);
             apply NoDup_nil|]);
    repeat (apply Forall_cons; [apply Hrow; cbn [In]; auto 6|]);
    apply Forall_nil.
Qed.

(** ** The upload of a CSV file *)

Section CsvFacts.

Import Csv.

Variable engine_parse : string -> option Z.
Variable now : string.
Variables titleIndex contentIndex dateIndex : Z.

Lemma or_else_nonempty (v : option string) (d : string) :
  d <> "" -> Js.or_else v d <> "".
Proof.
  intros Hd. unfold Js.or_else. destruct v as [s|]; [|exact Hd].
  destruct (String.eqb s "") eqn:E; [exact Hd|]. now apply String.eqb_neq.
Qed.

Lemma row_sessions (i : nat) (line : string) :
  Forall (fun s => title s <> "" /\ content s <> ""
                   /\ ((dateIndex < 0)%Z -> startedAt s = now))
         (row engine_parse now titleIndex contentIndex dateIndex i line)
  /\ (List.length (row engine_parse now titleIndex contentIndex dateIndex i line)
      <= 1)%nat.
Proof.
  unfold row. destruct (_ <=? _)%Z; [|split; [constructor|simpl; lia]].
  destruct (negb _) eqn:E; [|split; [constructor|simpl; lia]].
  split; [|simpl; lia]. constructor; [|constructor]. simpl. split; [|split].
  - apply or_else_nonempty. discriminate.
  - intros H. rewrite H in E. discriminate E.
  - intros Hd. unfold Batch.row_startedAt.
    apply Z.leb_gt in Hd. now rewrite Hd.
Qed.

Lemma rows_sessions (rest : list string) :
  forall i,
    Forall (fun s => title s <> "" /\ content s <> ""
                     /\ ((dateIndex < 0)%Z -> startedAt s = now))
           (rows engine_parse now titleIndex contentIndex dateIndex i rest)
    /\ (List.length (rows engine_parse now titleIndex contentIndex dateIndex i rest)
        <= List.length rest)%nat.
Proof.
  induction rest as [|line rest IH]; intros i; simpl.
  - split; [constructor|lia].
  - destruct (row_sessions i line) as [H1 H2].
    destruct (IH (S i)) as [H3 H4]. split.
    + apply Forall_app. auto.
    + rewrite length_app. lia.
Qed.

Lemma indexOf_from_absent (x : string) (arr : list string) :
  forall from, (0 <= from)%Z ->
               array_includes x arr = false -> indexOf_from from x arr = (-1)%Z.
Proof.
  unfold array_includes. induction arr as [|y arr IH]; intros from Hf; simpl;
    [reflexivity|].
  intros H. apply orb_false_iff in H as [H1 H2].
  rewrite String.eqb_sym, H1. apply IH; [lia|exact H2].
Qed.

End CsvFacts.

(** X12: an upload that is accepted has a name ending in ".csv" and
    gives at least one session and at most one per data line; every
    session has a title and a content that are not empty; and when the
    header has no "date" column every session starts at the current time. *)
Theorem csv_upload_accepted (engine_parse : string -> option Z) (now : string)
        (upload : option Csv.file) (sessions : list Csv.session) :
  Csv.sessions_of engine_parse now upload = inr sessions ->
  exists f header data,
    upload = Some f
    /\ Csv.endsWith (Csv.name f) ".csv" = true
    /\ Csv.lines_of (Csv.text f) = header :: data
    /\ (1 <= List.length sessions <= List.length data)%nat
    /\ Forall (fun s => Csv.title s <> "" /\ Csv.content s <> "") sessions
    /\ (Csv.array_includes "date" (Csv.headers_of header) = false ->
        Forall (fun s => Csv.startedAt s = now) sessions).
Proof.
  unfold Csv.sessions_of. destruct upload as [f|]; [|discriminate].
  destruct (Csv.endsWith (Csv.name f) ".csv") eqn:En; [|discriminate]. simpl.
  destruct (Csv.lines_of (Csv.text f)) as [|header [|l data]] eqn:El;
    try discriminate.
  destruct (0 <? _)%nat; [discriminate|].
  set (ti := Csv.indexOf "title" _). set (ci := Csv.indexOf "content" _).
  set (di := Csv.indexOf "date" _).
  destruct (rows_sessions engine_parse now ti ci di (l :: data) 1) as [HF HL].
  remember (Csv.rows engine_parse now ti ci di 1 (l :: data)) as found eqn:Ef.
  destruct (Nat.eqb _ 0) eqn:E0; [discriminate|]. intros [= <-].
  apply Nat.eqb_neq in E0.
  exists f, header, (l :: data).
  split; [reflexivity|]. split; [exact En|]. split; [exact El|].
  split; [lia|]. split.
  - eapply Forall_impl; [|exact HF]. intros s (H1 & H2 & _). auto.
  - intros Hd. eapply Forall_impl; [|exact HF]. intros s (_ & _ & H3).
    apply H3. subst di. unfold Csv.indexOf.
    rewrite indexOf_from_absent; [lia|lia|exact Hd].
Qed.

Lemma csv_upload_accepted_witness :
  exists f header data,
    Some (Csv.mkFile "notes.csv" "title,content
Kickoff,We plan the roadmap") = Some f
    /\ Csv.endsWith (Csv.name f) ".csv" = true
    /\ Csv.lines_of (Csv.text f) = header :: data
    /\ (1 <= List.length [Csv.mkSession "Kickoff" "We plan the roadmap" "2025-06-01T08:00:00.000Z"]
        <= List.length data)%nat
    /\ Forall (fun s => Csv.title s <> "" /\ Csv.content s <> "")
              [Csv.mkSession "Kickoff" "We plan the roadmap" "2025-06-01T08:00:00.000Z"]
    /\ (Csv.array_includes "date" (Csv.headers_of header) = false ->
        Forall (fun s => Csv.startedAt s = "2025-06-01T08:00:00.000Z")
               [Csv.mkSession "Kickoff" "We plan the roadmap" "2025-06-01T08:00:00.000Z"]).
Proof.
  apply (csv_upload_accepted (fun _ => None) "2025-06-01T08:00:00.000Z").
  reflexivity.
Defined.

(** ** Slugs *)

Section SlugFacts.

Import Sql.

Lemma kept_lower_slug (c : ascii) :
  is_alnum c || is_space c || is_hyphen c = true -> is_space c = false ->
  slug_char (Js.lower_char c) = true.
Proof.
  destruct c as [[] [] [] [] [] [] [] []]; vm_compute; intros; congruence.
Qed.

Lemma slug_char_plain (c : ascii) :
  slug_char c = true ->
  is_alnum c || is_space c || is_hyphen c = true
  /\ is_space c = false /\ Js.lower_char c = c.
Proof.
  destruct c as [[] [] [] [] [] [] [] []]; vm_compute; intros; try discriminate;
    auto.
Qed.

Lemma slug_chars (s : string) :
  forall b, all_chars slug_char (Db.lower (squeeze (strip s) b)) = true.
Proof.
  unfold Db.lower, Js.toLowerCase.
  induction s as [|c s IH]; intros b; simpl; [reflexivity|].
  destruct (is_alnum c || is_space c || is_hyphen c) eqn:K; [|apply IH].
  pose proof (kept_lower_slug c K) as HL.
  simpl. destruct (is_space c) eqn:S.
  - destruct b; [apply IH|]. simpl. apply IH.
  - simpl. rewrite (HL eq_refl). apply IH.
Qed.

Lemma slug_fixed (s : string) :
  all_chars slug_char s = true ->
  forall b, Db.lower (squeeze (strip s) b) = s.
Proof.
  unfold Db.lower, Js.toLowerCase.
  induction s as [|c s IH]; simpl; [reflexivity|].
  intros H b. apply andb_true_iff in H as [Hc Hs].
  destruct (slug_char_plain c Hc) as (K & S & L).
  rewrite K. cbn [squeeze]. rewrite S. cbn [Js.map_chars]. rewrite L.
  f_equal. now apply IH.
Qed.

End SlugFacts.

(** X13: a slug has only lower-case letters, digits and hyphens, and
    slugifying a slug changes nothing; the trigger on the candidates
    leaves a non-empty suggested id as it is and replaces a missing or
    empty one by the slug of the label, so a stored candidate always has
    a suggested id, and nothing else of the row changes. *)
Theorem slugify_hygiene (s : string) (new : Db.topic_candidate) :
  Sql.all_chars Sql.slug_char (Sql.slugify s) = true
  /\ Sql.slugify (Sql.slugify s) = Sql.slugify s
  /\ (exists sid,
         Db.topic_id_suggested (Sql.auto_slugify_topic new) = Some sid
         /\ ((Db.topic_id_suggested new = Some sid /\ sid <> "")
             \/ (Js.truthy (Db.topic_id_suggested new) = false
                 /\ sid = Sql.slugify (Db.cand_label new))))
  /\ Integrity.frame (Sql.auto_slugify_topic new)
     = (Db.candidate_id new, Db.cand_session_id new,
        Db.topic_id_suggested (Sql.auto_slugify_topic new),
        Db.cand_label new, Db.evidence new)
  /\ Db.cand_status (Sql.auto_slugify_topic new) = Db.cand_status new.
Proof.
  split; [apply slug_chars|]. split.
  { unfold Sql.slugify at 1. apply slug_fixed. apply slug_chars. }
  unfold Sql.auto_slugify_topic.
  destruct (Db.topic_id_suggested new) as [[|c t]|] eqn:E; simpl.
  - split; [|split; reflexivity]. eexists. split; [reflexivity|]. right. auto.
  - rewrite E. split; [|split; [unfold Integrity.frame; now rewrite E|reflexivity]].
    eexists. split; [reflexivity|].
    left. split; [reflexivity|discriminate].
  - split; [|split; reflexivity]. eexists. split; [reflexivity|]. right. auto.
Qed.

(** ** Date cells, for every date *)

Section DateTextFacts.

Local Open Scope Z_scope.

(** The decimal digit [n mod 10] as a character reads back as its value. *)
Lemma digit_reads_back (n : Z) :
  JsDate.digit_val (ascii_of_nat (48 + Z.to_nat (n mod 10))) = Some (n mod 10).
Proof.
  pose proof (Z.mod_pos_bound n 10 ltac:(lia)) as H.
  assert (E : n mod 10 = 0 \/ n mod 10 = 1 \/ n mod 10 = 2 \/ n mod 10 = 3
              \/ n mod 10 = 4 \/ n mod 10 = 5 \/ n mod 10 = 6 \/ n mod 10 = 7
              \/ n mod 10 = 8 \/ n mod 10 = 9) by lia.
  destruct E as [E|[E|[E|[E|[E|[E|[E|[E|[E|E]]]]]]]]]; rewrite E; reflexivity.
Qed.

Lemma digit_is_date_char (c : ascii) (d : Z) :
  JsDate.digit_val c = Some d -> DateText.date_char c = true.
Proof.
  intros H. unfold DateText.date_char, JsDate.is_digit. now rewrite H.
Qed.

(** A character absent from a string is not included in it. *)
Lemma includes_absent (p : ascii -> bool) (x : ascii) (s : string) :
  Sql.all_chars p s = true -> p x = false ->
  Js.includes s (String x "") = false.
Proof.
  intros Hs Hx. induction s as [|c s IH]; [reflexivity|].
  simpl in Hs. apply andb_true_iff in Hs as [Hc Hs].
  cbn [Js.includes String.prefix].
  destruct (ascii_dec x c) as [E|N]; [subst; congruence|].
  simpl. now apply IH.
Qed.

Lemma all_chars_app (p : ascii -> bool) (a b : string) :
  Sql.all_chars p (a ++ b) = Sql.all_chars p a && Sql.all_chars p b.
Proof.
  induction a as [|c a IH]; simpl; [reflexivity|]. now rewrite IH, andb_assoc.
Qed.

Lemma pad_num_date_chars (k : nat) (n : Z) :
  Sql.all_chars DateText.date_char (JsDate.pad_num k n) = true.
Proof.
  revert n. induction k as [|k IH]; intros n; [reflexivity|].
  cbn [JsDate.pad_num]. rewrite all_chars_app, IH. cbn [Sql.all_chars andb].
  now rewrite (digit_is_date_char _ _ (digit_reads_back n)).
Qed.

Lemma pad_num_digits (k : nat) (n : Z) :
  Batch.all_digits (JsDate.pad_num k n) = true.
Proof.
  revert n. induction k as [|k IH]; intros n; [reflexivity|].
  cbn [JsDate.pad_num].
  assert (A : forall a b, Batch.all_digits (a ++ b)
                          = Batch.all_digits a && Batch.all_digits b).
  { intros a b. induction a as [|c a IHa]; simpl; [reflexivity|].
    now rewrite IHa, andb_assoc. }
  rewrite A, IH. cbn [Batch.all_digits andb]. unfold JsDate.is_digit.
  now rewrite digit_reads_back.
Qed.

Lemma str_length_app (a b : string) :
  String.length (a ++ b) = (String.length a + String.length b)%nat.
Proof. induction a as [|c a IH]; simpl; [reflexivity|]. now rewrite IH. Qed.

Lemma str_app_assoc (a b c : string) : (a ++ b) ++ c = a ++ (b ++ c).
Proof. induction a as [|x a IH]; simpl; [reflexivity|]. now rewrite IH. Qed.

Lemma pad_num_length (k : nat) (n : Z) : Js.length (JsDate.pad_num k n) = k.
Proof.
  unfold Js.length. revert n. induction k as [|k IH]; intros n; [reflexivity|].
  cbn [JsDate.pad_num]. rewrite str_length_app, IH.
  cbn [String.length]. lia.
Qed.

Lemma take_app_exact (a b : string) : Js.take (Js.length a) (a ++ b) = a.
Proof.
  unfold Js.length. induction a as [|c a IH]; simpl.
  - destruct b; reflexivity.
  - now rewrite IH.
Qed.

Lemma drop_app_exact (a b : string) : Batch.drop (Js.length a) (a ++ b) = b.
Proof.
  unfold Js.length. induction a as [|c a IH]; simpl; [|exact IH].
  destruct b; reflexivity.
Qed.

(** Reading one more digit. *)
Lemma read_digits_more (k : nat) :
  forall acc s,
    JsDate.read_digits (S k) acc s
    = match JsDate.read_digits k acc s with
      | Some (v, String c s') =>
          match JsDate.digit_val c with
          | Some d => Some (v * 10 + d, s')
          | None => None
          end
      | _ => None
      end.
Proof.
  induction k as [|k IH]; intros acc s.
  - simpl. destruct s as [|c s]; [reflexivity|].
    destruct (JsDate.digit_val c); reflexivity.
  - change (JsDate.read_digits (S (S k)) acc s)
      with (match s with
            | String c s' =>
                match JsDate.digit_val c with
                | Some d => JsDate.read_digits (S k) (acc * 10 + d) s'
                | None => None
                end
            | EmptyString => None
            end).
    destruct s as [|c s]; [reflexivity|].
    destruct (JsDate.digit_val c) as [d|] eqn:E.
    + rewrite IH. simpl. now rewrite E.
    + simpl. now rewrite E.
Qed.

(** A padded number reads back. *)
Lemma read_digits_pad (k : nat) :
  forall n acc rest,
    JsDate.read_digits k acc (JsDate.pad_num k n ++ rest)
    = Some (acc * 10 ^ Z.of_nat k + n mod 10 ^ Z.of_nat k, rest).
Proof.
  induction k as [|k IH]; intros n acc rest.
  - simpl. rewrite Z.mod_1_r. f_equal. f_equal. lia.
  - rewrite read_digits_more. cbn [JsDate.pad_num].
    rewrite str_app_assoc. rewrite IH. cbn [append].
    rewrite digit_reads_back. f_equal. f_equal.
    rewrite Nat2Z.inj_succ, Z.pow_succ_r by lia.
    rewrite (Z.rem_mul_r n 10 (10 ^ Z.of_nat k)) by lia. lia.
Qed.

End DateTextFacts.

Section DateCellFacts.

Local Open Scope Z_scope.

Lemma str_app_nil_r (a : string) : a ++ "" = a.
Proof. induction a as [|c a IH]; simpl; [reflexivity|]. now rewrite IH. Qed.

(** [\d{k}] takes a run of exactly [k] digits. *)
Lemma matches_digits_exact (k : nat) (p : list Batch.item) (a rest : string) :
  Js.length a = k -> Batch.all_digits a = true ->
  Batch.matches (Batch.Digits k k :: p) (a ++ rest) = Batch.matches p rest.
Proof.
  intros <- Hd. cbn [Batch.matches]. rewrite Nat.sub_diag.
  cbn [Nat.add seq existsb].
  rewrite take_app_exact, drop_app_exact, Nat.eqb_refl, Hd.
  cbn [andb]. apply orb_false_r.
Qed.

Lemma matches_lit (c : ascii) (p : list Batch.item) (rest : string) :
  Batch.matches (Batch.Lit c :: p) (String c rest) = Batch.matches p rest.
Proof. cbn [Batch.matches]. now rewrite Ascii.eqb_refl. Qed.

Lemma read_pad4 (y : Z) (rest : string) :
  0 <= y <= 9999 ->
  JsDate.read_digits 4 0 (JsDate.pad_num 4 y ++ rest) = Some (y, rest).
Proof.
  intros H. rewrite read_digits_pad. change (10 ^ Z.of_nat 4) with 10000.
  rewrite Z.mod_small by lia. reflexivity.
Qed.

Lemma read_pad2 (m : Z) (rest : string) :
  0 <= m <= 99 ->
  JsDate.read_digits 2 0 (JsDate.pad_num 2 m ++ rest) = Some (m, rest).
Proof.
  intros H. rewrite read_digits_pad. change (10 ^ Z.of_nat 2) with 100.
  rewrite Z.mod_small by lia. reflexivity.
Qed.

Lemma days_in_month_bounds (y m : Z) : 28 <= JsDate.days_in_month y m <= 31.
Proof.
  unfold JsDate.days_in_month.
  destruct (m =? 2); [destruct (JsDate.is_leap y); lia|].
  destruct (_ || _); lia.
Qed.

(** The date-time string of a valid day at midnight UTC is parsed to the
    time value of that day, without recourse to the engine. *)
Lemma parse_midnight (engine_parse : string -> option Z) (y m d : Z) :
  DateText.valid_day y m d ->
  JsDate.parse engine_parse
    (JsDate.pad_num 4 y
     ++ String "-" (JsDate.pad_num 2 m
                    ++ String "-" (JsDate.pad_num 2 d ++ "T00:00:00Z")))
  = Some (JsDate.make_date y m d 0 0 0 0).
Proof.
  intros (Hy & Hm & Hd). pose proof (days_in_month_bounds y m) as Hb.
  unfold JsDate.parse, JsDate.read_utc_fields.
  rewrite read_pad4 by lia. cbn [JsDate.read_lit]. rewrite Ascii.eqb_refl.
  rewrite read_pad2 by lia. cbn [JsDate.read_lit]. rewrite Ascii.eqb_refl.
  rewrite read_pad2 by lia.
  change (JsDate.read_lit "T" "T00:00:00Z") with (Some "00:00:00Z"%string).
  cbv iota beta.
  change (JsDate.read_digits 2 0 "00:00:00Z") with (Some (0, ":00:00Z"%string)).
  cbv iota beta.
  change (JsDate.read_lit ":" ":00:00Z") with (Some "00:00Z"%string).
  cbv iota beta.
  change (JsDate.read_digits 2 0 "00:00Z") with (Some (0, ":00Z"%string)).
  cbv iota beta.
  change (JsDate.read_lit ":" ":00Z") with (Some "00Z"%string).
  cbv iota beta.
  change (JsDate.read_digits 2 0 "00Z") with (Some (0, "Z"%string)).
  cbv iota beta.
  change (JsDate.read_tail "Z") with (Some 0).
  cbv iota beta.
  replace (1 <=? m) with true by (symmetry; apply Z.leb_le; lia).
  replace (m <=? 12) with true by (symmetry; apply Z.leb_le; lia).
  replace (1 <=? d) with true by (symmetry; apply Z.leb_le; lia).
  replace (d <=? 31) with true by (symmetry; apply Z.leb_le; lia).
  replace (d <=? JsDate.days_in_month y m) with true
    by (symmetry; apply Z.leb_le; lia).
  reflexivity.
Qed.

Lemma iso_date_chars (y m d : Z) :
  Sql.all_chars DateText.date_char (DateText.iso_date y m d) = true.
Proof.
  unfold DateText.iso_date.
  rewrite !all_chars_app, !pad_num_date_chars. reflexivity.
Qed.

Lemma iso_date_length (y m d : Z) : Js.length (DateText.iso_date y m d) = 10%nat.
Proof.
  unfold DateText.iso_date, Js.length.
  rewrite !str_length_app.
  pose proof (pad_num_length 4 y). pose proof (pad_num_length 2 m).
  pose proof (pad_num_length 2 d). unfold Js.length in *.
  cbn [String.length]. lia.
Qed.

End DateCellFacts.


Section CalendarFacts.

Local Open Scope Z_scope.

Lemma zrange_in (a : Z) (n : nat) (x : Z) :
  a <= x < a + Z.of_nat n -> In x (DateText.zrange a n).
Proof.
  intros H. unfold DateText.zrange. apply in_map_iff.
  exists (Z.to_nat (x - a)). split; [lia|]. apply in_seq. lia.
Qed.

Lemma forallb3 {A B C : Type} (f : A -> B -> C -> bool)
      (la : list A) (lb : list B) (lc : list C) :
  forallb (fun a => forallb (fun b => forallb (f a b) lc) lb) la = true ->
  forall a b c, In a la -> In b lb -> In c lc -> f a b c = true.
Proof.
  intros H a b c Ha Hb Hc.
  rewrite forallb_forall in H. specialize (H a Ha).
  rewrite forallb_forall in H. specialize (H b Hb).
  rewrite forallb_forall in H. exact (H c Hc).
Qed.

(** Every day of the 400 years of one cycle, checked by computation. *)
Lemma cycle_checked :
  forallb (fun y =>
             forallb (fun m => forallb (DateText.cycle_day_ok y m)
                                       (DateText.zrange 1 31))
                     (DateText.zrange 1 12))
          (DateText.zrange 0 400) = true.
Proof. vm_compute. reflexivity. Qed.

(** Within one cycle. *)
Lemma civil_round_trip_cycle (y m d : Z) :
  0 <= y < 400 -> 1 <= m <= 12 -> 1 <= d <= JsDate.days_in_month y m ->
  JsDate.civil_from_days (JsDate.days_from_civil y m d) = (y, m, d).
Proof.
  intros Hy Hm Hd. pose proof (days_in_month_bounds y m) as Hb.
  pose proof (forallb3 DateText.cycle_day_ok _ _ _ cycle_checked y m d
                (zrange_in 0 400 y ltac:(lia)) (zrange_in 1 12 m ltac:(lia))
                (zrange_in 1 31 d ltac:(lia))) as C.
  unfold DateText.cycle_day_ok in C.
  replace (d <=? JsDate.days_in_month y m) with true in C
    by (symmetry; apply Z.leb_le; lia).
  destruct (JsDate.civil_from_days _) as [[y' m'] d'].
  apply andb_true_iff in C as [C C3]. apply andb_true_iff in C as [C1 C2].
  apply Z.eqb_eq in C1, C2, C3. congruence.
Qed.

End CalendarFacts.

Section CalendarShift.

Local Open Scope Z_scope.

(** The calendar repeats every 400 years, that is every 146097 days. *)
Lemma days_from_civil_shift (y m d k : Z) :
  JsDate.days_from_civil (y + 400 * k) m d
  = JsDate.days_from_civil y m d + 146097 * k.
Proof.
  unfold JsDate.days_from_civil. destruct (m <=? 2).
  - replace (y + 400 * k - 1) with (y - 1 + k * 400) by lia.
    rewrite Z.div_add by lia. cbv zeta.
    replace (y - 1 + k * 400 - ((y - 1) / 400 + k) * 400)
      with (y - 1 - (y - 1) / 400 * 400) by lia.
    lia.
  - replace (y + 400 * k) with (y + k * 400) by lia.
    rewrite Z.div_add by lia. cbv zeta.
    replace (y + k * 400 - (y / 400 + k) * 400) with (y - y / 400 * 400) by lia.
    lia.
Qed.

Lemma civil_from_days_shift (z k : Z) :
  JsDate.civil_from_days (z + 146097 * k)
  = match JsDate.civil_from_days z with
    | (y, m, d) => (y + 400 * k, m, d)
    end.
Proof.
  unfold JsDate.civil_from_days.
  replace (z + 146097 * k + 719468) with (z + 719468 + k * 146097) by lia.
  rewrite Z.div_add by lia. cbv zeta.
  replace (z + 719468 + k * 146097 - ((z + 719468) / 146097 + k) * 146097)
    with (z + 719468 - (z + 719468) / 146097 * 146097) by lia.
  f_equal. f_equal. lia.
Qed.

Lemma is_leap_shift (y k : Z) : JsDate.is_leap (y + 400 * k) = JsDate.is_leap y.
Proof.
  unfold JsDate.is_leap.
  replace ((y + 400 * k) mod 4) with (y mod 4)
    by (replace (y + 400 * k) with (y + (100 * k) * 4) by lia;
        now rewrite Z.mod_add by lia).
  replace ((y + 400 * k) mod 100) with (y mod 100)
    by (replace (y + 400 * k) with (y + (4 * k) * 100) by lia;
        now rewrite Z.mod_add by lia).
  replace ((y + 400 * k) mod 400) with (y mod 400)
    by (replace (y + 400 * k) with (y + k * 400) by lia;
        now rewrite Z.mod_add by lia).
  reflexivity.
Qed.

(** The day number of a day gives the day back. *)
Lemma civil_round_trip (y m d : Z) :
  DateText.valid_day y m d ->
  JsDate.civil_from_days (JsDate.days_from_civil y m d) = (y, m, d).
Proof.
  intros (Hy & Hm & Hd).
  pose proof (Z.div_mod y 400 ltac:(lia)) as E.
  pose proof (Z.mod_pos_bound y 400 ltac:(lia)) as B.
  set (y0 := y mod 400) in *. set (k := y / 400) in *.
  assert (Ey : y = y0 + 400 * k) by lia.
  rewrite Ey in Hd |- *.
  unfold JsDate.days_in_month in Hd. rewrite is_leap_shift in Hd.
  fold (JsDate.days_in_month y0 m) in Hd.
  rewrite days_from_civil_shift, civil_from_days_shift.
  rewrite civil_round_trip_cycle by lia. reflexivity.
Qed.

(** Printing the time value of a date and time gives the canonical text. *)
Lemma toISOString_make_date (y m d h mi s : Z) :
  DateText.valid_day y m d -> DateText.valid_clock h mi s ->
  JsDate.toISOString (JsDate.make_date y m d h mi s 0)
  = DateText.iso_canonical y m d h mi s.
Proof.
  intros Hv (Hh & Hmi & Hs). pose proof Hv as (Hy & _).
  unfold JsDate.toISOString, JsDate.make_date, JsDate.msPerDay.
  set (D := JsDate.days_from_civil y m d).
  set (rest := h * 3600000 + mi * 60000 + s * 1000).
  replace (D * 86400000 + h * 3600000 + mi * 60000 + s * 1000 + 0)
    with (rest + D * 86400000) by (subst rest; lia).
  rewrite Z.div_add, Z.mod_add by lia.
  assert (Hr : 0 <= rest < 86400000) by (subst rest; lia).
  rewrite Z.div_small, Z.mod_small by lia. rewrite Z.add_0_l.
  subst D. rewrite (civil_round_trip y m d Hv).
  replace ((0 <=? y) && (y <=? 9999)) with true
    by (symmetry; apply andb_true_iff; split; apply Z.leb_le; lia).
  replace (rest / 3600000) with h
    by (apply (Z.div_unique rest 3600000 h (mi * 60000 + s * 1000));
        subst rest; lia).
  replace ((rest / 60000) mod 60) with mi.
  2:{ replace (rest / 60000) with (h * 60 + mi)
        by (apply (Z.div_unique rest 60000 (h * 60 + mi) (s * 1000));
            subst rest; lia).
      apply (Z.mod_unique (h * 60 + mi) 60 h mi); lia. }
  replace ((rest / 1000) mod 60) with s.
  2:{ replace (rest / 1000) with ((h * 60 + mi) * 60 + s)
        by (apply (Z.div_unique rest 1000 ((h * 60 + mi) * 60 + s) 0);
            subst rest; lia).
      apply (Z.mod_unique ((h * 60 + mi) * 60 + s) 60 (h * 60 + mi) s); lia. }
  replace (rest mod 1000) with 0
    by (apply (Z.mod_unique rest 1000 ((h * 60 + mi) * 60 + s) 0);
        subst rest; lia).
  change (JsDate.pad_num 3 0) with "000"%string.
  unfold DateText.iso_canonical, DateText.iso_date, DateText.clock_text.
  rewrite !str_app_assoc. reflexivity.
Qed.

End CalendarShift.

(** X14: a date cell [YYYY-MM-DD] naming a day of the calendar is read by
    the date-only branch as midnight UTC of that day, for every such day
    and whatever the engine does with other strings; no warning is logged
    and the current time is not used: the session starts at
    [YYYY-MM-DDT00:00:00.000Z]. *)
Theorem date_only_cell (engine_parse : string -> option Z) (now : string)
        (y m d : Z) :
  DateText.valid_day y m d ->
  Batch.parse_date_value engine_parse now (DateText.iso_date y m d)
  = Batch.mkParsed (DateText.iso_canonical y m d 0 0 0)
                   (Some Batch.BrDateOnly)
                   (Some (JsDate.make_date y m d 0 0 0 0)) None.
Proof.
  intros Hv.
  rewrite <- (toISOString_make_date y m d 0 0 0 Hv)
    by (unfold DateText.valid_clock; lia).
  unfold Batch.parse_date_value.
  pose proof (iso_date_chars y m d) as Hc.
  rewrite iso_date_length.
  rewrite (includes_absent _ "<" _ Hc eq_refl).
  rewrite (includes_absent _ ">" _ Hc eq_refl).
  change ((50 <? 10)%nat || false || false) with false. cbv iota.
  unfold Batch.date_argument.
  rewrite (includes_absent _ "T" _ Hc eq_refl).
  rewrite (includes_absent _ "Z" _ Hc eq_refl).
  cbn [orb].
  assert (Hm : Batch.matches Batch.re_date_only (DateText.iso_date y m d) = true).
  { unfold Batch.re_date_only, DateText.iso_date.
    rewrite matches_digits_exact by (apply pad_num_length || apply pad_num_digits).
    cbn [append]. rewrite matches_lit.
    rewrite matches_digits_exact by (apply pad_num_length || apply pad_num_digits).
    cbn [append]. rewrite matches_lit.
    rewrite <- (str_app_nil_r (JsDate.pad_num 2 d)).
    rewrite matches_digits_exact by (apply pad_num_length || apply pad_num_digits).
    reflexivity. }
  rewrite Hm.
  assert (Hs : DateText.iso_date y m d ++ "T00:00:00Z"
               = JsDate.pad_num 4 y
                 ++ String "-" (JsDate.pad_num 2 m
                                ++ String "-" (JsDate.pad_num 2 d ++ "T00:00:00Z"))).
  { unfold DateText.iso_date. rewrite !str_app_assoc. reflexivity. }
  rewrite Hs, (parse_midnight engine_parse y m d Hv). reflexivity.
Qed.

Lemma date_only_cell_witness :
  Batch.startedAt
    (Batch.parse_date_value (fun _ => None) "2025-06-01T08:00:00.000Z"
                            (DateText.iso_date 2024 2 29))
  = "2024-02-29T00:00:00.000Z".
Proof.
  rewrite (date_only_cell (fun _ => None) "2025-06-01T08:00:00.000Z" 2024 2 29).
  - reflexivity.
  - unfold DateText.valid_day. vm_compute. intuition discriminate.
Defined.

Section InstantFacts.

Local Open Scope Z_scope.

Lemma all_chars_weaken (p q : ascii -> bool) (s : string) :
  (forall c, p c = true -> q c = true) ->
  Sql.all_chars p s = true -> Sql.all_chars q s = true.
Proof.
  intros Hpq. induction s as [|c s IH]; simpl; [reflexivity|].
  intros H. apply andb_true_iff in H as [Hc Hs].
  now rewrite (Hpq c Hc), IH.
Qed.

Lemma pad_num_instant_chars (k : nat) (n : Z) :
  Sql.all_chars DateText.instant_char (JsDate.pad_num k n) = true.
Proof.
  apply (all_chars_weaken DateText.date_char); [|apply pad_num_date_chars].
  intros c H. unfold DateText.instant_char. now rewrite H.
Qed.

(** The date-time string of a valid day and time of day in UTC is parsed
    to its time value, without recourse to the engine. *)
Lemma parse_utc (engine_parse : string -> option Z) (y m d h mi s : Z) :
  DateText.valid_day y m d -> DateText.valid_clock h mi s ->
  JsDate.parse engine_parse
    (JsDate.pad_num 4 y
     ++ String "-" (JsDate.pad_num 2 m
     ++ String "-" (JsDate.pad_num 2 d
     ++ String "T" (JsDate.pad_num 2 h
     ++ String ":" (JsDate.pad_num 2 mi
     ++ String ":" (JsDate.pad_num 2 s ++ "Z"))))))
  = Some (JsDate.make_date y m d h mi s 0).
Proof.
  intros (Hy & Hm & Hd) (Hh & Hmi & Hs).
  pose proof (days_in_month_bounds y m) as Hb.
  unfold JsDate.parse, JsDate.read_utc_fields.
  rewrite read_pad4 by lia. cbn [JsDate.read_lit]. rewrite Ascii.eqb_refl.
  rewrite read_pad2 by lia. cbn [JsDate.read_lit]. rewrite Ascii.eqb_refl.
  rewrite read_pad2 by lia. cbn [JsDate.read_lit]. rewrite Ascii.eqb_refl.
  rewrite read_pad2 by lia. cbn [JsDate.read_lit]. rewrite Ascii.eqb_refl.
  rewrite read_pad2 by lia. cbn [JsDate.read_lit]. rewrite Ascii.eqb_refl.
  rewrite <- (str_app_nil_r (JsDate.pad_num 2 s ++ "Z")), str_app_assoc.
  rewrite read_pad2 by lia.
  change (JsDate.read_tail ("Z" ++ "")) with (Some 0).
  cbv iota beta.
  replace (1 <=? m) with true by (symmetry; apply Z.leb_le; lia).
  replace (m <=? 12) with true by (symmetry; apply Z.leb_le; lia).
  replace (1 <=? d) with true by (symmetry; apply Z.leb_le; lia).
  replace (d <=? 31) with true by (symmetry; apply Z.leb_le; lia).
  replace (mi <=? 59) with true by (symmetry; apply Z.leb_le; lia).
  replace (s <=? 59) with true by (symmetry; apply Z.leb_le; lia).
  replace (h <=? 23) with true by (symmetry; apply Z.leb_le; lia).
  replace (d <=? JsDate.days_in_month y m) with true
    by (symmetry; apply Z.leb_le; lia).
  reflexivity.
Qed.

Lemma iso_instant_shape (y m d h mi s : Z) :
  DateText.iso_instant y m d h mi s
  = JsDate.pad_num 4 y
    ++ String "-" (JsDate.pad_num 2 m
    ++ String "-" (JsDate.pad_num 2 d
    ++ String "T" (JsDate.pad_num 2 h
    ++ String ":" (JsDate.pad_num 2 mi
    ++ String ":" (JsDate.pad_num 2 s ++ "Z"))))).
Proof.
  unfold DateText.iso_instant, DateText.iso_date, DateText.clock_text.
  rewrite !str_app_assoc. reflexivity.
Qed.

Lemma iso_instant_chars (y m d h mi s : Z) :
  Sql.all_chars DateText.instant_char (DateText.iso_instant y m d h mi s) = true.
Proof.
  rewrite iso_instant_shape.
  repeat (rewrite all_chars_app, pad_num_instant_chars;
          cbn [andb Sql.all_chars];
          match goal with
          | |- context [DateText.instant_char ?c] =>
              change (DateText.instant_char c) with true
          end; cbn [andb]).
  reflexivity.
Qed.

Lemma iso_instant_length (y m d h mi s : Z) :
  Js.length (DateText.iso_instant y m d h mi s) = 20%nat.
Proof.
  rewrite iso_instant_shape. unfold Js.length.
  repeat (rewrite str_length_app; cbn [String.length]).
  pose proof (pad_num_length 4 y). pose proof (pad_num_length 2 m).
  pose proof (pad_num_length 2 d). pose proof (pad_num_length 2 h).
  pose proof (pad_num_length 2 mi). pose proof (pad_num_length 2 s).
  unfold Js.length in *. lia.
Qed.

End InstantFacts.

(** X15: a date cell [YYYY-MM-DDTHH:mm:ssZ] naming a day of the calendar
    and a time of day is read by the ISO branch as that instant, for every
    such instant and whatever the engine does with other strings; the
    session starts at the same instant in the form
    [YYYY-MM-DDTHH:mm:ss.000Z] and no warning is logged. *)
Theorem iso_instant_cell (engine_parse : string -> option Z) (now : string)
        (y m d h mi s : Z) :
  DateText.valid_day y m d -> DateText.valid_clock h mi s ->
  Batch.parse_date_value engine_parse now (DateText.iso_instant y m d h mi s)
  = Batch.mkParsed (DateText.iso_canonical y m d h mi s)
                   (Some Batch.BrISO)
                   (Some (JsDate.make_date y m d h mi s 0)) None.
Proof.
  intros Hv Hc. rewrite <- (toISOString_make_date y m d h mi s Hv Hc).
  unfold Batch.parse_date_value.
  pose proof (iso_instant_chars y m d h mi s) as Hch.
  rewrite iso_instant_length.
  rewrite (includes_absent _ "<" _ Hch eq_refl).
  rewrite (includes_absent _ ">" _ Hch eq_refl).
  change ((50 <? 20)%nat || false || false) with false. cbv iota.
  unfold Batch.date_argument.
  assert (HT : Js.includes (DateText.iso_instant y m d h mi s) "T" = true).
  { unfold DateText.iso_instant. apply includes_middle. }
  rewrite HT. cbn [orb]. cbv iota beta.
  rewrite iso_instant_shape, (parse_utc engine_parse y m d h mi s Hv Hc).
  reflexivity.
Qed.

Lemma iso_instant_cell_witness :
  Batch.startedAt
    (Batch.parse_date_value (fun _ => None) "2025-06-01T08:00:00.000Z"
                            (DateText.iso_instant 1999 12 31 23 59 59))
  = "1999-12-31T23:59:59.000Z".
Proof.
  rewrite (iso_instant_cell (fun _ => None) "2025-06-01T08:00:00.000Z"
             1999 12 31 23 59 59).
  - reflexivity.
  - unfold DateText.valid_day. vm_compute. intuition discriminate.
  - unfold DateText.valid_clock. lia.
Defined.

Section SlashFacts.

Local Open Scope Z_scope.

Lemma digit_not_slash (c : ascii) :
  JsDate.is_digit c = true -> Ascii.eqb c "/" = false.
Proof.
  destruct c as [[] [] [] [] [] [] [] []]; vm_compute; congruence.
Qed.

Lemma no_slash_in_digits (a : string) :
  Batch.all_digits a = true ->
  Sql.all_chars (fun c => negb (Ascii.eqb c "/")) a = true.
Proof.
  induction a as [|c a IH]; simpl; [reflexivity|].
  intros H. apply andb_true_iff in H as [Hc Ha].
  now rewrite (digit_not_slash c Hc), IH.
Qed.

(** [split] cuts at the first separator after a piece that has none. *)
Lemma split_char_piece (sep : ascii) (p rest cur : string) :
  Sql.all_chars (fun c => negb (Ascii.eqb c sep)) p = true ->
  Js.split_char sep (p ++ String sep rest) cur
  = (cur ++ p) :: Js.split_char sep rest "".
Proof.
  revert cur. induction p as [|c p IH]; intros cur; simpl.
  - intros _. rewrite Ascii.eqb_refl. now rewrite str_app_nil_r.
  - intros H. apply andb_true_iff in H as [Hc Hp].
    apply negb_true_iff in Hc. rewrite Hc, IH by exact Hp.
    now rewrite str_app_assoc.
Qed.

Lemma split_char_last (sep : ascii) (p cur : string) :
  Sql.all_chars (fun c => negb (Ascii.eqb c sep)) p = true ->
  Js.split_char sep p cur = [cur ++ p].
Proof.
  revert cur. induction p as [|c p IH]; intros cur; simpl.
  - intros _. now rewrite str_app_nil_r.
  - intros H. apply andb_true_iff in H as [Hc Hp].
    apply negb_true_iff in Hc. rewrite Hc, IH by exact Hp.
    now rewrite str_app_assoc.
Qed.

(** A run of fewer than [k] digits before a slash is no run of [k] digits. *)
Lemma digits_cut_by_slash (p rest : string) :
  forall k, (Js.length p < k)%nat ->
            Batch.all_digits (Js.take k (p ++ String "/" rest)) = false.
Proof.
  unfold Js.length. induction p as [|c p IH]; intros k Hk.
  - destruct k as [|k]; [simpl in Hk; lia|]. cbn [append Js.take Batch.all_digits].
    change (JsDate.is_digit "/") with false. reflexivity.
  - destruct k as [|k]; [simpl in Hk; lia|].
    cbn [append Js.take Batch.all_digits].
    rewrite IH by (simpl in Hk; lia). apply andb_false_r.
Qed.

Lemma matches_digits_short (k : nat) (p : list Batch.item) (v : string) :
  Batch.all_digits (Js.take k v) = false ->
  Batch.matches (Batch.Digits k k :: p) v = false.
Proof.
  intros H. cbn [Batch.matches]. rewrite Nat.sub_diag.
  cbn [Nat.add seq existsb]. rewrite H, andb_false_r. reflexivity.
Qed.

(** [\d{1,2}] takes a run of one or two digits. *)
Lemma matches_digits_one_or_two (p : list Batch.item) (a rest : string) :
  (Js.length a = 1 \/ Js.length a = 2)%nat -> Batch.all_digits a = true ->
  Batch.matches p rest = true ->
  Batch.matches (Batch.Digits 1 2 :: p) (a ++ rest) = true.
Proof.
  intros Hl Hd Hp. cbn [Batch.matches].
  change (seq 1 (2 - 1 + 1)) with [1%nat; 2%nat].
  apply existsb_exists. exists (Js.length a). split.
  - destruct Hl as [-> | ->]; simpl; auto.
  - now rewrite take_app_exact, drop_app_exact, Nat.eqb_refl, Hd, Hp.
Qed.

Lemma pad_one_is_two (a : Z) :
  0 <= a < 10 -> ("0" ++ JsDate.pad_num 1 a)%string = JsDate.pad_num 2 a.
Proof.
  intros H. cbn [JsDate.pad_num append].
  replace (a / 10) with 0 by (symmetry; apply Z.div_small; lia).
  reflexivity.
Qed.

Lemma padStart2_pad (w : nat) (a : Z) :
  (w = 1%nat /\ 0 <= a < 10) \/ w = 2%nat ->
  Batch.padStart2 (JsDate.pad_num w a) = JsDate.pad_num 2 a.
Proof.
  unfold Batch.padStart2. rewrite pad_num_length.
  intros [[-> H] | ->]; [now apply pad_one_is_two|reflexivity].
Qed.

(** A month that is none: the date-time string is no date. *)
Lemma parse_no_month (engine_parse : string -> option Z) (y a b : Z) :
  0 <= y <= 9999 -> 0 <= a <= 99 -> 0 <= b <= 99 -> a = 0 \/ 12 < a ->
  JsDate.parse engine_parse
    (JsDate.pad_num 4 y
     ++ String "-" (JsDate.pad_num 2 a
                    ++ String "-" (JsDate.pad_num 2 b ++ "T00:00:00Z")))
  = None.
Proof.
  intros Hy Ha Hb Hbad.
  unfold JsDate.parse, JsDate.read_utc_fields.
  rewrite read_pad4 by lia. cbn [JsDate.read_lit]. rewrite Ascii.eqb_refl.
  rewrite read_pad2 by lia. cbn [JsDate.read_lit]. rewrite Ascii.eqb_refl.
  rewrite read_pad2 by lia.
  change (JsDate.read_lit "T" "T00:00:00Z") with (Some "00:00:00Z"%string).
  cbv iota beta.
  change (JsDate.read_digits 2 0 "00:00:00Z") with (Some (0, ":00:00Z"%string)).
  cbv iota beta.
  change (JsDate.read_lit ":" ":00:00Z") with (Some "00:00Z"%string).
  cbv iota beta.
  change (JsDate.read_digits 2 0 "00:00Z") with (Some (0, ":00Z"%string)).
  cbv iota beta.
  change (JsDate.read_lit ":" ":00Z") with (Some "00Z"%string).
  cbv iota beta.
  change (JsDate.read_digits 2 0 "00Z") with (Some (0, "Z"%string)).
  cbv iota beta.
  change (JsDate.read_tail "Z") with (Some 0).
  cbv iota beta.
  replace ((1 <=? a) && (a <=? 12)) with false; [reflexivity|].
  symmetry. apply andb_false_iff.
  destruct Hbad; [left; apply Z.leb_gt|right; apply Z.leb_gt]; lia.
Qed.

Variable engine_parse : string -> option Z.
Variable now : string.
Variables mw dw : nat.
Variables a b y : Z.

Hypothesis month_written : (mw = 1%nat /\ 0 <= a < 10) \/ (mw = 2%nat /\ 0 <= a < 100).
Hypothesis day_written : (dw = 1%nat /\ 0 <= b < 10) \/ (dw = 2%nat /\ 0 <= b < 100).
Hypothesis year_written : 0 <= y <= 9999.

Lemma slash_date_chars :
  Sql.all_chars DateText.date_char (DateText.slash_date mw dw a b y) = true.
Proof.
  unfold DateText.slash_date.
  rewrite !all_chars_app, !pad_num_date_chars. reflexivity.
Qed.

Lemma slash_date_length : (Js.length (DateText.slash_date mw dw a b y) <= 10)%nat.
Proof.
  unfold DateText.slash_date, Js.length.
  rewrite !str_length_app.
  pose proof (pad_num_length mw a). pose proof (pad_num_length dw b).
  pose proof (pad_num_length 4 y). unfold Js.length in *.
  cbn [String.length]. lia.
Qed.

(** The cascade on a slash date: the month-first branch, and the string
    it builds. *)
Lemma slash_date_argument :
  Batch.date_argument (DateText.slash_date mw dw a b y)
  = (Batch.BrUS,
     JsDate.pad_num 4 y
     ++ String "-" (JsDate.pad_num 2 a
                    ++ String "-" (JsDate.pad_num 2 b ++ "T00:00:00Z"))).
Proof.
  pose proof slash_date_chars as Hc.
  unfold Batch.date_argument.
  rewrite (includes_absent _ "T" _ Hc eq_refl).
  rewrite (includes_absent _ "Z" _ Hc eq_refl).
  cbn [orb].
  assert (H1 : Batch.matches Batch.re_date_only (DateText.slash_date mw dw a b y)
               = false).
  { apply matches_digits_short. unfold DateText.slash_date.
    cbn [append]. apply digits_cut_by_slash. rewrite pad_num_length. lia. }
  rewrite H1.
  assert (H2 : Batch.matches Batch.re_slashes (DateText.slash_date mw dw a b y)
               = true).
  { unfold Batch.re_slashes, DateText.slash_date.
    apply matches_digits_one_or_two;
      [rewrite pad_num_length; lia | apply pad_num_digits |].
    cbn [append]. rewrite matches_lit.
    apply matches_digits_one_or_two;
      [rewrite pad_num_length; lia | apply pad_num_digits |].
    cbn [append]. rewrite matches_lit.
    rewrite <- (str_app_nil_r (JsDate.pad_num 4 y)).
    rewrite matches_digits_exact by (apply pad_num_length || apply pad_num_digits).
    reflexivity. }
  rewrite H2.
  unfold DateText.slash_date. cbn [append].
  rewrite split_char_piece by (apply no_slash_in_digits, pad_num_digits).
  rewrite split_char_piece by (apply no_slash_in_digits, pad_num_digits).
  rewrite split_char_last by (apply no_slash_in_digits, pad_num_digits).
  cbn [append]. unfold Batch.ymd_string.
  rewrite !padStart2_pad by lia.
  cbn [append]. reflexivity.
Qed.

End SlashFacts.

(** X16: a slash date, with one or two digits for each of its first two
    numbers and four for the year, is always read month first: when the
    first number is a month and the second a day of it, the session
    starts at midnight UTC of that day; when the first number is no month
    (0, or above 12 as in a date written day first) the row starts at the
    current time with the invalid-format warning, whatever the engine
    does with other strings. *)
Theorem slash_date_cell (engine_parse : string -> option Z) (now : string)
        (mw dw : nat) (a b y : Z) :
  ((mw = 1%nat /\ 0 <= a < 10) \/ (mw = 2%nat /\ 0 <= a < 100))%Z ->
  ((dw = 1%nat /\ 0 <= b < 10) \/ (dw = 2%nat /\ 0 <= b < 100))%Z ->
  (0 <= y <= 9999)%Z ->
  let r := Batch.parse_date_value engine_parse now
                                  (DateText.slash_date mw dw a b y) in
  (DateText.valid_day y a b ->
   r = Batch.mkParsed (DateText.iso_canonical y a b 0 0 0) (Some Batch.BrUS)
                      (Some (JsDate.make_date y a b 0 0 0 0)) None)
  /\ ((a = 0 \/ 12 < a)%Z ->
      r = Batch.mkParsed now (Some Batch.BrUS) None
                         (Some Batch.InvalidDateFormat)).
Proof.
  intros Hm Hd Hy r. subst r. unfold Batch.parse_date_value.
  pose proof (slash_date_chars mw dw a b y) as Hc.
  pose proof (slash_date_length mw dw a b y) as Hl.
  rewrite (includes_absent _ "<" _ Hc eq_refl).
  rewrite (includes_absent _ ">" _ Hc eq_refl).
  replace (50 <? Js.length (DateText.slash_date mw dw a b y))%nat with false
    by (symmetry; apply Nat.ltb_ge; lia).
  cbn [orb]. cbv iota.
  rewrite (slash_date_argument mw dw a b y Hm Hd).
  split.
  - intros Hv. rewrite (parse_midnight engine_parse y a b Hv).
    rewrite (toISOString_make_date y a b 0 0 0 Hv)
      by (unfold DateText.valid_clock; lia).
    reflexivity.
  - intros Hbad. rewrite (parse_no_month engine_parse y a b) by lia.
    reflexivity.
Qed.

Lemma slash_date_cell_witness :
  Batch.parse_date_value (fun _ => None) "2025-06-01T08:00:00.000Z"
                         (DateText.slash_date 1 2 3 15 2024)
  = Batch.mkParsed "2024-03-15T00:00:00.000Z" (Some Batch.BrUS)
                   (Some (JsDate.make_date 2024 3 15 0 0 0 0)) None
  /\ Batch.parse_date_value (fun _ => None) "2025-06-01T08:00:00.000Z"
                            (DateText.slash_date 2 1 31 1 2024)
     = Batch.mkParsed "2025-06-01T08:00:00.000Z" (Some Batch.BrUS) None
                      (Some Batch.InvalidDateFormat).
Proof.
  split.
  - apply (proj1 (slash_date_cell (fun _ => None) "2025-06-01T08:00:00.000Z"
                    1 2 3 15 2024
                    ltac:(left; split; [reflexivity|lia])
                    ltac:(right; split; [reflexivity|lia]) ltac:(lia))).
    unfold DateText.valid_day. vm_compute. intuition discriminate.
  - apply (proj2 (slash_date_cell (fun _ => None) "2025-06-01T08:00:00.000Z"
                    2 1 31 1 2024
                    ltac:(right; split; [reflexivity|lia])
                    ltac:(left; split; [reflexivity|lia]) ltac:(lia))).
    right. lia.
Defined.

(** ** The chunk rows of the pipeline *)

Section PipelineFacts.

Local Open Scope Z_scope.






End PipelineFacts.


